(** * maids-tracker: the aggregation and quota-forecast computations of [app.py]

    A shallow embedding of the live part of [app.py] (lines 1-201; the rest of
    the file is commented-out drafts): the two segment filters, the period
    table built by [prepare_grouped] and the quota figures computed by the
    page script.

    Python values are modelled as Python has them: [int] is [Z], a [float]
    is an IEEE-754 binary64 value ([spec_float] at precision 53), a [str]
    is a [string] of bytes, a NULL cell of a data frame is [None].  Code that
    can raise returns [option].  A [numpy.int64], as a cell of the quota
    frame is, is a [Z] whose arithmetic wraps around at 64 bits.  The one
    library default the result depends on and the source does not set,
    [observed] of [groupby], is a parameter; it also tells which pandas is at
    hand where [pd.to_datetime] depends on it. *)

From Stdlib Require Import ZArith List Bool Lia.
From Stdlib Require Import Strings.String Strings.Ascii.
From Stdlib Require Import Sorting.Sorted Sorting.Permutation.
From Stdlib Require Import Floats.SpecFloat.
Import ListNotations.

Local Open Scope string_scope.
Local Open Scope list_scope.
Local Open Scope Z_scope.

(* ================================================================== *)
(** ** Calendar dates (the proleptic Gregorian calendar of [datetime]) *)
(* ================================================================== *)

Record date := mkdate { year : Z; month : Z; day : Z }.

Definition is_leap (y : Z) : bool :=
  (y mod 4 =? 0) && (negb (y mod 100 =? 0) || (y mod 400 =? 0)).

Definition days_in_month (y m : Z) : Z :=
  if (m =? 2) && is_leap y then 29
  else nth (Z.to_nat m) [0; 31; 28; 31; 30; 31; 30; 31; 31; 30; 31; 30; 31] 0.

Definition days_before_month (y m : Z) : Z :=
  nth (Z.to_nat m) [0; 0; 31; 59; 90; 120; 151; 181; 212; 243; 273; 304; 334] 0
  + (if (2 <? m) && is_leap y then 1 else 0).

Definition days_before_year (y : Z) : Z :=
  let y1 := y - 1 in y1 * 365 + y1 / 4 - y1 / 100 + y1 / 400.

(** [date.toordinal()]: day 1 is 0001-01-01. *)
Definition toordinal (d : date) : Z :=
  days_before_year (year d) + days_before_month (year d) (month d) + day d.

Definition valid_date (d : date) : Prop :=
  1 <= month d <= 12 /\ 1 <= day d <= days_in_month (year d) (month d).

Definition valid_dateb (d : date) : bool :=
  (1 <=? month d) && (month d <=? 12) && (1 <=? day d)
  && (day d <=? days_in_month (year d) (month d)).

(** Timestamps at midnight compare as their day numbers. *)
Definition date_leb (a b : date) : bool := toordinal a <=? toordinal b.

(** [(a - b).days] *)
Definition days_between (a b : date) : Z := toordinal a - toordinal b.

(** [d.replace(day=1)] *)
Definition replace_day1 (d : date) : date := mkdate (year d) (month d) 1.

(** [d + pd.offsets.MonthEnd(0)]: roll forward to the end of the month,
    staying put when [d] already is a month end. *)
Definition month_end0 (d : date) : date :=
  mkdate (year d) (month d) (days_in_month (year d) (month d)).

(** [isocalendar().week], as [datetime] computes it. *)
Definition isoweek1monday (y : Z) : Z :=
  let firstday := toordinal (mkdate y 1 1) in
  let firstweekday := (firstday + 6) mod 7 in
  let week1monday := firstday - firstweekday in
  if 3 <? firstweekday then week1monday + 7 else week1monday.

Definition isoweek (d : date) : Z :=
  let today := toordinal d in
  let week := (today - isoweek1monday (year d)) / 7 in
  if week <? 0 then (today - isoweek1monday (year d - 1)) / 7 + 1
  else if (52 <=? week) && (isoweek1monday (year d + 1) <=? today) then 1
  else week + 1.

(* ------------------------------------------------------------------ *)
(** *** [strftime] and the parsing done by the sort key               *)
(* ------------------------------------------------------------------ *)

Definition month_abbrs : list string :=
  ["Jan"; "Feb"; "Mar"; "Apr"; "May"; "Jun";
   "Jul"; "Aug"; "Sep"; "Oct"; "Nov"; "Dec"].

Definition digit_char (n : Z) : ascii := ascii_of_nat (48 + Z.to_nat n).

(** ["%02d"] of a number below 100. *)
Definition two_digits (n : Z) : string :=
  String (digit_char (n / 10)) (String (digit_char (n mod 10)) EmptyString).

(** [strftime('%b')] *)
Definition strftime_b (d : date) : string :=
  nth (Z.to_nat (month d - 1)) month_abbrs "".

(** [strftime('%d/%m')] *)
Definition strftime_dm (d : date) : string :=
  (two_digits (day d) ++ "/" ++ two_digits (month d))%string.

(** [s.split('/')] *)
Fixpoint split_slash_aux (s acc : string) : list string :=
  match s with
  | EmptyString => [acc]
  | String c s' =>
      if Ascii.eqb c "/"%char then acc :: split_slash_aux s' EmptyString
      else split_slash_aux s' (acc ++ String c EmptyString)%string
  end.

Definition split_slash (s : string) : list string := split_slash_aux s EmptyString.

Definition digit_value (c : ascii) : option Z :=
  let n := Z.of_nat (nat_of_ascii c) in
  if (48 <=? n) && (n <=? 57) then Some (n - 48) else None.

Fixpoint int_of_digits (s : string) (acc : Z) : option Z :=
  match s with
  | EmptyString => Some acc
  | String c s' =>
      match digit_value c with
      | Some v => int_of_digits s' (10 * acc + v)
      | None => None
      end
  end.

(** [int(s)] on a string of decimal digits; [None] is the [ValueError] on
    anything else (signs, blanks and underscores never occur in a key). *)
Definition int_of_str (s : string) : option Z :=
  match s with
  | EmptyString => None
  | _ => int_of_digits s 0
  end.

(** [s.lower()] on the bytes of a string: the letters A-Z change.  (Lower-casing
    a non-ASCII letter never yields a letter of the two ASCII words the
    filter compares with, so this decides the same comparisons.) *)
Definition lower_char (c : ascii) : ascii :=
  let n := nat_of_ascii c in
  if (65 <=? n)%nat && (n <=? 90)%nat then ascii_of_nat (n + 32) else c.

Fixpoint lower (s : string) : string :=
  match s with
  | EmptyString => EmptyString
  | String c s' => String (lower_char c) (lower s')
  end.

(* ================================================================== *)
(** ** The two data frames                                             *)
(* ================================================================== *)

(** A row of [load_applications()]. *)
Record Application := mkApp {
  application_date : option date;
  nationality : option string;
  location : option string;
  active_visa_status : option string
}.

(** A row of [load_quotas()]; the two quota columns are whole numbers. *)
Record QuotaRow := mkQuota {
  q_nationality : option string;
  q_location : option string;
  quota_all : Z;
  quota_active : Z
}.

(** [cell == s] on a column: a NULL cell equals no string. *)
Definition cell_eqb (c : option string) (s : string) : bool :=
  match c with
  | Some x => String.eqb x s
  | None => false
  end.

(* ================================================================== *)
(** ** Filters                                                         *)
(* ================================================================== *)

Definition filter_applications (df : list Application)
    (nat_ loc : string) (active_only : bool) : list Application :=
  let df := filter (fun r => cell_eqb (nationality r) nat_
                             && cell_eqb (location r) loc) df in
  if active_only && String.eqb (lower nat_) "filipina"
     && String.eqb (lower loc) "philippines"
  then filter (fun r => cell_eqb (active_visa_status r) "true") df
  else df.

Definition get_daily_quota (df : list QuotaRow)
    (nat_ loc : string) (active_only : bool) : Z :=
  let row := filter (fun r => cell_eqb (q_nationality r) nat_
                              && cell_eqb (q_location r) loc) df in
  match row with
  | [] => 0
  | r :: _ => if active_only then quota_active r else quota_all r
  end.

(* ================================================================== *)
(** ** Python numbers                                                  *)
(* ================================================================== *)

(** The binary64 format of a Python [float]. *)
Definition prec : Z := 53.
Definition emax : Z := 1024.

Inductive number :=
  | PyInt (z : Z)
  | PyFloat (f : spec_float).

(** [float(n)] for an int: the nearest double, ties to even; [None] is the
    [OverflowError] raised when [n] is too large for a double. *)
Definition float_of_int (n : Z) : option spec_float :=
  match binary_normalize prec emax n 0 false with
  | S754_infinity _ => None
  | f => Some f
  end.

(** [a / b] on two ints: the correctly rounded quotient (ties to even).
    [None] is [ZeroDivisionError], or [OverflowError] when the quotient is
    too large for a double. *)
Definition int_truediv (a b : Z) : option spec_float :=
  if b =? 0 then None
  else if a =? 0 then Some (S754_zero (b <? 0))
  else
    let '(q, e, l) := SFdiv_core_binary prec emax (Z.abs a) 0 (Z.abs b) 0 in
    match binary_round_aux prec emax (xorb (a <? 0) (b <? 0)) q e l with
    | S754_infinity _ => None
    | f => Some f
    end.

Definition float_is_zero (f : spec_float) : bool :=
  match f with S754_zero _ => true | _ => false end.

(** [x / y] *)
Definition py_truediv (x y : number) : option number :=
  match x, y with
  | PyInt a, PyInt b => option_map PyFloat (int_truediv a b)
  | PyFloat f, PyInt b =>
      match float_of_int b with
      | Some g => if float_is_zero g then None else Some (PyFloat (SFdiv prec emax f g))
      | None => None
      end
  | PyInt a, PyFloat g =>
      match float_of_int a with
      | Some f => if float_is_zero g then None else Some (PyFloat (SFdiv prec emax f g))
      | None => None
      end
  | PyFloat f, PyFloat g =>
      if float_is_zero g then None else Some (PyFloat (SFdiv prec emax f g))
  end.

(** [x * y] *)
Definition py_mul (x y : number) : option number :=
  match x, y with
  | PyInt a, PyInt b => Some (PyInt (a * b))
  | PyFloat f, PyInt b => option_map (fun g => PyFloat (SFmul prec emax f g)) (float_of_int b)
  | PyInt a, PyFloat g => option_map (fun f => PyFloat (SFmul prec emax f g)) (float_of_int a)
  | PyFloat f, PyFloat g => Some (PyFloat (SFmul prec emax f g))
  end.

(** [int(x)]: truncation towards zero; [None] is the error on inf and nan. *)
Definition py_int (x : number) : option Z :=
  match x with
  | PyInt a => Some a
  | PyFloat (S754_zero _) => Some 0
  | PyFloat (S754_finite s m e) =>
      let v := match e with
               | Zneg p => Z.shiftr (Zpos m) (Zpos p)
               | _ => Z.shiftl (Zpos m) e
               end in
      Some (if s then - v else v)
  | PyFloat _ => None
  end.

(** [x < 0] *)
Definition py_negative (x : number) : bool :=
  match x with
  | PyInt a => a <? 0
  | PyFloat f => SFltb f (S754_zero false)
  end.

(** *** [numpy.int64]

    The cells of the two quota columns are [numpy.int64] values, and so is
    every result of arithmetic on them with a Python int: sums and products
    wrap around at 64 bits (with a warning, no exception). *)
Definition wrap64 (z : Z) : Z := (z + 2 ^ 63) mod 2 ^ 64 - 2 ^ 63.

(** The double nearest to an integer of 64 bits (ties to even). *)
Definition np_float (z : Z) : spec_float := binary_normalize prec emax z 0 false.

(** [a / b] where one side is a [numpy.int64]: both sides are converted to
    doubles, then divided in IEEE arithmetic.  A zero divisor gives an
    infinity or a NaN (with a warning), not an exception. *)
Definition np_truediv (a b : Z) : number :=
  PyFloat (SFdiv prec emax (np_float a) (np_float b)).

(** The error monad of the page script. *)
Definition bind {A B} (x : option A) (f : A -> option B) : option B :=
  match x with
  | Some a => f a
  | None => None
  end.

Notation "'do' x <- e1 ; e2" := (bind e1 (fun x => e2))
  (at level 10, x name, e1 at level 100, e2 at level 200).

(* ================================================================== *)
(** ** Aggregation: [prepare_grouped]                                  *)
(* ================================================================== *)

(** The three values of [level]: ["M"], ["W"], ["D"]. *)
Inductive level := M | W | D.

(** An index label of the period table: a [str] (month abbreviation or
    day/month) or an [int] (ISO week). *)
Inductive label :=
  | LStr (s : string)
  | LInt (n : Z).

Definition label_eqb (a b : label) : bool :=
  match a, b with
  | LStr x, LStr y => String.eqb x y
  | LInt x, LInt y => x =? y
  | _, _ => false
  end.

Definition label_in (k : label) (l : list label) : bool := existsb (label_eqb k) l.

(** A row of the working frame: the date with its [year] and [period]. *)
Record Row := mkRow { row_date : date; row_year : Z; row_period : label }.

Definition period_of (lv : level) (d : date) : label :=
  match lv with
  | M => LStr (strftime_b d)
  | W => LInt (isoweek d)
  | D => LStr (strftime_dm d)
  end.

(** Lines 55-67: rows dated in one of the two years (a NULL date has no
    year and is dropped), each with its period. *)
Definition with_period (lv : level) (this_year last_year : Z)
    (df : list Application) : list Row :=
  flat_map (fun a =>
    match application_date a with
    | Some d => if existsb (Z.eqb (year d)) [this_year; last_year]
                then [mkRow d (year d) (period_of lv d)] else []
    | None => []
    end) df.

(** [unique()]: first occurrences, in order. *)
Fixpoint uniq {A} (eqb : A -> A -> bool) (l : list A) : list A :=
  match l with
  | [] => []
  | x :: l' => x :: filter (fun y => negb (eqb x y)) (uniq eqb l')
  end.

Fixpoint insert_by {A} (leb : A -> A -> bool) (x : A) (l : list A) : list A :=
  match l with
  | [] => [x]
  | y :: l' => if leb x y then x :: l else y :: insert_by leb x l'
  end.

Fixpoint sort_by {A} (leb : A -> A -> bool) (l : list A) : list A :=
  match l with
  | [] => []
  | x :: l' => insert_by leb x (sort_by leb l')
  end.

Fixpoint position (s : string) (l : list string) : nat :=
  match l with
  | [] => 0
  | x :: l' => if String.eqb x s then 0 else S (position s l')
  end.

(** The order in which group keys and the pivot index are laid out:
    category order for the month categorical, numeric for weeks, plain string
    order for day/month strings. *)
Definition label_leb (lv : level) (a b : label) : bool :=
  match a, b with
  | LInt x, LInt y => x <=? y
  | LStr x, LStr y =>
      match lv with
      | M => (position x month_abbrs <=? position y month_abbrs)%nat
      | _ => String.leb x y
      end
  | LInt _, LStr _ => true
  | LStr _, LInt _ => false
  end.

Definition group_size (df : list Row) (k : label) (y : Z) : Z :=
  Z.of_nat (List.length (filter (fun r => label_eqb (row_period r) k && (row_year r =? y)) df)).

(** Whether the grouping lays out every category of the period column.  The
    month period is a categorical; the source leaves the [observed] argument
    of [groupby] to its default, which is [False] before pandas 3.0 and
    [True] from 3.0 on, so the default is a parameter of the model.  With
    [observed=False] a categorical key contributes all its categories; week
    and day periods are no categoricals. *)
Definition all_categories (observed : bool) (lv : level) : bool :=
  match lv with
  | M => negb observed
  | _ => false
  end.

(** [df.groupby(["period", "year"]).size().reset_index(name="applications")].
    When every category is laid out, the result has one row for every
    category and every year present, of size 0 where nothing was observed.
    Otherwise only the observed (period, year) pairs have a row. *)
Definition groupby_size (observed : bool) (lv : level) (df : list Row)
  : list (label * Z * Z) :=
  let years := sort_by Z.leb (uniq Z.eqb (map row_year df)) in
  if all_categories observed lv
  then flat_map (fun k => map (fun y => (k, y, group_size df k y)) years)
                (map LStr month_abbrs)
  else
    let keys := sort_by (label_leb lv) (uniq label_eqb (map row_period df)) in
    flat_map (fun k => flat_map (fun y =>
                let n := group_size df k y in
                if 0 <? n then [(k, y, n)] else []) years) keys.

(** A frame indexed by period with one column per year; [None] is NaN. *)
Record Pivot := mkPivot {
  columns : list Z;
  rows : list (label * list (option Z))
}.

Definition index (t : Pivot) : list label := map fst (rows t).

Definition lookup_group (g : list (label * Z * Z)) (k : label) (y : Z) : option Z :=
  option_map snd
    (find (fun r => label_eqb (fst (fst r)) k && (snd (fst r) =? y)) g).

(** [grouped.pivot(index="period", columns="year", values="applications")] *)
Definition pivot (lv : level) (g : list (label * Z * Z)) : Pivot :=
  let cols := sort_by Z.leb (uniq Z.eqb (map (fun r => snd (fst r)) g)) in
  let idx := sort_by (label_leb lv) (uniq label_eqb (map (fun r => fst (fst r)) g)) in
  mkPivot cols (map (fun k => (k, map (lookup_group g k) cols)) idx).

Fixpoint index_of (y : Z) (l : list Z) : option nat :=
  match l with
  | [] => None
  | x :: l' => if x =? y then Some 0%nat else option_map S (index_of y l')
  end.

(** [t.loc[k, y]], with [None] also when the row or the column is missing. *)
Definition cell (t : Pivot) (k : label) (y : Z) : option Z :=
  match find (fun r => label_eqb (fst r) k) (rows t), index_of y (columns t) with
  | Some r, Some j => nth j (snd r) None
  | _, _ => None
  end.

(** [t.loc[mask, y] = float('nan')] *)
Definition set_nan (mask : label -> bool) (y : Z) (t : Pivot) : Pivot :=
  mkPivot (columns t)
    (map (fun r =>
            if mask (fst r)
            then (fst r, map (fun cv => if fst cv =? y then None else snd cv)
                             (combine (columns t) (snd r)))
            else r) (rows t)).

(** [index > w] on the week index (which holds ints only). *)
Definition label_gtb (k : label) (w : Z) : bool :=
  match k with
  | LInt n => w <? n
  | LStr _ => false
  end.

(** The sort key of line 87; [None] is the [IndexError] or [ValueError]. *)
Definition sort_key (i : label) : option Z :=
  match i with
  | LStr s =>
      match split_slash s with
      | a :: b :: _ =>
          do m <- int_of_str b; do d <- int_of_str a; Some (m * 100 + d)
      | _ => None
      end
  | LInt n => Some n
  end.

Fixpoint map_opt {A B} (f : A -> option B) (l : list A) : option (list B) :=
  match l with
  | [] => Some []
  | x :: l' => do y <- f x; do ys <- map_opt f l'; Some (y :: ys)
  end.

(** [t.sort_index(key=...)]: rows in ascending order of their keys.  The keys
    of a period table are pairwise distinct, so the order does not depend on
    the sorting algorithm. *)
Definition sort_index (t : Pivot) : option Pivot :=
  do keys <- map_opt sort_key (index t);
  Some (mkPivot (columns t)
          (map snd (sort_by (fun a b => fst a <=? fst b) (combine keys (rows t))))).

(** Lines 55-70: the table before any masking. *)
Definition pivoted_before_mask (observed : bool) (df : list Application) (lv : level)
    (this_year last_year : Z) : Pivot :=
  pivot lv (groupby_size observed lv (with_period lv this_year last_year df)).

(** [pd.to_datetime] on a date: before pandas 3.0 (where the default of
    [observed] is [False]) the result has nanosecond resolution, a timestamp
    being a signed 64-bit count of nanoseconds since 1970-01-01 whose
    smallest value stands for NaT.  That holds the midnights from 1677-09-22
    to 2262-04-11.  From pandas 3.0 on (default [True]) the resolution is
    inferred from the input, and every date of the calendar is held. *)
Definition in_bounds (observed : bool) (d : date) : bool :=
  observed
  || (let ns := (toordinal d - toordinal (mkdate 1970 1 1)) * 86400000000000 in
      (- 2 ^ 63 <? ns) && (ns <? 2 ^ 63)).

(** [pd.to_datetime(df["application_date"])] (lines 56 and 135): the frame
    with its date column converted; [None] is the [OutOfBoundsDatetime]
    raised on a date out of bounds.  A NULL date becomes NaT. *)
Definition to_datetime (observed : bool) (df : list Application)
  : option (list Application) :=
  if forallb (fun a => match application_date a with
                       | Some d => in_bounds observed d
                       | None => true
                       end) df
  then Some df else None.

(** Lines 57-89 of [prepare_grouped]: grouping, pivot, mask and sort, on the
    frame whose date column line 56 has converted. *)
Definition grouped_pivot (observed : bool) (df : list Application) (lv : level)
    (this_year last_year : Z) (today : date) : option Pivot :=
  let df := with_period lv this_year last_year df in
  let grouped := groupby_size observed lv df in
  let pivoted := pivot lv grouped in
  let pivoted :=
    if existsb (Z.eqb this_year) (columns pivoted) then
      match lv with
      | M =>
          let latest_month := month today in
          let later_months := skipn (Z.to_nat latest_month) month_abbrs in
          set_nan (fun k => label_in k (map LStr later_months)) this_year pivoted
      | W =>
          let current_week := isoweek today in
          set_nan (fun k => label_gtb k current_week) this_year pivoted
      | D =>
          let df_cutoff :=
            filter (fun r => (row_year r =? this_year) && date_leb (row_date r) today) df in
          let valid_days := uniq label_eqb (map row_period df_cutoff) in
          set_nan (fun day => negb (label_in day valid_days)) this_year pivoted
      end
    else pivoted in
  match lv with
  | M => Some pivoted
  | _ => sort_index pivoted
  end.

(** [prepare_grouped(df, level, this_year, last_year, today)]: line 56
    converts the date column, which can raise; lines 57-89 build the table. *)
Definition prepare_grouped (observed : bool) (df : list Application) (lv : level)
    (this_year last_year : Z) (today : date) : option Pivot :=
  do df <- to_datetime observed df;
  grouped_pivot observed df lv this_year last_year today.

(** Whether [get_daily_quota] finds a row ([row.empty] is false).  It then
    returns a cell of the frame, a [numpy.int64]; otherwise it returns the
    Python int 0. *)
Definition quota_row_found (df : list QuotaRow) (nat_ loc : string) : bool :=
  existsb (fun r => cell_eqb (q_nationality r) nat_ && cell_eqb (q_location r) loc) df.

(* ================================================================== *)
(** ** The page script (lines 133-153 and 193-201)                     *)
(* ================================================================== *)

Section Page.
(** The default of [groupby]'s [observed] in the pandas at hand. *)
Variable observed : bool.
Variable df_apps : list Application.
Variable df_quotas : list QuotaRow.
Variables nat_ loc : string.
Variable active_only : bool.
Variable today : date.

(** The selection of line 134.  Line 135 converts its date column; the
    figures below are those of lines 136-153 and 196-198 on the converted
    frame.  That the conversion can raise is [to_datetime], which
    [render_view] and [prepare_grouped] run. *)
Definition df_filtered : list Application :=
  filter_applications df_apps nat_ loc active_only.

Definition this_year : Z := year today.
Definition last_year : Z := this_year - 1.
Definition year_days : Z := if year today mod 4 =? 0 then 366 else 365.
Definition daily_quota : Z := get_daily_quota df_quotas nat_ loc active_only.

(** The daily quota is a [numpy.int64] when it was read from the frame, and
    the Python int 0 when no row matched. *)
Definition quota_is_np : bool := quota_row_found df_quotas nat_ loc.

(** [daily_quota * n] for a Python int [n]. *)
Definition quota_times (n : Z) : Z :=
  if quota_is_np then wrap64 (daily_quota * n) else daily_quota * n.

(** [x - n] for a quota figure [x] and a Python int [n]. *)
Definition quota_minus (x n : Z) : Z :=
  if quota_is_np then wrap64 (x - n) else x - n.

(** [x / y] where one of the two is a quota figure and the other a Python
    int that fits 64 bits (a row count, a number of days, the forecast):
    the division of numpy when the quota is a [numpy.int64], and the one of
    Python on the int 0 otherwise. *)
Definition quota_truediv (x y : Z) : option number :=
  if quota_is_np then Some (np_truediv x y) else py_truediv (PyInt x) (PyInt y).

Definition total_quota : Z := quota_times year_days.

(** *** Monthly forecast table *)

Definition first_day : date := replace_day1 today.
Definition last_day : date := month_end0 first_day.
Definition days_passed : Z := days_between today first_day + 1.
Definition remaining_days_in_month : Z := days_between last_day today.

Definition monthly_quota : Z :=
  quota_times (days_passed + remaining_days_in_month).

(** A NULL date compares false with every timestamp. *)
Definition attained_this_month : Z :=
  Z.of_nat (List.length (filter (fun r =>
    match application_date r with
    | Some d => date_leb first_day d && date_leb d today
    | None => false
    end) df_filtered)).

Definition percent_delivered : option number :=
  if negb (monthly_quota =? 0)
  then do x <- quota_truediv attained_this_month monthly_quota;
       py_mul x (PyInt 100)
  else Some (PyInt 0).

Definition forecast_by_eom : option Z :=
  if negb (days_passed =? 0)
  then do x <- py_truediv (PyInt attained_this_month) (PyInt days_passed);
       do y <- py_mul x (PyInt (days_passed + remaining_days_in_month));
       py_int y
  else Some 0.

Definition percent_forecast : option number :=
  if negb (monthly_quota =? 0)
  then do f <- forecast_by_eom;
       do x <- quota_truediv f monthly_quota;
       py_mul x (PyInt 100)
  else Some (PyInt 0).

(** *** Render views: the body of the loop over [view_levels] *)

Definition attained : Z :=
  Z.of_nat (List.length (filter (fun r =>
    match application_date r with
    | Some d => year d =? this_year
    | None => false
    end) df_filtered)).

Definition remaining_days : Z := days_between (mkdate this_year 12 31) today.

Definition needed_avg (lv : level) : option number :=
  do needed_avg <-
    (if 0 <? remaining_days
     then quota_truediv (quota_minus total_quota attained) remaining_days
     else Some (PyInt 0));
  match lv with
  | M => py_mul needed_avg (PyInt 30)
  | W => py_mul needed_avg (PyInt 7)
  | D => Some needed_avg
  end.

Definition df_plot (lv : level) : option Pivot :=
  prepare_grouped observed df_filtered lv this_year last_year today.
End Page.

(* ================================================================== *)
(** ** Vocabulary of the specification                                 *)
(* ================================================================== *)

(** Every dated application carries a real calendar date. *)
Definition valid_apps (df : list Application) : Prop :=
  Forall (fun a => forall d, application_date a = Some d -> valid_date d) df.

(** Every date of the frame is one that [pd.to_datetime] holds. *)
Definition dates_in_bounds (observed : bool) (df : list Application) : Prop :=
  Forall (fun a => forall d, application_date a = Some d -> in_bounds observed d = true) df.

(** The Gregorian length of a year. *)
Definition gregorian_year_length (y : Z) : Z := if is_leap y then 366 else 365.

(** A row of the quota table matches a segment. *)
Definition quota_matches (nat_ loc : string) (r : QuotaRow) : Prop :=
  q_nationality r = Some nat_ /\ q_location r = Some loc.

(** The one segment whose active-visa flag is looked at. *)
Definition special_segment (nat_ loc : string) : Prop :=
  lower nat_ = "filipina" /\ lower loc = "philippines".

(** The month number (1-12) of an abbreviation. *)
Definition month_number (s : string) : option Z :=
  if existsb (String.eqb s) month_abbrs
  then Some (Z.of_nat (position s month_abbrs) + 1) else None.

(** The place of a period key in its granularity's own order: the month
    number, the week number, [month*100+day]. *)
Definition period_rank (lv : level) (k : label) : option Z :=
  match lv, k with
  | M, LStr s => month_number s
  | W, LInt n => Some n
  | D, LStr _ => sort_key k
  | _, _ => None
  end.

Definition today_rank (lv : level) (today : date) : Z :=
  match lv with
  | M => month today
  | W => isoweek today
  | D => month today * 100 + day today
  end.

(** The key lies strictly after today's own key. *)
Definition after_today (lv : level) (today : date) (k : label) : Prop :=
  exists n, period_rank lv k = Some n /\ today_rank lv today < n.

(** The applications counted in cell [(k, y)] of a table of level [lv]. *)
Definition matching_events (df : list Application) (lv : level) (k : label) (y : Z)
  : list Application :=
  filter (fun a =>
    match application_date a with
    | Some d => (year d =? y) && label_eqb (period_of lv d) k
    | None => false
    end) df.

(* ------------------------------------------------------------------ *)
(** *** Auxiliary definitions for the statements and proofs below      *)
(* ------------------------------------------------------------------ *)

(** All the dates of calendar year [y], in order. *)
Definition dates_of_year (y : Z) : list date :=
  flat_map (fun m => map (fun d => mkdate y m (Z.of_nat d))
                         (seq 1 (Z.to_nat (days_in_month y m))))
           (map Z.of_nat (seq 1 12)).

(** A sample application of segment (A, B), dated [y-m-d]. *)
Definition app_on (y m d : Z) : Application :=
  mkApp (Some (mkdate y m d)) (Some "A") (Some "B") (Some "false").

(** [fexp] of binary64: the exponent of the last bit kept when rounding a
    number of the given magnitude. *)
Definition fexp64 (x : Z) : Z := Z.max (x - 53) (-1074).

(** [near n X Y]: [X] and [Y] differ by at most [X / 2^n]. *)
Definition near (n X Y : Z) : Prop := 2 ^ n * Z.abs (X - Y) <= X.

(** The value of a finite double, counted in units of [2^-1074], the
    smallest positive double: every finite double is a whole number of
    them.  [None] on an infinity and on NaN. *)
Definition units (f : spec_float) : option Z :=
  match f with
  | S754_zero _ => Some 0
  | S754_finite s m e => Some ((if s then - Zpos m else Zpos m) * 2 ^ (e + 1074))
  | _ => None
  end.


(** Every (day, month) pair that [strftime('%d/%m')] can print. *)
Definition day_month_pairs : list (Z * Z) :=
  list_prod (map Z.of_nat (seq 1 31)) (map Z.of_nat (seq 1 12)).

Definition key_round_trip (dm : Z * Z) : bool :=
  match sort_key (LStr (strftime_dm (mkdate 0 (snd dm) (fst dm)))) with
  | Some n => n =? snd dm * 100 + fst dm
  | None => false
  end.

(* ================================================================== *)
(** ** The rest of the page: side bar, latest day, chart               *)
(* ================================================================== *)

(** [col.dropna()] *)
Definition dropna {A} (col : list (option A)) : list A :=
  flat_map (fun c => match c with Some x => [x] | None => [] end) col.

(** [sorted(col.dropna().unique())]: the options of a select box.  Strings
    sort by code point, which on UTF-8 text is the order of their bytes. *)
Definition select_options (col : list (option string)) : list string :=
  sort_by String.leb (uniq String.eqb (dropna col)).

(** [l.index(s)]; [None] is the [ValueError] raised when [s] is not in [l]. *)
Fixpoint list_index (s : string) (l : list string) : option nat :=
  match l with
  | [] => None
  | x :: l' => if String.eqb x s then Some 0%nat else option_map S (list_index s l')
  end.

(** Lines 129 and 130: the preselected entries of the two select boxes. *)
Definition nationality_default (df_apps : list Application) : option nat :=
  list_index "filipina" (select_options (map nationality df_apps)).

Definition location_default (df_apps : list Application) : option nat :=
  list_index "outside_uae" (select_options (map location df_apps)).

(** [col.max()] on a column of timestamps: NULL cells are skipped; [None] is
    the [NaT] of a column without any timestamp. *)
Definition max_date (col : list (option date)) : option date :=
  fold_left (fun acc c =>
               match c, acc with
               | Some d, Some m => Some (if date_leb m d then d else m)
               | Some d, None => Some d
               | None, _ => acc
               end) col None.

(** ["%04d"] of a year. *)
Definition four_digits (n : Z) : string :=
  String (digit_char (n / 1000))
    (String (digit_char (n / 100 mod 10)) (two_digits (n mod 100))).

(** [strftime('%Y-%m-%d')] *)
Definition strftime_Ymd (d : date) : string :=
  (four_digits (year d) ++ "-" ++ two_digits (month d) ++ "-" ++ two_digits (day d))%string.

(** Line 187; [None] is the error raised by [NaT.strftime]. *)
Definition latest_date (df_apps : list Application) (nat_ loc : string)
    (active_only : bool) : option string :=
  option_map strftime_Ymd
    (max_date (map application_date (df_filtered df_apps nat_ loc active_only))).

(** *** [datetime.strptime(s, "%d/%m/%Y")] *)

Fixpoint digits_of (fuel : nat) (n : Z) (acc : string) : string :=
  match fuel with
  | O => acc
  | S fuel' =>
      let acc' := String (digit_char (n mod 10)) acc in
      if n / 10 =? 0 then acc' else digits_of fuel' (n / 10) acc'
  end.

(** [str(n)] of an int, as an f-string prints it. *)
Definition str_of_int (n : Z) : string :=
  if n <? 0
  then String "-" (digits_of (S (Z.to_nat (Z.log2 (- n)))) (- n) EmptyString)
  else digits_of (S (Z.to_nat (Z.log2 n))) n EmptyString.

Definition digit_in (lo hi : Z) (c : ascii) : option Z :=
  match digit_value c with
  | Some v => if (lo <=? v) && (v <=? hi) then Some v else None
  | None => None
  end.

(** Two digits, the first at most [hi], of a value from 1 to [top]. *)
Definition two_digit_token (hi top : Z) (a b : ascii) : option Z :=
  match digit_in 0 hi a, digit_value b with
  | Some x, Some y =>
      let n := 10 * x + y in
      if (1 <=? n) && (n <=? top) then Some n else None
  | _, _ => None
  end.

(** The directive [%d]: [3[0-1]|[1-2]\d|0[1-9]|[1-9]| [1-9]]. *)
Definition parse_d (s : string) : option Z :=
  match s with
  | String a EmptyString => digit_in 1 9 a
  | String a (String b EmptyString) =>
      if Ascii.eqb a " "%char then digit_in 1 9 b else two_digit_token 3 31 a b
  | _ => None
  end.

(** The directive [%m]: [1[0-2]|0[1-9]|[1-9]]. *)
Definition parse_m (s : string) : option Z :=
  match s with
  | String a EmptyString => digit_in 1 9 a
  | String a (String b EmptyString) => two_digit_token 1 12 a b
  | _ => None
  end.

(** The directive [%Y]: four digits. *)
Definition parse_Y (s : string) : option Z :=
  match s with
  | String _ (String _ (String _ (String _ EmptyString))) => int_of_digits s 0
  | _ => None
  end.

(** The three fields lie between the two slashes of the format; the string
    must be used up, and the fields must make a date of the calendar (years
    start at 1).  [None] is the [ValueError].  (A field is a run of ASCII
    digits here; the keys of a period table hold no others.) *)
Definition strptime_dmY (s : string) : option date :=
  match split_slash s with
  | [a; b; c] =>
      do d <- parse_d a; do m <- parse_m b; do y <- parse_Y c;
      if (1 <=? y) && (d <=? days_in_month y m) then Some (mkdate y m d) else None
  | _ => None
  end.

(** [safe_parse] of [plot_chart]: [None] on any error. *)
Definition safe_parse (this_year : Z) (x : string) : option date :=
  strptime_dmY (x ++ "/" ++ str_of_int this_year)%string.

(** *** [plot_chart] *)

(** A line of the figure: a year's series ([x], [y] with NaN as [None]), or
    the flat required-average line. *)
Inductive Trace :=
  | Series (name : Z) (x : list label) (y : list (option Z))
  | RequiredAvg (x : list label) (y : list number).

Record Figure := mkFigure {
  traces : list Trace;
  tickvals : option (list label)
}.

(** [df[y]] *)
Definition column (df : Pivot) (y : Z) : list (option Z) :=
  match index_of y (columns df) with
  | Some j => map (fun r => nth j (snd r) None) (rows df)
  | None => []
  end.

(** [pd.isna] *)
Definition isna (c : option Z) : bool :=
  match c with Some _ => false | None => true end.

(** The keys under the required-average line. *)
Definition future_x (df : Pivot) (this_year : Z) (lv : level) (today : date)
  : list label :=
  match lv with
  | D =>
      let tomorrow := toordinal today + 1 in
      filter (fun x =>
                match x with
                | LStr s =>
                    match safe_parse this_year s with
                    | Some p => tomorrow <=? toordinal p
                    | None => false
                    end
                | LInt _ => false
                end) (index df)
  | _ => filter (fun x => isna (cell df x this_year)) (index df)
  end.

Definition plot_chart (df : Pivot) (this_year last_year : Z) (needed_avg : number)
    (lv : level) (today : date) : Figure :=
  let last_trace :=
    if existsb (Z.eqb last_year) (columns df)
    then [Series last_year (index df) (column df last_year)] else [] in
  let this_traces :=
    if existsb (Z.eqb this_year) (columns df)
    then Series this_year (index df) (column df this_year)
         :: (let future_x := future_x df this_year lv today in
             match future_x with
             | [] => []
             | _ => [RequiredAvg future_x (repeat needed_avg (List.length future_x))]
             end)
    else [] in
  mkFigure (last_trace ++ this_traces)
    (match lv with
     | D => Some (filter (fun x => match x with
                                   | LStr s => String.prefix "01/" s
                                   | LInt _ => false
                                   end) (index df))
     | _ => None
     end).

(** Line 135, which converts the date column of the selection and can
    raise, then lines 193-201: one pass of the loop over the three views. *)
Definition render_view (observed : bool) (df_apps : list Application)
    (df_quotas : list QuotaRow) (nat_ loc : string) (active_only : bool)
    (today : date) (lv : level) : option Figure :=
  do _ <- to_datetime observed (df_filtered df_apps nat_ loc active_only);
  do df_plot <- df_plot observed df_apps nat_ loc active_only today lv;
  do needed_avg <- needed_avg df_apps df_quotas nat_ loc active_only today lv;
  Some (plot_chart df_plot (this_year today) (last_year today) needed_avg lv today).

(* ------------------------------------------------------------------ *)
(** *** Further vocabulary                                             *)
(* ------------------------------------------------------------------ *)

(** The rows whose current-year cell [prepare_grouped] blanks. *)
Definition masked (df : list Application) (lv : level) (this_year last_year : Z)
    (today : date) (k : label) : bool :=
  match lv with
  | M => label_in k (map LStr (skipn (Z.to_nat (month today)) month_abbrs))
  | W => label_gtb k (isoweek today)
  | D => negb (label_in k
           (uniq label_eqb
              (map row_period
                 (filter (fun r => (row_year r =? this_year) && date_leb (row_date r) today)
                         (with_period D this_year last_year df)))))
  end.

Definition zsum (l : list Z) : Z := fold_right Z.add 0 l.

Definition cell_value (c : option Z) : Z :=
  match c with Some n => n | None => 0 end.

(** [df[y].sum()]: NaN counts for nothing. *)
Definition column_sum (t : Pivot) (y : Z) : Z := zsum (map cell_value (column t y)).

(** Every row has a cell for every column. *)
Definition well_formed (t : Pivot) : Prop :=
  forall r, In r (rows t) -> List.length (snd r) = List.length (columns t).

(** The applications dated in year [y]. *)
Definition dated_in (y : Z) (df : list Application) : list Application :=
  filter (fun a => match application_date a with
                   | Some d => year d =? y
                   | None => false
                   end) df.

(** The period of a date of the current year is not after today's. *)
Definition visible (lv : level) (today d : date) : bool :=
  match lv with
  | M => month d <=? month today
  | W => isoweek d <=? isoweek today
  | D => date_leb d today
  end.

(** Every (day, month) pair prints and parses back. *)
Definition parse_round_trip (dm : Z * Z) : bool :=
  match split_slash (strftime_dm (mkdate 0 (snd dm) (fst dm))) with
  | [a; b] =>
      match parse_d a, parse_m b with
      | Some d, Some m =>
          (d =? fst dm) && (m =? snd dm)
          && Bool.eqb (String.prefix "01/" (strftime_dm (mkdate 0 (snd dm) (fst dm))))
                      (fst dm =? 1)
      | _, _ => false
      end
  | _ => false
  end.

(** The years that [%Y] prints with four digits and no padding. *)
Definition four_digit_years : list Z :=
  map Z.of_nat (seq (Z.to_nat 1000) (Z.to_nat 9000)).

Definition year_round_trip (y : Z) : bool :=
  match split_slash (str_of_int y) with
  | [c] => match parse_Y c with Some y' => y' =? y | None => false end
  | _ => false
  end.


(* ================================================================== *)
(** ** Sample evaluations *)
(* ================================================================== *)

Example toordinal_2024_01_21 : toordinal (mkdate 2024 1 21) = 738906.
Proof. reflexivity. Qed.

Example isoweek_samples :
  map isoweek [mkdate 2024 1 1; mkdate 2024 12 30; mkdate 2027 1 1;
               mkdate 2026 12 31; mkdate 2023 1 1; mkdate 2024 1 21]
  = [1; 1; 53; 53; 52; 3].
Proof. reflexivity. Qed.

Example strftime_samples :
  strftime_dm (mkdate 2024 1 5) = "05/01" /\ strftime_b (mkdate 2024 12 5) = "Dec"
  /\ map int_of_str (split_slash "05/01") = [Some 5; Some 1]
  /\ lower "Filipina" = "filipina".
Proof. repeat split. Qed.

Example int_truediv_samples :
  int_truediv 61 7 = Some (S754_finite false 4905706736957147 (-49))
  /\ int_truediv 2 21 = Some (S754_finite false 6862628003612184 (-56))
  /\ int_truediv 0 (-5) = Some (S754_zero true)
  /\ int_truediv (-7) 2 = Some (S754_finite true 7881299347898368 (-51))
  /\ int_truediv 1 0 = None.
Proof. repeat split. Qed.

(** 64-bit wrap-around: [2^55 * 366] and the two ends of the range. *)
Example wrap64_samples :
  wrap64 (2 ^ 55 * 366) = -5260204364768739328
  /\ wrap64 (2 ^ 63) = - 2 ^ 63
  /\ wrap64 (- 2 ^ 63 - 1) = 2 ^ 63 - 1
  /\ wrap64 3660 = 3660.
Proof. repeat split. Qed.

(** With a [numpy.int64] on one side both operands are rounded to doubles
    before the division: [(2^53 + 1) / 3] is exactly 3002399751580331 for
    two Python ints and half a unit less for numpy.  A zero divisor gives
    an infinity or NaN. *)
Example np_truediv_samples :
  np_truediv 9007199254740993 3 = PyFloat (S754_finite false 6004799503160661 (-1))
  /\ py_truediv (PyInt 9007199254740993) (PyInt 3)
     = Some (PyFloat (S754_finite false 6004799503160662 (-1)))
  /\ np_truediv (-7) 2 = PyFloat (S754_finite true 7881299347898368 (-51))
  /\ np_truediv 1 0 = PyFloat (S754_infinity false)
  /\ np_truediv 0 0 = PyFloat S754_nan.
Proof. vm_compute. repeat split. Qed.

(** The bounds of a nanosecond timestamp, and a frame with a date outside
    them: line 56 raises before pandas 3.0 and not from 3.0 on. *)
Example to_datetime_samples :
  map (in_bounds false) [mkdate 1677 9 21; mkdate 1677 9 22; mkdate 2262 4 11;
                         mkdate 2262 4 12]
  = [false; true; true; false]
  /\ prepare_grouped false [app_on 1600 1 1; app_on 2024 1 5] D 2024 2023 (mkdate 2024 3 1)
     = None
  /\ prepare_grouped true [app_on 1600 1 1; app_on 2024 1 5] D 2024 2023 (mkdate 2024 3 1)
     = Some (mkPivot [2024] [(LStr "05/01", [Some 1])]).
Proof. vm_compute. repeat split. Qed.

Example forecast_samples :
  (do x <- py_truediv (PyInt 61) (PyInt 7); do y <- py_mul x (PyInt 28); py_int y) = Some 243
  /\ (do x <- py_truediv (PyInt 2) (PyInt 21); do y <- py_mul x (PyInt 31); py_int y) = Some 2.
Proof. vm_compute. repeat split. Qed.

Example prepare_grouped_month_sample :
  prepare_grouped false [app_on 2024 1 5; app_on 2024 1 20; app_on 2023 1 10] M 2024 2023
                  (mkdate 2024 1 21)
  = Some (mkPivot [2023; 2024]
      ((LStr "Jan", [Some 1; Some 2]) ::
       map (fun m => (LStr m, [Some 0; None])) (tl month_abbrs)))
  /\ prepare_grouped true [app_on 2024 1 5; app_on 2024 1 20; app_on 2023 1 10] M 2024 2023
                     (mkdate 2024 1 21)
     = Some (mkPivot [2023; 2024] [(LStr "Jan", [Some 1; Some 2])]).
Proof. split; reflexivity. Qed.

Example prepare_grouped_day_sample :
  prepare_grouped false [app_on 2024 1 5; app_on 2024 12 20; app_on 2024 2 1; app_on 2023 1 5]
                  D 2024 2023 (mkdate 2024 3 1)
  = Some (mkPivot [2023; 2024]
      [(LStr "05/01", [Some 1; Some 1]); (LStr "01/02", [None; Some 1]);
       (LStr "20/12", [None; None])]).
Proof. reflexivity. Qed.

Example prepare_grouped_week_sample :
  prepare_grouped true [app_on 2024 1 5; app_on 2024 12 20; app_on 2024 2 1; app_on 2023 1 5]
                  W 2024 2023 (mkdate 2024 3 1)
  = Some (mkPivot [2023; 2024]
      [(LInt 1, [Some 1; Some 1]); (LInt 5, [None; Some 1]);
       (LInt 51, [None; None])]).
Proof. reflexivity. Qed.

Example end_to_end_sample :
  let apps := [app_on 2024 1 5; app_on 2024 1 20; app_on 2023 1 10] in
  let quotas := [mkQuota (Some "A") (Some "B") 10 5] in
  let today := mkdate 2024 1 21 in
  daily_quota quotas "A" "B" false = 10
  /\ monthly_quota quotas "A" "B" false today = 310
  /\ attained_this_month apps "A" "B" false today = 2
  /\ forecast_by_eom apps "A" "B" false today = Some 2
  /\ percent_delivered apps quotas "A" "B" false today
     = Some (PyFloat (S754_finite false 5811096293381285 (-53)))
  /\ needed_avg apps quotas "A" "B" false today D
     = Some (PyFloat (S754_finite false 5968901245261331 (-49)))
  /\ needed_avg apps quotas "A" "B" false today M
     = Some (PyFloat (S754_finite false 5595844917432498 (-44))).
Proof. vm_compute. repeat split. Qed.

(* ================================================================== *)
(** ** Segment filter and quota lookup                                 *)
(* ================================================================== *)

Lemma cell_eqb_true (c : option string) (s : string) :
  cell_eqb c s = true <-> c = Some s.
Proof.
  destruct c as [x|]; simpl.
  - rewrite String.eqb_eq. split; congruence.
  - split; discriminate.
Qed.

Lemma special_segment_dec (nat_ loc : string) :
  String.eqb (lower nat_) "filipina" && String.eqb (lower loc) "philippines" = true
  <-> special_segment nat_ loc.
Proof.
  unfold special_segment. now rewrite andb_true_iff, !String.eqb_eq.
Qed.

Lemma filter_applications_unfold df nat_ loc active_only :
  filter_applications df nat_ loc active_only =
  filter (fun r => cell_eqb (nationality r) nat_ && cell_eqb (location r) loc
                   && (negb (active_only && String.eqb (lower nat_) "filipina"
                                         && String.eqb (lower loc) "philippines")
                       || cell_eqb (active_visa_status r) "true")) df.
Proof.
  unfold filter_applications.
  destruct (active_only && _ && _); simpl.
  - induction df as [|a df IH]; simpl; auto.
    destruct (cell_eqb (nationality a) nat_ && cell_eqb (location a) loc); simpl.
    + destruct (cell_eqb (active_visa_status a) "true"); simpl; now rewrite IH.
    + exact IH.
  - apply filter_ext. intros a. simpl. now rewrite andb_true_r.
Qed.

Lemma filter_applications_In df nat_ loc active_only r :
  In r (filter_applications df nat_ loc active_only) <->
  In r df /\ nationality r = Some nat_ /\ location r = Some loc /\
  (active_only = true -> special_segment nat_ loc ->
   active_visa_status r = Some "true").
Proof.
  rewrite filter_applications_unfold, filter_In, !andb_true_iff, orb_true_iff,
    negb_true_iff, !cell_eqb_true.
  split.
  - intros (Hin & (Hn & Hl) & Hact). repeat split; auto.
    intros -> Hs. apply special_segment_dec in Hs.
    simpl in Hact. rewrite Hs in Hact. destruct Hact; [discriminate | assumption].
  - intros (Hin & Hn & Hl & Hact). repeat split; auto.
    destruct active_only; simpl; auto.
    destruct (String.eqb (lower nat_) "filipina" && String.eqb (lower loc) "philippines") eqn:E;
      auto.
    right. apply Hact; auto. now apply special_segment_dec.
Qed.

Lemma filter_applications_other_segment df nat_ loc :
  ~ special_segment nat_ loc ->
  filter_applications df nat_ loc true = filter_applications df nat_ loc false.
Proof.
  intros Hns. unfold filter_applications. simpl.
  destruct (String.eqb (lower nat_) "filipina" && String.eqb (lower loc) "philippines") eqn:E;
    auto.
  exfalso. apply Hns. now apply special_segment_dec.
Qed.

(** C6.  [filter_applications] keeps exactly the applications whose
    nationality and location equal the segment's, compared as stored; when
    [active_only] is set and the segment is, up to letter case,
    (filipina, philippines), it keeps of those only the ones whose active-visa
    flag is the string ["true"]; for every other segment [active_only] changes
    nothing.  The two scenarios of the specification are evaluated as well. *)
Theorem filter_applications_asymmetry :
  (forall df nat_ loc active_only r,
      In r (filter_applications df nat_ loc active_only) <->
      In r df /\ nationality r = Some nat_ /\ location r = Some loc /\
      (active_only = true -> special_segment nat_ loc ->
       active_visa_status r = Some "true"))
  /\ (forall df nat_ loc,
      ~ special_segment nat_ loc ->
      filter_applications df nat_ loc true = filter_applications df nat_ loc false)
  /\ (forall df nat_ loc,
      filter_applications df nat_ loc false
      = filter (fun r => cell_eqb (nationality r) nat_ && cell_eqb (location r) loc) df)
  /\ (let e := mkApp None (Some "Filipina") (Some "Philippines") (Some "false") in
      filter_applications [e] "Filipina" "Philippines" true = []
      /\ filter_applications [e] "Filipina" "Philippines" false = [e])
  /\ (let e := mkApp None (Some "Kenyan") (Some "Philippines") (Some "false") in
      filter_applications [e] "Kenyan" "Philippines" true = [e]).
Proof.
  split; [|split; [|split; [|split]]].
  - apply filter_applications_In.
  - apply filter_applications_other_segment.
  - reflexivity.
  - split; reflexivity.
  - reflexivity.
Qed.

Lemma get_daily_quota_no_match df nat_ loc active_only :
  (forall r, In r df -> ~ quota_matches nat_ loc r) ->
  get_daily_quota df nat_ loc active_only = 0.
Proof.
  intros H. unfold get_daily_quota.
  destruct (filter _ df) as [|r rest] eqn:E; auto.
  assert (Hin : In r (filter (fun r => cell_eqb (q_nationality r) nat_
                                        && cell_eqb (q_location r) loc) df))
    by (rewrite E; now left).
  apply filter_In in Hin. destruct Hin as [Hin Hm].
  apply andb_true_iff in Hm. rewrite !cell_eqb_true in Hm.
  exfalso. exact (H r Hin Hm).
Qed.

Lemma get_daily_quota_match df nat_ loc :
  (exists r, In r df /\ quota_matches nat_ loc r) ->
  exists r, In r df /\ quota_matches nat_ loc r /\
            get_daily_quota df nat_ loc true = quota_active r /\
            get_daily_quota df nat_ loc false = quota_all r.
Proof.
  intros (r0 & Hin0 & Hm0). unfold get_daily_quota.
  destruct (filter _ df) as [|r rest] eqn:E.
  - exfalso.
    assert (Hin : In r0 (filter (fun r => cell_eqb (q_nationality r) nat_
                                           && cell_eqb (q_location r) loc) df)).
    { apply filter_In. split; auto. destruct Hm0 as [Hn Hl].
      apply andb_true_iff. now rewrite !cell_eqb_true. }
    rewrite E in Hin. destruct Hin.
  - assert (Hin : In r (filter (fun r => cell_eqb (q_nationality r) nat_
                                          && cell_eqb (q_location r) loc) df))
      by (rewrite E; now left).
    apply filter_In in Hin. destruct Hin as [Hin Hm].
    apply andb_true_iff in Hm. rewrite !cell_eqb_true in Hm.
    exists r. repeat split; auto; apply Hm.
Qed.

(** C9.  For every quota table and every segment with a matching row,
    [get_daily_quota] with [active_only] set returns the [quota_active]
    column of the (first) matching row, and without it the [quota_all]
    column, whatever the segment; for every segment other than
    (filipina, philippines) [filter_applications] returns the same
    applications with and without [active_only].  There the quota follows the
    flag and the delivered applications do not. *)
Theorem quota_filter_mismatch :
  forall (apps : list Application) (quotas : list QuotaRow) (nat_ loc : string),
    (exists r, In r quotas /\ quota_matches nat_ loc r) ->
    (exists r, In r quotas /\ quota_matches nat_ loc r /\
               daily_quota quotas nat_ loc true = quota_active r /\
               daily_quota quotas nat_ loc false = quota_all r)
    /\ (~ special_segment nat_ loc ->
        df_filtered apps nat_ loc true = df_filtered apps nat_ loc false).
Proof.
  intros apps quotas nat_ loc Hm. split.
  - apply get_daily_quota_match, Hm.
  - apply filter_applications_other_segment.
Qed.

(* ================================================================== *)
(** ** The calendar *)
(* ================================================================== *)

Ltac month_cases m H :=
  assert (m = 1 \/ m = 2 \/ m = 3 \/ m = 4 \/ m = 5 \/ m = 6 \/
          m = 7 \/ m = 8 \/ m = 9 \/ m = 10 \/ m = 11 \/ m = 12) as H by lia;
  repeat (destruct H as [H|H]); subst m.

Lemma days_in_month_range (y m : Z) :
  1 <= m <= 12 -> 28 <= days_in_month y m <= 31.
Proof.
  intros Hm. unfold days_in_month. month_cases m H; destruct (is_leap y); simpl; lia.
Qed.

Lemma days_before_month_mono (y m n : Z) :
  1 <= m -> m < n <= 12 ->
  days_before_month y m + days_in_month y m <= days_before_month y n.
Proof.
  intros Hm Hn. unfold days_before_month, days_in_month.
  month_cases m H; month_cases n H'; try lia; destruct (is_leap y); simpl; lia.
Qed.

Lemma days_in_year (y m : Z) :
  1 <= m <= 12 ->
  days_before_month y m + days_in_month y m <= gregorian_year_length y.
Proof.
  intros Hm. unfold days_before_month, days_in_month, gregorian_year_length.
  month_cases m H; destruct (is_leap y); simpl; lia.
Qed.

Lemma days_before_year_succ (y : Z) :
  days_before_year (y + 1) = days_before_year y + gregorian_year_length y.
Proof.
  unfold days_before_year, gregorian_year_length, is_leap.
  replace (y + 1 - 1) with y by lia.
  destruct (y mod 4 =? 0) eqn:E4; destruct (y mod 100 =? 0) eqn:E100;
    destruct (y mod 400 =? 0) eqn:E400; simpl;
    rewrite ?Z.eqb_eq, ?Z.eqb_neq in *;
    Z.to_euclidean_division_equations; lia.
Qed.

Lemma days_before_year_mono (y y' : Z) :
  y <= y' -> days_before_year y <= days_before_year y'.
Proof.
  intros H. unfold days_before_year.
  Z.to_euclidean_division_equations; lia.
Qed.

Lemma days_before_month_nonneg (y m : Z) :
  1 <= m <= 12 -> 0 <= days_before_month y m.
Proof.
  intros Hm. unfold days_before_month.
  month_cases m H; destruct (is_leap y); simpl; lia.
Qed.

(** Within a year the day number grows with [month*100+day]. *)
Lemma toordinal_same_year (a b : date) :
  valid_date a -> valid_date b -> year a = year b ->
  (toordinal a <= toordinal b <-> month a * 100 + day a <= month b * 100 + day b).
Proof.
  intros [Ha1 Ha2] [Hb1 Hb2] Hy. unfold toordinal. rewrite Hy in *.
  pose proof (days_in_month_range (year b) (month a) Ha1).
  pose proof (days_in_month_range (year b) (month b) Hb1).
  destruct (Z.lt_trichotomy (month a) (month b)) as [Hlt | [Heq | Hgt]].
  - pose proof (days_before_month_mono (year b) (month a) (month b)). lia.
  - rewrite Heq in *. lia.
  - pose proof (days_before_month_mono (year b) (month b) (month a)). lia.
Qed.

Lemma toordinal_year_lt (a b : date) :
  valid_date a -> valid_date b -> year a < year b -> toordinal a < toordinal b.
Proof.
  intros [Ha1 Ha2] [Hb1 Hb2] Hy. unfold toordinal.
  pose proof (days_in_year (year a) (month a) Ha1).
  pose proof (days_before_year_succ (year a)).
  pose proof (days_before_year_mono (year a + 1) (year b)).
  pose proof (days_before_month_nonneg (year b) (month b) Hb1).
  lia.
Qed.

(** Day numbers order valid dates as (year, month, day) triples. *)
Lemma toordinal_le_iff (a b : date) :
  valid_date a -> valid_date b ->
  (toordinal a <= toordinal b <->
   year a < year b \/
   (year a = year b /\ month a * 100 + day a <= month b * 100 + day b)).
Proof.
  intros Ha Hb.
  destruct (Z.lt_trichotomy (year a) (year b)) as [Hlt | [Heq | Hgt]].
  - pose proof (toordinal_year_lt a b Ha Hb Hlt). lia.
  - pose proof (toordinal_same_year a b Ha Hb Heq). lia.
  - pose proof (toordinal_year_lt b a Hb Ha Hgt). lia.
Qed.

Lemma days_passed_eq (today : date) : days_passed today = day today.
Proof. unfold days_passed, days_between, first_day, replace_day1, toordinal. simpl. lia. Qed.

Lemma remaining_days_in_month_eq (today : date) :
  remaining_days_in_month today
  = days_in_month (year today) (month today) - day today.
Proof.
  unfold remaining_days_in_month, days_between, last_day, month_end0, first_day,
    replace_day1, toordinal. simpl. lia.
Qed.

Lemma days_before_december (y : Z) :
  days_before_month y 12 + 31 = gregorian_year_length y.
Proof.
  unfold days_before_month, gregorian_year_length. destruct (is_leap y); reflexivity.
Qed.

Lemma remaining_days_range (today : date) :
  valid_date today -> 0 <= remaining_days today <= 365.
Proof.
  intros [H1 H2]. unfold remaining_days, days_between, this_year, toordinal. simpl.
  pose proof (days_in_year (year today) (month today) H1) as Hy.
  pose proof (days_before_month_nonneg (year today) (month today) H1).
  pose proof (days_before_december (year today)) as Hd.
  unfold gregorian_year_length in *.
  destruct (is_leap (year today)); lia.
Qed.

Lemma in_month_iff (today d : date) :
  valid_date today -> valid_date d ->
  (date_leb (first_day today) d && date_leb d today = true <->
   year d = year today /\ month d = month today /\ day d <= day today).
Proof.
  intros Ht Hd.
  assert (Hf : valid_date (first_day today)).
  { destruct Ht as [H1 H2]. split; simpl; auto.
    pose proof (days_in_month_range (year today) (month today) H1). lia. }
  unfold date_leb. rewrite andb_true_iff, !Z.leb_le.
  rewrite (toordinal_le_iff _ _ Hf Hd), (toordinal_le_iff _ _ Hd Ht).
  destruct Hd as [Hd1 Hd2]. destruct Ht as [Ht1 Ht2].
  pose proof (days_in_month_range (year d) (month d) Hd1).
  pose proof (days_in_month_range (year today) (month today) Ht1).
  unfold first_day, replace_day1. simpl. lia.
Qed.

(* ================================================================== *)
(** ** Lists: [uniq], [sort_by], [index_of], [map_opt] *)
(* ================================================================== *)

Lemma label_eqb_eq (a b : label) : label_eqb a b = true <-> a = b.
Proof.
  destruct a, b; simpl; rewrite ?String.eqb_eq, ?Z.eqb_eq;
    split; try congruence; try discriminate.
Qed.

Lemma label_eqb_refl (a : label) : label_eqb a a = true.
Proof. now apply label_eqb_eq. Qed.

Section Uniq.
Context {A : Type} (eqb : A -> A -> bool).
Hypothesis eqb_eq : forall a b, eqb a b = true <-> a = b.

Lemma uniq_In (x : A) (l : list A) : In x (uniq eqb l) <-> In x l.
Proof.
  induction l as [|a l IH]; simpl; [tauto|].
  rewrite filter_In, IH, negb_true_iff. split.
  - intros [H | [H _]]; auto.
  - intros [H | H]; auto.
    destruct (eqb a x) eqn:E; [left; now apply eqb_eq | right; auto].
Qed.

Lemma filter_neq_idem (a : A) (l : list A) :
  filter (fun y => negb (eqb a y)) (filter (fun y => negb (eqb a y)) l)
  = filter (fun y => negb (eqb a y)) l.
Proof.
  induction l as [|b l IH]; simpl; auto.
  destruct (negb (eqb a b)) eqn:E; simpl; rewrite ?E, IH; reflexivity.
Qed.

Lemma uniq_repeat_head (a : A) (n : list A) (l : list A) :
  (forall x, In x n -> x = a) ->
  uniq eqb (a :: n ++ l) = a :: filter (fun y => negb (eqb a y)) (uniq eqb l).
Proof.
  intros Hn. simpl. f_equal. induction n as [|b n IH]; simpl; auto.
  assert (b = a) by (apply Hn; now left). subst b.
  assert (E : eqb a a = true) by now apply eqb_eq.
  rewrite E. simpl. rewrite filter_neq_idem. apply IH.
  intros x Hx. apply Hn. now right.
Qed.
End Uniq.

Section Sort.
Context {A : Type} (leb : A -> A -> bool).

Lemma insert_by_perm (x : A) (l : list A) : Permutation (insert_by leb x l) (x :: l).
Proof.
  induction l as [|y l IH]; simpl; auto.
  destruct (leb x y); auto.
  rewrite IH. apply perm_swap.
Qed.

Lemma sort_by_perm (l : list A) : Permutation (sort_by leb l) l.
Proof.
  induction l as [|x l IH]; simpl; auto.
  rewrite insert_by_perm. now constructor.
Qed.

Lemma sort_by_In (x : A) (l : list A) : In x (sort_by leb l) <-> In x l.
Proof.
  split; apply Permutation_in; [|symmetry]; apply sort_by_perm.
Qed.

Hypothesis leb_total : forall a b, leb a b = true \/ leb b a = true.

Lemma insert_by_sorted (x : A) (l : list A) :
  Sorted (fun a b => leb a b = true) l ->
  Sorted (fun a b => leb a b = true) (insert_by leb x l).
Proof.
  induction 1 as [|y l Hs IH Hhd]; simpl.
  - repeat constructor.
  - destruct (leb x y) eqn:E.
    + constructor; [constructor; assumption | constructor; assumption].
    + constructor; auto.
      destruct l as [|z l]; simpl in *.
      * constructor. destruct (leb_total x y); congruence.
      * destruct (leb x z).
        -- constructor. destruct (leb_total x y); congruence.
        -- constructor. now inversion Hhd.
Qed.

Lemma sort_by_sorted (l : list A) : Sorted (fun a b => leb a b = true) (sort_by leb l).
Proof.
  induction l as [|x l IH]; simpl; [constructor | now apply insert_by_sorted].
Qed.
End Sort.

Lemma index_of_nth (y : Z) (l : list Z) (j : nat) :
  index_of y l = Some j -> nth_error l j = Some y.
Proof.
  revert j. induction l as [|x l IH]; simpl; intros j H; [discriminate|].
  destruct (x =? y) eqn:E.
  - inversion H. apply Z.eqb_eq in E. now subst.
  - destruct (index_of y l) as [i|]; [|discriminate]. inversion H. simpl. now apply IH.
Qed.

Lemma index_of_None (y : Z) (l : list Z) : index_of y l = None <-> ~ In y l.
Proof.
  induction l as [|x l IH]; simpl; [tauto|].
  destruct (x =? y) eqn:E.
  - apply Z.eqb_eq in E. split; [discriminate | intros H; exfalso; apply H; now left].
  - apply Z.eqb_neq in E. destruct (index_of y l); simpl.
    + split; [discriminate|]. intros H. exfalso.
      assert (Hn : ~ In y l) by tauto. apply IH in Hn. discriminate.
    + split; auto. intros _ [H|H]; [contradiction | now apply IH].
Qed.

Lemma existsb_Zeqb (y : Z) (l : list Z) : existsb (Z.eqb y) l = true <-> In y l.
Proof.
  rewrite existsb_exists. split.
  - intros (x & Hx & E). apply Z.eqb_eq in E. now subst.
  - intros H. exists y. split; auto. apply Z.eqb_refl.
Qed.

Lemma label_in_In (k : label) (l : list label) : label_in k l = true <-> In k l.
Proof.
  unfold label_in. rewrite existsb_exists. split.
  - intros (x & Hx & E). apply label_eqb_eq in E. now subst.
  - intros H. exists k. split; auto. apply label_eqb_refl.
Qed.

Lemma map_opt_Some {A B} (f : A -> option B) (l : list A) :
  (forall x, In x l -> f x <> None) -> exists ys, map_opt f l = Some ys.
Proof.
  induction l as [|x l IH]; simpl; intros H; [now eexists|].
  destruct (f x) as [y|] eqn:E; [|exfalso; apply (H x); auto].
  destruct IH as [ys Hys]; [intros z Hz; apply H; now right|].
  rewrite Hys. simpl. now eexists.
Qed.

Lemma map_opt_spec {A B} (f : A -> option B) (l : list A) (ys : list B) :
  map_opt f l = Some ys -> map Some ys = map f l.
Proof.
  revert ys. induction l as [|x l IH]; simpl; intros ys H.
  - inversion H. reflexivity.
  - destruct (f x) as [y|]; [|discriminate]. simpl in H.
    destruct (map_opt f l) as [zs|]; [|discriminate]. simpl in H.
    inversion H. simpl. f_equal. now apply IH.
Qed.

(* ================================================================== *)
(** ** Period tables *)
(* ================================================================== *)

Lemma with_period_In (lv : level) (ty ly : Z) (df : list Application) (r : Row) :
  In r (with_period lv ty ly df) <->
  exists a d, In a df /\ application_date a = Some d /\
              (year d = ty \/ year d = ly) /\
              r = mkRow d (year d) (period_of lv d).
Proof.
  unfold with_period. rewrite in_flat_map. split.
  - intros (a & Ha & Hr). destruct (application_date a) as [d|] eqn:Ed; [|destruct Hr].
    destruct (existsb (Z.eqb (year d)) [ty; ly]) eqn:Ey; [|destruct Hr].
    destruct Hr as [Hr|[]]. exists a, d. repeat split; auto.
    apply existsb_Zeqb in Ey. simpl in Ey. intuition congruence.
  - intros (a & d & Ha & Ed & Hy & ->). exists a. split; auto. rewrite Ed.
    assert (Ey : existsb (Z.eqb (year d)) [ty; ly] = true)
      by (apply existsb_Zeqb; simpl; intuition congruence).
    rewrite Ey. now left.
Qed.

Lemma set_nan_index mask y t : index (set_nan mask y t) = index t.
Proof.
  unfold index, set_nan. simpl. rewrite map_map. apply map_ext.
  intros r. now destruct (mask (fst r)).
Qed.

Lemma set_nan_masked mask y t r j :
  In r (rows (set_nan mask y t)) -> mask (fst r) = true ->
  index_of y (columns t) = Some j -> nth j (snd r) None = None.
Proof.
  unfold set_nan. simpl. rewrite in_map_iff. intros (r0 & <- & Hin) Hm Hj.
  assert (Hm0 : mask (fst r0) = true).
  { destruct (mask (fst r0)) eqn:Em0; auto. simpl in Hm. congruence. }
  rewrite Hm0. simpl.
  apply index_of_nth in Hj.
  set (g := fun cv : Z * option Z => if fst cv =? y then None else snd cv).
  destruct (nth_error (map g (combine (columns t) (snd r0))) j) as [v|] eqn:E.
  - rewrite (nth_error_nth _ _ _ E).
    rewrite nth_error_map in E.
    destruct (nth_error (combine (columns t) (snd r0)) j) as [[c v0]|] eqn:Ec;
      [|discriminate].
    simpl in E. inversion E. subst v.
    assert (Hc : nth_error (map fst (combine (columns t) (snd r0))) j = Some c)
      by (rewrite nth_error_map, Ec; reflexivity).
    assert (c = y).
    { clear - Hj Ec. revert j Hj Ec. generalize (snd r0) as cells.
      induction (columns t) as [|x cs IH]; intros cells j Hj Ec.
      - destruct j; discriminate.
      - destruct cells as [|v cells]; [destruct j; discriminate|].
        destruct j as [|j]; simpl in *.
        + congruence.
        + eapply IH; eauto. }
    subst c. unfold g. simpl. now rewrite Z.eqb_refl.
  - apply nth_error_None in E. now apply nth_overflow.
Qed.

Lemma cell_Some t k y v :
  cell t k y = Some v ->
  exists r j, In r (rows t) /\ fst r = k /\
              index_of y (columns t) = Some j /\ nth j (snd r) None = Some v.
Proof.
  unfold cell. destruct (find _ (rows t)) as [r|] eqn:Ef; [|discriminate].
  destruct (index_of y (columns t)) as [j|] eqn:Ej; [|discriminate].
  intros H. apply find_some in Ef. destruct Ef as [Hin Hk].
  apply label_eqb_eq in Hk. now exists r, j.
Qed.

Lemma map_opt_length {A B} (f : A -> option B) (l : list A) (ys : list B) :
  map_opt f l = Some ys -> List.length ys = List.length l.
Proof.
  intros H. apply map_opt_spec in H.
  rewrite <- (length_map Some ys), H. apply length_map.
Qed.

Lemma map_snd_combine {A B} (l : list A) (l' : list B) :
  List.length l = List.length l' -> map snd (combine l l') = l'.
Proof.
  revert l'. induction l as [|a l IH]; destruct l' as [|b l']; simpl; intros H;
    try discriminate; auto.
  f_equal. apply IH. lia.
Qed.

Lemma sort_index_rows t t' :
  sort_index t = Some t' ->
  columns t' = columns t /\ Permutation (rows t') (rows t).
Proof.
  unfold sort_index. destruct (map_opt sort_key (index t)) as [keys|] eqn:E; [|discriminate].
  simpl. intros H. inversion H. subst t'. simpl. split; auto.
  rewrite sort_by_perm. rewrite map_snd_combine; auto.
  apply map_opt_length in E. unfold index in E. now rewrite length_map in E.
Qed.

(** The future cells of a masked, then sorted, table hold nothing. *)
Lemma masked_cell_None mask y t t' k :
  (sort_index (set_nan mask y t) = Some t' \/ t' = set_nan mask y t) ->
  mask k = true -> cell t' k y = None.
Proof.
  intros Ht Hm. destruct (cell t' k y) as [v|] eqn:Ec; auto. exfalso.
  apply cell_Some in Ec. destruct Ec as (r & j & Hin & Hk & Hj & Hv).
  assert (Hcols : columns t' = columns t /\ In r (rows (set_nan mask y t))).
  { destruct Ht as [Ht | ->].
    - apply sort_index_rows in Ht. destruct Ht as [Hc Hp]. split; auto.
      eapply Permutation_in; eauto.
    - split; auto. }
  destruct Hcols as [Hc Hin']. rewrite Hc in Hj. subst k.
  rewrite (set_nan_masked mask y t r j Hin' Hm Hj) in Hv. discriminate.
Qed.

Lemma absent_column_cell t t' k y :
  (sort_index t = Some t' \/ t' = t) ->
  existsb (Z.eqb y) (columns t) = false -> cell t' k y = None.
Proof.
  intros Ht He.
  assert (Hc : columns t' = columns t).
  { destruct Ht as [Ht | ->]; auto. now apply sort_index_rows in Ht. }
  assert (Hn : index_of y (columns t') = None).
  { rewrite Hc. apply index_of_None. intros Hin. apply existsb_Zeqb in Hin. congruence. }
  unfold cell. rewrite Hn. now destruct (find _ (rows t')).
Qed.

(** *** Day/month keys *)

Lemma sort_key_strftime_all : forallb key_round_trip day_month_pairs = true.
Proof. vm_compute. reflexivity. Qed.

Lemma sort_key_strftime (d : date) :
  1 <= month d <= 12 -> 1 <= day d <= 31 ->
  sort_key (LStr (strftime_dm d)) = Some (month d * 100 + day d).
Proof.
  intros Hm Hd.
  assert (Hin : In (day d, month d) day_month_pairs).
  { apply in_prod; apply in_map_iff.
    - exists (Z.to_nat (day d)). split; [lia|]. apply in_seq. lia.
    - exists (Z.to_nat (month d)). split; [lia|]. apply in_seq. lia. }
  pose proof (proj1 (forallb_forall key_round_trip day_month_pairs)
                sort_key_strftime_all _ Hin) as H.
  unfold key_round_trip in H.
  change (strftime_dm (mkdate 0 (snd (day d, month d)) (fst (day d, month d))))
    with (strftime_dm d) in H.
  destruct (sort_key (LStr (strftime_dm d))) as [n|]; [|discriminate].
  apply Z.eqb_eq in H. rewrite H. reflexivity.
Qed.

Lemma sort_key_strftime_valid (d : date) :
  valid_date d -> sort_key (LStr (strftime_dm d)) = Some (month d * 100 + day d).
Proof.
  intros [Hm Hd]. pose proof (days_in_month_range (year d) (month d) Hm).
  apply sort_key_strftime; lia.
Qed.

Lemma existsb_String_eqb (s : string) (l : list string) :
  existsb (String.eqb s) l = true <-> In s l.
Proof.
  rewrite existsb_exists. split.
  - intros (x & Hx & E). apply String.eqb_eq in E. now subst.
  - intros H. exists s. split; auto. apply String.eqb_refl.
Qed.

Lemma skipn_position (l : list string) (s : string) (i : nat) :
  In s l -> (i <= position s l)%nat -> In s (skipn i l).
Proof.
  revert i. induction l as [|x l IH]; intros i Hin Hi; [destruct Hin|].
  destruct i as [|i]; [exact Hin|]. simpl in *.
  destruct (String.eqb x s) eqn:E; [lia|].
  apply IH; [|lia]. destruct Hin as [->|]; auto.
  rewrite String.eqb_refl in E. discriminate.
Qed.

Lemma pivot_index_In (lv : level) (g : list (label * Z * Z)) (k : label) :
  In k (index (pivot lv g)) <-> exists y n, In (k, y, n) g.
Proof.
  unfold index, pivot. simpl. rewrite map_map. simpl. rewrite map_id.
  rewrite sort_by_In, (uniq_In label_eqb label_eqb_eq), in_map_iff. split.
  - intros ([[k' y] n] & <- & Hin). now exists y, n.
  - intros (y & n & Hin). now exists (k, y, n).
Qed.

Lemma groupby_size_In (obs : bool) (lv : level) (df : list Row) (k : label) (y n : Z) :
  In (k, y, n) (groupby_size obs lv df) <->
  In y (map row_year df) /\ n = group_size df k y /\
  if all_categories obs lv then In k (map LStr month_abbrs)
  else In k (map row_period df) /\ 0 < n.
Proof.
  assert (Hy : forall y, In y (sort_by Z.leb (uniq Z.eqb (map row_year df)))
                         <-> In y (map row_year df))
    by (intros; now rewrite sort_by_In, (uniq_In Z.eqb Z.eqb_eq)).
  assert (Hk : forall k, In k (sort_by (label_leb lv) (uniq label_eqb (map row_period df)))
                         <-> In k (map row_period df))
    by (intros; now rewrite sort_by_In, (uniq_In label_eqb label_eqb_eq)).
  unfold groupby_size. destruct (all_categories obs lv); rewrite in_flat_map; split.
  - intros (k' & Hk' & Hin). apply in_map_iff in Hin.
    destruct Hin as (y' & Hin & Hy'). inversion Hin. subst.
    rewrite Hy in Hy'. auto.
  - intros (Hy' & -> & Hk'). exists k. split; auto.
    apply in_map_iff. exists y. split; auto. now apply Hy.
  - intros (k' & Hk' & Hin). apply in_flat_map in Hin.
    destruct Hin as (y' & Hy' & Hin). cbv zeta in Hin.
    destruct (0 <? group_size df k' y') eqn:E; [|destruct Hin].
    destruct Hin as [Hin|[]]. inversion Hin. subst.
    apply Z.ltb_lt in E. rewrite Hy in Hy'. rewrite Hk in Hk'. auto.
  - intros (Hy' & -> & Hk' & Hn). exists k. split; [now apply Hk|].
    apply in_flat_map. exists y. split; [now apply Hy|]. cbv zeta.
    apply Z.ltb_lt in Hn. rewrite Hn. now left.
Qed.

(** Where the labels of the table come from. *)
Lemma index_labels (obs : bool) (lv : level) (ty ly : Z) (df : list Application)
    (k : label) :
  In k (index (pivot lv (groupby_size obs lv (with_period lv ty ly df)))) ->
  if all_categories obs lv then In k (map LStr month_abbrs)
  else exists a d, In a df /\ application_date a = Some d /\ k = period_of lv d.
Proof.
  rewrite pivot_index_In. intros (y & n & Hin). apply groupby_size_In in Hin.
  destruct Hin as (_ & _ & Hk).
  destruct (all_categories obs lv); auto.
  destruct Hk as [Hk _]. apply in_map_iff in Hk. destruct Hk as (r & <- & Hr).
  apply with_period_In in Hr. destruct Hr as (a & d & Ha & Ed & _ & ->).
  now exists a, d.
Qed.

Lemma valid_apps_In (df : list Application) (a : Application) (d : date) :
  valid_apps df -> In a df -> application_date a = Some d -> valid_date d.
Proof.
  unfold valid_apps. rewrite Forall_forall. intros H Ha Hd. exact (H a Ha d Hd).
Qed.

Lemma sort_index_total (obs : bool) (lv : level) (ty ly : Z) (df : list Application)
    (t : Pivot) :
  valid_apps df ->
  index t = index (pivot lv (groupby_size obs lv (with_period lv ty ly df))) ->
  lv <> M ->
  exists t', sort_index t = Some t'.
Proof.
  intros Hv Hidx Hlv. unfold sort_index.
  destruct (map_opt_Some sort_key (index t)) as [keys Hk].
  - intros k Hin. rewrite Hidx in Hin. apply index_labels in Hin.
    destruct lv; [contradiction| |]; cbn [all_categories] in Hin;
      destruct Hin as (a & d & Ha & Ed & ->).
    + change (Some (isoweek d) <> None). discriminate.
    + change (sort_key (LStr (strftime_dm d)) <> None).
      rewrite (sort_key_strftime_valid d (valid_apps_In df a d Hv Ha Ed)). discriminate.
  - rewrite Hk. simpl. now eexists.
Qed.

Lemma month_mask (today : date) (k : label) :
  after_today M today k ->
  label_in k (map LStr (skipn (Z.to_nat (month today)) month_abbrs)) = true.
Proof.
  intros (n & Hr & Hlt). destruct k as [s|w]; [|discriminate].
  unfold period_rank, month_number in Hr. unfold today_rank in Hlt.
  destruct (existsb (String.eqb s) month_abbrs) eqn:E; [|discriminate].
  assert (Hn : Z.of_nat (position s month_abbrs) + 1 = n) by congruence.
  apply existsb_String_eqb in E.
  apply label_in_In, in_map. apply skipn_position; auto. lia.
Qed.

Lemma week_mask (today : date) (k : label) :
  after_today W today k -> label_gtb k (isoweek today) = true.
Proof.
  intros (n & Hr & Hlt). destruct k as [s|w]; [discriminate|].
  unfold period_rank in Hr. unfold today_rank in Hlt. unfold label_gtb.
  inversion Hr. subst. now apply Z.ltb_lt.
Qed.

Lemma day_mask (df : list Application) (ly : Z) (today : date) (k : label) :
  valid_apps df -> valid_date today ->
  after_today D today k ->
  negb (label_in k
          (uniq label_eqb
             (map row_period
                (filter (fun r => (row_year r =? year today) && date_leb (row_date r) today)
                        (with_period D (year today) ly df))))) = true.
Proof.
  intros Hv Ht (n & Hr & Hlt). apply negb_true_iff.
  destruct (label_in k _) eqn:E; auto. exfalso.
  apply label_in_In in E. rewrite (uniq_In label_eqb label_eqb_eq) in E.
  apply in_map_iff in E. destruct E as (r & <- & Hr').
  apply filter_In in Hr'. destruct Hr' as [Hin Hc].
  apply with_period_In in Hin. destruct Hin as (a & d & Ha & Ed & _ & ->).
  cbn [row_year row_date row_period period_of] in Hc, Hr.
  apply andb_true_iff in Hc. destruct Hc as [Hy Hle].
  apply Z.eqb_eq in Hy. unfold date_leb in Hle. apply Z.leb_le in Hle.
  pose proof (valid_apps_In df a d Hv Ha Ed) as Hd.
  change (sort_key (LStr (strftime_dm d)) = Some n) in Hr.
  rewrite (sort_key_strftime_valid d Hd) in Hr. inversion Hr. subst n.
  apply (toordinal_same_year d today Hd Ht Hy) in Hle. unfold today_rank in Hlt. lia.
Qed.

(** *** The conversion of line 56 *)

Lemma to_datetime_in_bounds (obs : bool) (df : list Application) :
  dates_in_bounds obs df -> to_datetime obs df = Some df.
Proof.
  intros H. unfold to_datetime.
  replace (forallb _ df) with true; [reflexivity|].
  symmetry. apply forallb_forall. intros a Ha.
  unfold dates_in_bounds in H. rewrite Forall_forall in H.
  destruct (application_date a) as [d|] eqn:E; [|reflexivity]. now apply (H a).
Qed.

Lemma to_datetime_Some (obs : bool) (df df' : list Application) :
  to_datetime obs df = Some df' -> df' = df /\ dates_in_bounds obs df.
Proof.
  unfold to_datetime. destruct (forallb _ df) eqn:E; [|discriminate].
  intros H. assert (Hd : df' = df) by congruence. subst df'. split; [reflexivity|].
  unfold dates_in_bounds. rewrite Forall_forall. intros a Ha d Ed.
  apply (proj1 (forallb_forall _ _) E) in Ha. now rewrite Ed in Ha.
Qed.

Lemma to_datetime_None (obs : bool) (df : list Application) :
  to_datetime obs df = None <->
  exists a d, In a df /\ application_date a = Some d /\ in_bounds obs d = false.
Proof.
  unfold to_datetime. destruct (forallb _ df) eqn:E.
  - split; [discriminate|]. intros (a & d & Ha & Ed & Hb).
    apply (proj1 (forallb_forall _ _) E) in Ha. rewrite Ed in Ha. congruence.
  - split; [intros _|reflexivity].
    assert (H : ~ forallb (fun a => match application_date a with
                                    | Some d => in_bounds obs d
                                    | None => true
                                    end) df = true) by congruence.
    clear E. induction df as [|a df IH]; [exfalso; now apply H|].
    cbn [forallb] in H.
    destruct (application_date a) as [d|] eqn:Ed.
    + destruct (in_bounds obs d) eqn:Eb.
      * destruct IH as (a' & d' & Ha' & Hd'); [exact H|].
        exists a', d'. split; [now right|exact Hd'].
      * exists a, d. split; [now left|]. now split.
    + destruct IH as (a' & d' & Ha' & Hd'); [exact H|].
      exists a', d'. split; [now right|exact Hd'].
Qed.

(** When every date is in bounds, [prepare_grouped] is its lines 57-89. *)
Lemma prepare_grouped_in_bounds (obs : bool) (df : list Application) (lv : level)
    (ty ly : Z) (today : date) :
  dates_in_bounds obs df ->
  prepare_grouped obs df lv ty ly today = grouped_pivot obs df lv ty ly today.
Proof.
  intros H. unfold prepare_grouped. now rewrite (to_datetime_in_bounds obs df H).
Qed.

(** A table returned by [prepare_grouped] is the table of lines 57-89. *)
Lemma prepare_grouped_Some (obs : bool) (df : list Application) (lv : level)
    (ty ly : Z) (today : date) (t : Pivot) :
  prepare_grouped obs df lv ty ly today = Some t ->
  grouped_pivot obs df lv ty ly today = Some t.
Proof.
  unfold prepare_grouped. destruct (to_datetime obs df) as [df'|] eqn:E; [|discriminate].
  apply to_datetime_Some in E. destruct E as [-> _]. now cbn [bind].
Qed.

Lemma dates_in_bounds_sample (obs : bool) (l : list (Z * Z * Z)) :
  forallb (fun ymd => in_bounds obs (mkdate (fst (fst ymd)) (snd (fst ymd)) (snd ymd))) l = true ->
  dates_in_bounds obs (map (fun ymd => app_on (fst (fst ymd)) (snd (fst ymd)) (snd ymd)) l).
Proof.
  intros H. unfold dates_in_bounds. rewrite Forall_forall. intros a Ha d Ed.
  apply in_map_iff in Ha. destruct Ha as (ymd & <- & Hin).
  apply (proj1 (forallb_forall _ _) H) in Hin. cbn in Ed. inversion Ed. now subst d.
Qed.

(** Under pandas 3.0 and later every date is in bounds. *)
Lemma dates_in_bounds_observed (df : list Application) : dates_in_bounds true df.
Proof.
  unfold dates_in_bounds. rewrite Forall_forall. intros a _ d _. reflexivity.
Qed.

(** X1.  Future masking, by key rank.  Whatever the applications, the
    granularity and today's date, as long as [pd.to_datetime] holds every
    date of the frame (before pandas 3.0: dates from 1677-09-22 to
    2262-04-11), [prepare_grouped] called as the page calls it (with
    today's year as [this_year]) returns a table, and in its current-year
    column every period key whose rank in the granularity's own
    key order is greater than the rank of today's key (a later month, a
    larger ISO week number, a larger [month*100+day]) holds no count: the
    cell is absent, never zero and never a computed count.  For months and
    days this rank is the chronological order within the year; for weeks it
    is the order of the ISO week numbers, which is not the order of time at
    the turn of an ISO year. *)
Theorem future_masking :
  forall (observed : bool) (df : list Application) (lv : level) (last_year : Z)
         (today : date),
    valid_apps df -> dates_in_bounds observed df -> valid_date today ->
    exists t,
      prepare_grouped observed df lv (year today) last_year today = Some t /\
      forall k, after_today lv today k -> cell t k (year today) = None.
Proof.
  intros obs df lv ly today Hv Hb Ht.
  rewrite (prepare_grouped_in_bounds obs df lv (year today) ly today Hb).
  unfold grouped_pivot.
  set (P := pivot lv (groupby_size obs lv (with_period lv (year today) ly df))).
  destruct (existsb (Z.eqb (year today)) (columns P)) eqn:Ecol.
  - destruct lv.
    + eexists. split; [reflexivity|]. intros k Hk.
      eapply masked_cell_None; [right; reflexivity|]. now apply month_mask.
    + destruct (sort_index_total obs W (year today) ly df
                  (set_nan (fun k => label_gtb k (isoweek today)) (year today) P) Hv)
        as [t' Ht']; [apply set_nan_index | discriminate |].
      exists t'. split; [exact Ht'|]. intros k Hk.
      eapply masked_cell_None; [left; exact Ht'|]. now apply week_mask.
    + match goal with |- context [set_nan ?m _ P] => set (mask := m) end.
      destruct (sort_index_total obs D (year today) ly df (set_nan mask (year today) P) Hv)
        as [t' Ht']; [apply set_nan_index | discriminate |].
      exists t'. split; [exact Ht'|]. intros k Hk.
      eapply masked_cell_None; [left; exact Ht'|]. now apply day_mask.
  - destruct lv.
    + eexists. split; [reflexivity|]. intros k _.
      eapply absent_column_cell; [right; reflexivity | exact Ecol].
    + destruct (sort_index_total obs W (year today) ly df P Hv) as [t' Ht'];
        [reflexivity | discriminate |].
      exists t'. split; [exact Ht'|]. intros k _.
      eapply absent_column_cell; [left; exact Ht' | exact Ecol].
    + destruct (sort_index_total obs D (year today) ly df P Hv) as [t' Ht'];
        [reflexivity | discriminate |].
      exists t'. split; [exact Ht'|]. intros k _.
      eapply absent_column_cell; [left; exact Ht' | exact Ecol].
Qed.

(** *** The order produced by [sort_index] *)

Lemma Zleb_total (a b : Z) : (a <=? b) = true \/ (b <=? a) = true.
Proof. rewrite !Z.leb_le. lia. Qed.

Lemma combine_keys {A B} (f : A -> option B) (g : list A) (ks : list B) :
  map_opt f g = Some ks ->
  forall k x, In (k, x) (combine ks g) -> f x = Some k.
Proof.
  revert ks. induction g as [|a g IH]; simpl; intros ks H k x Hin.
  - inversion H. subst. destruct Hin.
  - destruct (f a) as [b|] eqn:E; [|discriminate]. simpl in H.
    destruct (map_opt f g) as [bs|] eqn:E'; [|discriminate]. simpl in H.
    inversion H. subst ks. destruct Hin as [Hin|Hin].
    + inversion Hin. now subst.
    + eapply IH; eauto.
Qed.

Lemma map_opt_pairs {A B} (f : A -> option B) (l : list (B * A)) :
  (forall k x, In (k, x) l -> f x = Some k) ->
  map_opt f (map snd l) = Some (map fst l).
Proof.
  induction l as [|[k x] l IH]; simpl; intros H; auto.
  assert (E : f x = Some k) by (apply H; now left).
  rewrite E. simpl. rewrite IH; auto.
Qed.

Lemma Sorted_map_fst {A} (l : list (Z * A)) :
  Sorted (fun a b => (fst a <=? fst b) = true) l -> Sorted Z.le (map fst l).
Proof.
  induction 1 as [|a l Hs IH Hhd]; simpl; constructor; auto.
  destruct Hhd as [|b l Hab]; simpl; constructor. now apply Z.leb_le.
Qed.

Lemma sort_index_sorted (t t' : Pivot) :
  sort_index t = Some t' ->
  exists ks, map_opt sort_key (index t') = Some ks /\ Sorted Z.le ks.
Proof.
  unfold sort_index. destruct (map_opt sort_key (index t)) as [keys|] eqn:E; [|discriminate].
  simpl. intros H. inversion H. subst t'. clear H. unfold index at 1. simpl.
  set (sorted := sort_by (fun a b : Z * (label * list (option Z)) => fst a <=? fst b)
                         (combine keys (rows t))).
  exists (map fst sorted). split.
  - rewrite map_map.
    rewrite <- (map_map snd fst).
    assert (Hp : forall k x, In (k, x) (map (fun p => (fst p, fst (snd p))) sorted) ->
                             sort_key x = Some k).
    { intros k x Hin. apply in_map_iff in Hin. destruct Hin as ([k' r] & Hkr & Hin).
      simpl in Hkr. inversion Hkr. subst. unfold sorted in Hin.
      apply sort_by_In in Hin.
      assert (Hc : In (k, fst r) (combine keys (index t))).
      { unfold index. clear - Hin. revert keys Hin.
        induction (rows t) as [|r0 rs IH]; intros [|k0 ks] Hin; simpl in *; auto.
        destruct Hin as [Hin|Hin]; [left; now inversion Hin | right; now apply IH]. }
      eapply combine_keys; eauto. }
    apply map_opt_pairs in Hp. rewrite !map_map in Hp. simpl in Hp.
    rewrite map_map. exact Hp.
  - apply Sorted_map_fst. apply sort_by_sorted. intros a b. apply Zleb_total.
Qed.

Lemma sort_index_index (t t' : Pivot) :
  sort_index t = Some t' -> Permutation (index t') (index t).
Proof.
  intros H. apply sort_index_rows in H. destruct H as [_ H].
  unfold index. now apply Permutation_map.
Qed.

Lemma map_opt_ext_in {A B} (f g : A -> option B) (l : list A) :
  (forall x, In x l -> f x = g x) -> map_opt f l = map_opt g l.
Proof.
  induction l as [|x l IH]; simpl; intros H; auto.
  assert (E : f x = g x) by (apply H; now left).
  rewrite E, IH; auto.
Qed.

(** *** The month table has the twelve months, in calendar order *)

Lemma uniq_blocks (ys : list Z) (ks : list label) :
  uniq label_eqb (flat_map (fun k => k :: map (fun _ => k) ys) ks) = uniq label_eqb ks.
Proof.
  induction ks as [|k ks IH]; auto.
  cbn [flat_map]. rewrite <- app_comm_cons.
  rewrite (uniq_repeat_head label_eqb label_eqb_eq).
  - simpl. now rewrite IH.
  - intros x Hx. apply in_map_iff in Hx. now destruct Hx as (_ & <- & _).
Qed.

Lemma pivot_index (lv : level) (g : list (label * Z * Z)) :
  index (pivot lv g)
  = sort_by (label_leb lv) (uniq label_eqb (map (fun r => fst (fst r)) g)).
Proof.
  unfold index, pivot. cbn [rows]. rewrite map_map. cbn [fst]. apply map_id.
Qed.

Lemma month_index (df : list Row) :
  index (pivot M (groupby_size false M df))
  = match df with [] => [] | _ => map LStr month_abbrs end.
Proof.
  rewrite pivot_index.
  unfold groupby_size. cbn [all_categories negb].
  set (years := sort_by Z.leb (uniq Z.eqb (map row_year df))).
  assert (Hmap : map (fun r : label * Z * Z => fst (fst r))
                   (flat_map (fun k => map (fun y => (k, y, group_size df k y)) years)
                             (map LStr month_abbrs))
                 = flat_map (fun k => map (fun _ => k) years) (map LStr month_abbrs)).
  { induction (map LStr month_abbrs) as [|k ks IH]; auto.
    cbn [flat_map]. rewrite map_app, IH, map_map. reflexivity. }
  rewrite Hmap. destruct df as [|r df].
  - reflexivity.
  - assert (Hy : In (row_year r) years).
    { unfold years. apply sort_by_In. apply (uniq_In Z.eqb Z.eqb_eq). now left. }
    destruct years as [|y0 ys]; [destruct Hy|].
    cbn [map]. 
    change (flat_map (fun k : label => k :: map (fun _ : Z => k) ys)
              (LStr "Jan" :: LStr "Feb" :: LStr "Mar" :: LStr "Apr" :: LStr "May"
               :: LStr "Jun" :: LStr "Jul" :: LStr "Aug" :: LStr "Sep" :: LStr "Oct"
               :: LStr "Nov" :: [LStr "Dec"]))
      with (flat_map (fun k : label => k :: map (fun _ : Z => k) ys) (map LStr month_abbrs)).
    rewrite uniq_blocks. reflexivity.
Qed.

(** *** Cells of the table before masking *)

Lemma lookup_group_Some (g : list (label * Z * Z)) (k : label) (y n : Z) :
  lookup_group g k y = Some n -> In (k, y, n) g.
Proof.
  unfold lookup_group. destruct (find _ g) as [[[k' y'] n']|] eqn:E; [|discriminate].
  simpl. intros H. inversion H. subst n'. apply find_some in E.
  destruct E as [Hin Hp]. simpl in Hp. apply andb_true_iff in Hp.
  destruct Hp as [Hk Hy]. apply label_eqb_eq in Hk. apply Z.eqb_eq in Hy. now subst.
Qed.

Lemma lookup_group_None (g : list (label * Z * Z)) (k : label) (y : Z) :
  lookup_group g k y = None -> forall n, ~ In (k, y, n) g.
Proof.
  unfold lookup_group. destruct (find _ g) as [r|] eqn:E; [discriminate|].
  intros _ n Hin. apply (find_none _ _ E) in Hin. simpl in Hin.
  now rewrite label_eqb_refl, Z.eqb_refl in Hin.
Qed.

Lemma find_label (f : label -> list (option Z)) (idx : list label) (k : label) :
  find (fun r => label_eqb (fst r) k) (map (fun k => (k, f k)) idx)
  = if label_in k idx then Some (k, f k) else None.
Proof.
  induction idx as [|a idx IH]; auto. cbn [map find fst].
  unfold label_in. cbn [existsb].
  destruct (label_eqb a k) eqn:E.
  - apply label_eqb_eq in E. subst a. now rewrite label_eqb_refl.
  - assert (E' : label_eqb k a = false).
    { destruct (label_eqb k a) eqn:E'; auto. apply label_eqb_eq in E'. subst.
      now rewrite label_eqb_refl in E. }
    rewrite E'. exact IH.
Qed.

(** A cell of the pivot is the size recorded for its (period, year) group. *)
Lemma cell_pivot (lv : level) (g : list (label * Z * Z)) (k : label) (y : Z) :
  cell (pivot lv g) k y = lookup_group g k y.
Proof.
  unfold cell. cbn [rows columns pivot].
  set (cols := sort_by Z.leb (uniq Z.eqb (map (fun r : label * Z * Z => snd (fst r)) g))).
  set (idx := sort_by (label_leb lv)
                (uniq label_eqb (map (fun r : label * Z * Z => fst (fst r)) g))).
  rewrite (find_label (fun k => map (lookup_group g k) cols) idx k).
  assert (Hidx : forall n, In (k, y, n) g -> label_in k idx = true).
  { intros n Hin. apply label_in_In. unfold idx.
    apply sort_by_In, (uniq_In label_eqb label_eqb_eq), in_map_iff.
    now exists (k, y, n). }
  assert (Hcols : forall n, In (k, y, n) g -> In y cols).
  { intros n Hin. unfold cols.
    apply sort_by_In, (uniq_In Z.eqb Z.eqb_eq), in_map_iff.
    now exists (k, y, n). }
  assert (Habsent : (label_in k idx = false \/ index_of y cols = None) ->
                    lookup_group g k y = None).
  { intros H. destruct (lookup_group g k y) as [n|] eqn:El; auto.
    apply lookup_group_Some in El. destruct H as [H|H].
    - rewrite (Hidx n El) in H. discriminate.
    - apply index_of_None in H. exfalso. apply H. eapply Hcols; eauto. }
  destruct (label_in k idx) eqn:Ek; [|symmetry; apply Habsent; now left].
  destruct (index_of y cols) as [j|] eqn:Ej; [|symmetry; apply Habsent; now right].
  cbn [snd]. apply index_of_nth in Ej.
  assert (Hn : nth_error (map (lookup_group g k) cols) j = Some (lookup_group g k y))
    by (rewrite nth_error_map, Ej; reflexivity).
  now rewrite (nth_error_nth _ _ _ Hn).
Qed.

Lemma lookup_groupby (obs : bool) (lv : level) (df : list Row) (k : label) (y : Z) :
  lookup_group (groupby_size obs lv df) k y =
  if all_categories obs lv
  then if label_in k (map LStr month_abbrs) && existsb (Z.eqb y) (map row_year df)
       then Some (group_size df k y) else None
  else if 0 <? group_size df k y then Some (group_size df k y) else None.
Proof.
  assert (Hpos : 0 < group_size df k y ->
                 In y (map row_year df) /\ In k (map row_period df)).
  { unfold group_size. intros H.
    destruct (filter (fun r => label_eqb (row_period r) k && (row_year r =? y)) df)
      as [|r rs] eqn:E; [simpl in H; lia|].
    assert (Hin : In r (filter (fun r => label_eqb (row_period r) k && (row_year r =? y)) df))
      by (rewrite E; now left).
    apply filter_In in Hin. destruct Hin as [Hin Hp]. apply andb_true_iff in Hp.
    destruct Hp as [Hk Hy]. apply label_eqb_eq in Hk. apply Z.eqb_eq in Hy.
    split; apply in_map_iff; exists r; auto. }
  destruct (lookup_group (groupby_size obs lv df) k y) as [n|] eqn:El.
  - apply lookup_group_Some in El. apply groupby_size_In in El.
    destruct El as (Hy & -> & Hk). destruct (all_categories obs lv).
    + apply label_in_In in Hk. apply existsb_Zeqb in Hy. now rewrite Hk, Hy.
    + destruct Hk as [_ Hn]. apply Z.ltb_lt in Hn. now rewrite Hn.
  - pose proof (lookup_group_None _ _ _ El (group_size df k y)) as Hn.
    rewrite groupby_size_In in Hn. destruct (all_categories obs lv).
    + destruct (label_in k (map LStr month_abbrs)) eqn:Ek; auto.
      destruct (existsb (Z.eqb y) (map row_year df)) eqn:Ey; auto.
      exfalso. apply Hn. apply label_in_In in Ek. apply existsb_Zeqb in Ey. auto.
    + destruct (0 <? group_size df k y) eqn:E; auto. apply Z.ltb_lt in E.
      exfalso. apply Hn. destruct (Hpos E). auto.
Qed.

(** The rows grouped under (k, y) are the applications of that period and
    year, provided [y] is one of the two years of the table. *)
Lemma group_size_matching (lv : level) (ty ly : Z) (df : list Application)
    (k : label) (y : Z) :
  group_size (with_period lv ty ly df) k y =
  if existsb (Z.eqb y) [ty; ly]
  then Z.of_nat (List.length (matching_events df lv k y)) else 0.
Proof.
  unfold group_size, matching_events.
  assert (H : List.length (filter (fun r => label_eqb (row_period r) k && (row_year r =? y))
                                  (with_period lv ty ly df))
              = if existsb (Z.eqb y) [ty; ly]
                then List.length (filter (fun a =>
                       match application_date a with
                       | Some d => (year d =? y) && label_eqb (period_of lv d) k
                       | None => false
                       end) df)
                else 0%nat).
  { induction df as [|a df IH].
    - simpl. now destruct (_ || _).
    - cbn [with_period flat_map filter]. fold (with_period lv ty ly df).
      rewrite filter_app, length_app, IH. clear IH.
      destruct (application_date a) as [d|]; [|now destruct (existsb _ _)].
      destruct (existsb (Z.eqb (year d)) [ty; ly]) eqn:Ed.
      + cbn [filter row_period row_year].
        destruct (year d =? y) eqn:Ey.
        * apply Z.eqb_eq in Ey. subst y. rewrite Ed, andb_true_r. cbn [andb].
          now destruct (label_eqb (period_of lv d) k).
        * rewrite andb_false_r. cbn [andb List.length]. now destruct (existsb _ _).
      + cbn [filter List.length].
        destruct (year d =? y) eqn:Ey.
        * apply Z.eqb_eq in Ey. subst y. now rewrite Ed.
        * cbn [andb]. now destruct (existsb _ _). }
  rewrite H. now destruct (existsb _ _).
Qed.

(* ================================================================== *)
(** ** Doubles: the shape of a rounded quotient or product *)
(* ================================================================== *)

Lemma Zdigits2_log2 (m : Z) : 0 < m -> Zdigits2 m = Z.log2 m + 1.
Proof.
  destruct m as [|p|p]; try lia. intros _. simpl.
  assert (H : forall q, Zpos (digits2_pos q) = Zpos (Pos.size q)).
  { induction q; simpl; auto; rewrite !Pos2Z.inj_succ; now rewrite IHq. }
  rewrite H. destruct p; simpl; lia.
Qed.

Lemma Zdigits2_bounds (m : Z) :
  0 < m -> 2 ^ (Zdigits2 m - 1) <= m < 2 ^ Zdigits2 m.
Proof.
  intros Hm. rewrite Zdigits2_log2 by assumption.
  replace (Z.log2 m + 1 - 1) with (Z.log2 m) by lia.
  replace (Z.log2 m + 1) with (Z.succ (Z.log2 m)) by lia.
  now apply Z.log2_spec.
Qed.

Lemma shr_1_m (mrs : shr_record) :
  0 <= shr_m mrs -> shr_m (shr_1 mrs) = Z.div2 (shr_m mrs).
Proof.
  destruct mrs as [m r s]. simpl. destruct m as [|[p|p|]|p]; simpl; auto; lia.
Qed.

Lemma iter_pos_shr_1_m (p : positive) :
  forall mrs, 0 <= shr_m mrs ->
    shr_m (iter_pos shr_1 p mrs) = Z.shiftr (shr_m mrs) (Zpos p).
Proof.
  induction p as [p IH|p IH|]; intros mrs Hm; simpl iter_pos.
  - assert (H1 : 0 <= shr_m (shr_1 mrs))
      by (rewrite shr_1_m by assumption; rewrite Z.div2_div; apply Z.div_pos; lia).
    assert (H2 : 0 <= shr_m (iter_pos shr_1 p (shr_1 mrs)))
      by (rewrite IH by assumption; apply Z.shiftr_nonneg; assumption).
    rewrite IH, IH, shr_1_m by assumption.
    rewrite Z.div2_spec, !Z.shiftr_shiftr by lia. f_equal. lia.
  - assert (H2 : 0 <= shr_m (iter_pos shr_1 p mrs))
      by (rewrite IH by assumption; apply Z.shiftr_nonneg; assumption).
    rewrite IH, IH by assumption.
    rewrite !Z.shiftr_shiftr by lia. f_equal. lia.
  - rewrite shr_1_m by assumption. now rewrite Z.div2_spec.
Qed.

Lemma shiftr_digits (m n : Z) :
  0 < m -> 0 <= n < Zdigits2 m ->
  0 < Z.shiftr m n /\ Zdigits2 (Z.shiftr m n) = Zdigits2 m - n.
Proof.
  intros Hm Hn. rewrite Zdigits2_log2 in Hn by assumption.
  assert (Hpos : 0 < Z.shiftr m n).
  { rewrite Z.shiftr_div_pow2 by lia.
    apply Z.div_str_pos. split; [apply Z.pow_pos_nonneg; lia|].
    transitivity (2 ^ Z.log2 m).
    - apply Z.pow_le_mono_r; lia.
    - apply Z.log2_spec; assumption. }
  split; auto.
  rewrite !Zdigits2_log2 by assumption.
  rewrite Z.log2_shiftr by assumption. lia.
Qed.

Lemma fexp_eq x : fexp prec emax x = fexp64 x.
Proof. reflexivity. Qed.

Lemma shr_fexp_pos (m e : Z) (l : SpecFloat.location) :
  0 < m -> -1074 < Zdigits2 m + e ->
  exists mrs e',
    shr_fexp prec emax m e l = (mrs, e') /\
    0 < shr_m mrs /\
    Zdigits2 (shr_m mrs) + e' = Zdigits2 m + e /\
    e' = Z.max e (fexp64 (Zdigits2 m + e)).
Proof.
  intros Hm HS. unfold shr_fexp. rewrite fexp_eq.
  assert (Hrec : shr_m (shr_record_of_loc m l) = m) by (destruct l as [|[]]; reflexivity).
  assert (Hd : 0 < Zdigits2 m) by (rewrite Zdigits2_log2 by assumption; pose proof (Z.log2_nonneg m); lia).
  unfold shr.
  destruct (fexp64 (Zdigits2 m + e) - e) as [|p|p] eqn:En.
  - eexists _, _. split; [reflexivity|]. rewrite Hrec. repeat split; auto. unfold fexp64 in *. lia.
  - eexists _, _. split; [reflexivity|].
    rewrite iter_pos_shr_1_m by (rewrite Hrec; lia). rewrite Hrec.
    assert (Hn : 0 <= Zpos p < Zdigits2 m) by (unfold fexp64 in En; lia).
    destruct (shiftr_digits m (Zpos p) Hm Hn) as [H1 H2].
    repeat split; auto.
    + rewrite H2. lia.
    + unfold fexp64 in *. lia.
  - eexists _, _. split; [reflexivity|]. rewrite Hrec. repeat split; auto. unfold fexp64 in *. lia.
Qed.

Lemma round_nearest_even_bounds (m : Z) (l : SpecFloat.location) :
  m <= round_nearest_even m l <= m + 1.
Proof.
  unfold round_nearest_even. destruct l as [|[]]; try lia. destruct (Z.even m); lia.
Qed.

Lemma Zdigits2_succ (m r : Z) :
  0 < m -> m <= r <= m + 1 -> Zdigits2 m <= Zdigits2 r <= Zdigits2 m + 1.
Proof.
  intros Hm Hr. rewrite !Zdigits2_log2 by lia.
  assert (Z.log2 m <= Z.log2 r) by (apply Z.log2_le_mono; lia).
  assert (Z.log2 r <= Z.log2 (Z.succ m)) by (apply Z.log2_le_mono; lia).
  pose proof (Z.log2_succ_le m). lia.
Qed.

(** The shape of a rounded result: the sign is kept, the magnitude
    [digits + exponent] grows by at most one, and the result is finite unless
    the magnitude leaves the double range. *)
Lemma binary_round_aux_pos (s : bool) (m e : Z) (l : SpecFloat.location) :
  0 < m -> -1074 < Zdigits2 m + e ->
  (exists m' e',
      binary_round_aux prec emax s m e l = S754_finite s m' e' /\
      Zdigits2 m + e <= Zdigits2 (Zpos m') + e' <= Zdigits2 m + e + 1 /\
      e' <= Z.max e (fexp64 (Zdigits2 m + e + 1)))
  \/ (binary_round_aux prec emax s m e l = S754_infinity s /\
      971 < Z.max e (fexp64 (Zdigits2 m + e + 1))).
Proof.
  intros Hm HS. unfold binary_round_aux.
  destruct (shr_fexp_pos m e l Hm HS) as (mrs1 & e1 & E1 & Hp1 & Hd1 & He1).
  rewrite E1.
  set (m2 := round_nearest_even (shr_m mrs1) (loc_of_shr_record mrs1)).
  pose proof (round_nearest_even_bounds (shr_m mrs1) (loc_of_shr_record mrs1)) as Hb.
  fold m2 in Hb.
  pose proof (Zdigits2_succ (shr_m mrs1) m2 Hp1 Hb) as Hd2.
  assert (Hm2 : 0 < m2) by lia.
  assert (HS2 : -1074 < Zdigits2 m2 + e1) by lia.
  destruct (shr_fexp_pos m2 e1 loc_Exact Hm2 HS2) as (mrs3 & e3 & E3 & Hp3 & Hd3 & He3).
  rewrite E3.
  destruct (shr_m mrs3) as [|m3|m3] eqn:Em3; try lia.
  assert (Hle : e3 <= Z.max e (fexp64 (Zdigits2 m + e + 1))) by (unfold fexp64 in *; lia).
  change (emax - prec) with 971.
  destruct (e3 <=? 971) eqn:Ee.
  - left. exists m3, e3. repeat split; auto; lia.
  - right. apply Z.leb_gt in Ee. split; auto. lia.
Qed.

Lemma Zdigits2_pos (m : Z) : 0 < m -> 0 < Zdigits2 m.
Proof.
  intros Hm. rewrite Zdigits2_log2 by assumption. pose proof (Z.log2_nonneg m). lia.
Qed.

Lemma Zdigits2_between (q k : Z) :
  0 <= k -> 2 ^ k <= q < 2 ^ (k + 2) -> k + 1 <= Zdigits2 q <= k + 2.
Proof.
  intros Hk [H1 H2].
  assert (Hq : 0 < q) by (pose proof (Z.pow_pos_nonneg 2 k); lia).
  rewrite Zdigits2_log2 by assumption.
  assert (k <= Z.log2 q) by (apply Z.log2_le_pow2; assumption).
  assert (Z.log2 q < k + 2) by (apply Z.log2_lt_pow2; assumption).
  lia.
Qed.

Lemma shiftl_case (A s : Z) :
  0 <= s ->
  match s with Z.pos _ => Z.shiftl A s | 0 => A | Z.neg _ => 0 end = A * 2 ^ s.
Proof.
  intros Hs. destruct s as [|p|p]; try lia.
  rewrite Z.shiftl_mul_pow2; lia.
Qed.

Lemma quotient_bounds (A B q P1 P2 Ps K : Z) :
  P1 <= A < 2 * P1 -> P2 <= B < 2 * P2 ->
  0 < P1 -> 0 < P2 -> 0 < Ps -> 0 < K ->
  P1 * Ps = K * (2 * P2) ->
  B * q <= A * Ps < B * Z.succ q ->
  K <= q < 4 * K.
Proof.
  intros HA HB HP1 HP2 HPs HK Hpow [Hlo Hhi]. split.
  - assert (K * B < B * Z.succ q); [|nia].
    assert (K * B < K * (2 * P2)) by nia.
    assert (P1 * Ps <= A * Ps) by nia. lia.
  - assert (B * q < 4 * K * B); [|nia].
    assert (A * Ps < 2 * P1 * Ps) by nia.
    assert (4 * K * P2 <= 4 * K * B) by nia. lia.
Qed.

Lemma div_core_pos (A B : Z) :
  0 < A -> 0 < B -> Zdigits2 B - Zdigits2 A <= 1021 ->
  exists q e l,
    SFdiv_core_binary prec emax A 0 B 0 = (q, e, l) /\
    0 < q /\ e <= 0 /\
    Zdigits2 A - Zdigits2 B <= Zdigits2 q + e <= Zdigits2 A - Zdigits2 B + 1.
Proof.
  intros HA HB Hd. unfold SFdiv_core_binary.
  rewrite !Z.add_0_r, fexp_eq. change (0 - 0) with 0.
  pose proof (Zdigits2_pos A HA) as Hd1. pose proof (Zdigits2_pos B HB) as Hd2.
  pose proof (Zdigits2_bounds A HA) as HbA. pose proof (Zdigits2_bounds B HB) as HbB.
  set (d1 := Zdigits2 A) in *. set (d2 := Zdigits2 B) in *.
  set (e' := Z.min (fexp64 (d1 - d2)) 0).
  set (s := 0 - e').
  assert (Hs : 0 <= s) by (unfold s, e'; lia).
  assert (Hk : 0 <= d1 - 1 + s - d2) by (unfold s, e', fexp64; lia).
  set (m' := match s with Z.pos _ => Z.shiftl A s | 0 => A | Z.neg _ => 0 end).
  assert (Hm' : m' = A * 2 ^ s).
  { unfold m'. now apply shiftl_case. }
  destruct (Z.div_eucl m' B) as [q r] eqn:Ediv.
  exists q, e', (new_location B r). split; [reflexivity|].
  assert (Hq : q = m' / B) by (unfold Z.div; now rewrite Ediv).
  set (k := d1 - 1 + s - d2) in *.
  assert (Hpow : 2 ^ (d1 - 1) * 2 ^ s = 2 ^ k * (2 * 2 ^ (d2 - 1))).
  { rewrite <- Z.pow_add_r by lia. rewrite <- Z.pow_succ_r by lia.
    rewrite <- Z.pow_add_r by lia. f_equal. unfold k. lia. }
  assert (H2d1 : 2 ^ d1 = 2 * 2 ^ (d1 - 1))
    by (rewrite <- Z.pow_succ_r by lia; f_equal; lia).
  assert (H2d2 : 2 ^ d2 = 2 * 2 ^ (d2 - 1))
    by (rewrite <- Z.pow_succ_r by lia; f_equal; lia).
  assert (H4k : 2 ^ (k + 2) = 4 * 2 ^ k)
    by (rewrite Z.pow_add_r by lia; change (2 ^ 2) with 4; lia).
  assert (HK : 0 < 2 ^ k) by (apply Z.pow_pos_nonneg; lia).
  assert (HPs : 0 < 2 ^ s) by (apply Z.pow_pos_nonneg; lia).
  assert (HP1 : 0 < 2 ^ (d1 - 1)) by (apply Z.pow_pos_nonneg; lia).
  assert (HP2 : 0 < 2 ^ (d2 - 1)) by (apply Z.pow_pos_nonneg; lia).
  assert (Hlo : B * q <= m') by (rewrite Hq; apply Z.mul_div_le; lia).
  assert (Hhi : m' < B * Z.succ q) by (rewrite Hq; apply Z.mul_succ_div_gt; lia).
  assert (Hbnd : 2 ^ k <= q < 2 ^ (k + 2)).
  { rewrite H4k. rewrite H2d1 in HbA. rewrite H2d2 in HbB. rewrite Hm' in Hlo, Hhi.
    apply (quotient_bounds A B q (2 ^ (d1 - 1)) (2 ^ (d2 - 1)) (2 ^ s) (2 ^ k)); auto. }
  pose proof (Zdigits2_between q k Hk Hbnd) as Hdq.
  assert (0 < q) by lia.
  repeat split; auto; unfold e', s, k in *; try lia.
Qed.

Lemma Zdigits2_le_pow2 (m n : Z) : 0 < m -> 0 <= n -> m < 2 ^ n -> Zdigits2 m <= n.
Proof.
  intros Hm Hn H. rewrite Zdigits2_log2 by assumption.
  assert (Z.log2 m < n) by (apply Z.log2_lt_pow2; assumption). lia.
Qed.

(** The quotient of two non-zero ints of moderate size is a finite,
    non-zero double carrying the sign of the exact quotient. *)
Lemma int_truediv_finite (a b : Z) :
  a <> 0 -> b <> 0 -> Z.abs a < 2 ^ 1023 -> Z.abs b < 2 ^ 1000 ->
  exists m e,
    int_truediv a b = Some (S754_finite (xorb (a <? 0) (b <? 0)) m e) /\
    -1000 <= Zdigits2 (Zpos m) + e <= Zdigits2 (Z.abs a) + 1 /\
    e <= Z.max 0 (Zdigits2 (Z.abs a) - 52).
Proof.
  intros Ha Hb Habs Hbbs. unfold int_truediv.
  destruct (b =? 0) eqn:Eb; [apply Z.eqb_eq in Eb; contradiction|].
  destruct (a =? 0) eqn:Ea; [apply Z.eqb_eq in Ea; contradiction|].
  assert (HA : 0 < Z.abs a) by lia. assert (HB : 0 < Z.abs b) by lia.
  pose proof (Zdigits2_pos _ HA) as Hd1. pose proof (Zdigits2_pos _ HB) as Hd2.
  pose proof (Zdigits2_le_pow2 _ 1023 HA ltac:(lia) Habs) as Hu1.
  pose proof (Zdigits2_le_pow2 _ 1000 HB ltac:(lia) Hbbs) as Hu2.
  destruct (div_core_pos (Z.abs a) (Z.abs b) HA HB ltac:(lia)) as (q & e & l & E & Hq & He & HS).
  rewrite E.
  destruct (binary_round_aux_pos (xorb (a <? 0) (b <? 0)) q e l Hq ltac:(lia))
    as [(m' & e' & Er & HS' & He') | [Er Hover]].
  - rewrite Er. exists m', e'. split; [reflexivity|]. unfold fexp64 in He'. lia.
  - exfalso. unfold fexp64 in Hover. lia.
Qed.

Lemma Zdigits2_mul (x y : Z) :
  0 < x -> 0 < y ->
  Zdigits2 x + Zdigits2 y - 1 <= Zdigits2 (x * y) <= Zdigits2 x + Zdigits2 y.
Proof.
  intros Hx Hy.
  pose proof (Zdigits2_bounds x Hx) as Bx. pose proof (Zdigits2_bounds y Hy) as By.
  pose proof (Zdigits2_pos x Hx) as Px. pose proof (Zdigits2_pos y Hy) as Py.
  set (dx := Zdigits2 x) in *. set (dy := Zdigits2 y) in *.
  assert (H1 : 2 ^ (dx + dy - 2) <= x * y).
  { replace (dx + dy - 2) with ((dx - 1) + (dy - 1)) by lia.
    rewrite Z.pow_add_r by lia.
    pose proof (Z.pow_pos_nonneg 2 (dx - 1) ltac:(lia) ltac:(lia)).
    pose proof (Z.pow_pos_nonneg 2 (dy - 1) ltac:(lia) ltac:(lia)). nia. }
  assert (H2 : x * y < 2 ^ (dx + dy)).
  { rewrite Z.pow_add_r by lia. nia. }
  assert (Hxy : 0 < x * y) by nia.
  rewrite Zdigits2_log2 by assumption.
  assert (dx + dy - 2 <= Z.log2 (x * y)) by (apply Z.log2_le_pow2; assumption).
  assert (Z.log2 (x * y) < dx + dy) by (apply Z.log2_lt_pow2; try assumption; lia).
  lia.
Qed.

Lemma float_of_int_days (c : Z) :
  28 <= c <= 31 ->
  exists k, float_of_int c = Some (S754_finite false k (-48))
            /\ Zdigits2 (Zpos k) = 53.
Proof.
  intros Hc.
  assert (H : c = 28 \/ c = 29 \/ c = 30 \/ c = 31) by lia.
  destruct H as [-> | [-> | [-> | ->]]]; eexists; split; reflexivity.
Qed.

(** *** The value of a rounded quotient or product *)

Lemma shr_fexp_value (m e : Z) (l : SpecFloat.location) :
  0 < m -> -1074 < Zdigits2 m + e ->
  exists mrs e',
    shr_fexp prec emax m e l = (mrs, e') /\
    0 < shr_m mrs /\
    Zdigits2 (shr_m mrs) + e' = Zdigits2 m + e /\
    e' = Z.max e (fexp64 (Zdigits2 m + e)) /\
    shr_m mrs = m / 2 ^ (e' - e).
Proof.
  intros Hm HS. unfold shr_fexp. rewrite fexp_eq.
  assert (Hrec : shr_m (shr_record_of_loc m l) = m) by (destruct l as [|[]]; reflexivity).
  pose proof (Zdigits2_pos m Hm) as Hd.
  unfold shr.
  destruct (fexp64 (Zdigits2 m + e) - e) as [|p|p] eqn:En.
  - eexists _, _. split; [reflexivity|]. rewrite Hrec.
    assert (E : Z.max e (fexp64 (Zdigits2 m + e)) = e) by lia.
    rewrite E, Z.sub_diag, Z.div_1_r. repeat split; auto.
  - eexists _, _. split; [reflexivity|].
    rewrite iter_pos_shr_1_m by (rewrite Hrec; lia). rewrite Hrec.
    assert (Hn : 0 <= Zpos p < Zdigits2 m) by (unfold fexp64 in En; lia).
    destruct (shiftr_digits m (Zpos p) Hm Hn) as [H1 H2].
    assert (E : Z.max e (fexp64 (Zdigits2 m + e)) = e + Zpos p) by lia.
    rewrite E. replace (e + Zpos p - e) with (Zpos p) by lia.
    repeat split; auto.
    + rewrite H2. lia.
    + apply Z.shiftr_div_pow2. lia.
  - eexists _, _. split; [reflexivity|]. rewrite Hrec.
    assert (E : Z.max e (fexp64 (Zdigits2 m + e)) = e) by lia.
    rewrite E, Z.sub_diag, Z.div_1_r. repeat split; auto.
Qed.

Lemma div_pow2_bounds (m k : Z) :
  0 <= m -> 0 <= k -> (m / 2 ^ k) * 2 ^ k <= m < (m / 2 ^ k + 1) * 2 ^ k.
Proof.
  intros Hm Hk. pose proof (Z.pow_pos_nonneg 2 k ltac:(lia) Hk) as Hp.
  pose proof (Z.div_mod m (2 ^ k) ltac:(lia)) as Hdm.
  pose proof (Z.mod_pos_bound m (2 ^ k) Hp) as Hmod. nia.
Qed.

(** Rounding a mantissa of at least 53 bits, in the normal range: the result
    has 53 bits and lies within two units in the last place. *)
Lemma binary_round_aux_value (s : bool) (m e : Z) (l : SpecFloat.location) :
  0 < m -> 53 <= Zdigits2 m ->
  -1021 <= Zdigits2 m + e <= 1023 ->
  exists m' e',
    binary_round_aux prec emax s m e l = S754_finite s m' e' /\
    Zdigits2 (Zpos m') = 53 /\
    Zdigits2 m + e - 53 <= e' <= Zdigits2 m + e - 52 /\
    (Zpos m' - 1) * 2 ^ (e' - e) <= m < (Zpos m' + 2) * 2 ^ (e' - e).
Proof.
  intros Hm Hd HS. unfold binary_round_aux.
  destruct (shr_fexp_value m e l Hm ltac:(lia)) as (mrs1 & e1 & E1 & Hp1 & Hd1 & He1 & Hv1).
  rewrite E1.
  set (m1 := shr_m mrs1) in *.
  set (m2 := round_nearest_even m1 (loc_of_shr_record mrs1)).
  pose proof (round_nearest_even_bounds m1 (loc_of_shr_record mrs1)) as Hb.
  fold m2 in Hb.
  pose proof (Zdigits2_succ m1 m2 Hp1 Hb) as Hd2.
  assert (Hm2 : 0 < m2) by lia.
  assert (He1' : e1 = Zdigits2 m + e - 53) by (unfold fexp64 in He1; lia).
  assert (Hdm1 : Zdigits2 m1 = 53) by lia.
  destruct (shr_fexp_value m2 e1 loc_Exact Hm2 ltac:(lia))
    as (mrs3 & e3 & E3 & Hp3 & Hd3 & He3 & Hv3).
  rewrite E3.
  destruct (shr_m mrs3) as [|m3|m3] eqn:Em3; try lia.
  assert (He3' : e3 = e1 + (Zdigits2 m2 - 53)) by (unfold fexp64 in He3; lia).
  change (emax - prec) with 971.
  replace (e3 <=? 971) with true by (symmetry; apply Z.leb_le; lia).
  exists m3, e3. split; [reflexivity|].
  split; [lia|]. split; [lia|].
  set (k1 := e1 - e) in *. set (k2 := e3 - e1) in *.
  assert (Hk1 : 0 <= k1) by (unfold k1; lia).
  assert (Hk2 : 0 <= k2) by (unfold k2; lia).
  replace (e3 - e) with (k1 + k2) by (unfold k1, k2; lia).
  rewrite Z.pow_add_r by lia.
  pose proof (div_pow2_bounds m k1 ltac:(lia) Hk1) as B1.
  pose proof (div_pow2_bounds m2 k2 ltac:(lia) Hk2) as B2.
  rewrite <- Hv1 in B1. rewrite <- Hv3 in B2.
  pose proof (Z.pow_pos_nonneg 2 k1 ltac:(lia) Hk1) as P1.
  pose proof (Z.pow_pos_nonneg 2 k2 ltac:(lia) Hk2) as P2.
  set (T1 := 2 ^ k1) in *. set (T2 := 2 ^ k2) in *.
  clearbody T1 T2 m1 m2. split.
  - (* (m3 - 1) T1 T2 <= (m3 T2 - 1) T1 <= (m2 - 1) T1 <= m1 T1 <= m *)
    assert ((Zpos m3 - 1) * T2 <= m2 - 1) by nia.
    assert ((m2 - 1) * T1 <= m) by nia. nia.
  - assert (m2 + 1 <= (Zpos m3 + 2) * T2) by nia.
    assert (m < (m2 + 1) * T1) by nia. nia.
Qed.

(** *** Relative distance, and the value of a quotient scaled by an int *)

Lemma near_refl (n X : Z) : 0 <= X -> near n X X.
Proof. intros H. unfold near. rewrite Z.sub_diag. cbn. lia. Qed.

Lemma near_scale (n k X Y : Z) : 0 <= k -> near n X Y -> near n (k * X) (k * Y).
Proof.
  unfold near. intros Hk H.
  rewrite <- Z.mul_sub_distr_l, Z.abs_mul, (Z.abs_eq k) by assumption.
  replace (2 ^ n * (k * Z.abs (X - Y))) with (k * (2 ^ n * Z.abs (X - Y))) by ring.
  now apply Z.mul_le_mono_nonneg_l.
Qed.

Lemma near_weaken (m n X Y : Z) : 0 <= m <= n -> near n X Y -> near m X Y.
Proof.
  unfold near. intros Hm H.
  assert (2 ^ m <= 2 ^ n) by (apply Z.pow_le_mono_r; lia).
  pose proof (Z.abs_nonneg (X - Y)). nia.
Qed.

Lemma near_step (m S T : Z) :
  2 ^ 52 <= m -> 0 < S -> (m - 1) * S <= T < (m + 2) * S -> near 51 (m * S) T.
Proof.
  unfold near. intros Hm HS [H1 H2].
  change (2 ^ 52) with (2 * 2 ^ 51) in Hm.
  set (p := 2 ^ 51) in *. assert (Hp : 0 < p) by (unfold p; lia). clearbody p.
  assert (Z.abs (m * S - T) <= 2 * S) by lia.
  nia.
Qed.

Lemma Zdigits2_53 (m : Z) : Zdigits2 m = 53 -> 0 < m -> 2 ^ 52 <= m < 2 ^ 53.
Proof.
  intros Hd Hm. pose proof (Zdigits2_bounds m Hm) as H. rewrite Hd in H. exact H.
Qed.

Lemma Zdigits2_shift (m w : Z) :
  0 < m -> 0 <= w -> Zdigits2 (m * 2 ^ w) = Zdigits2 m + w.
Proof.
  intros Hm Hw.
  pose proof (Z.pow_pos_nonneg 2 w ltac:(lia) Hw).
  rewrite !Zdigits2_log2 by nia. rewrite Z.log2_mul_pow2 by lia. lia.
Qed.

(** The integer quotient that a division hands to the rounding: at least
    53 bits of [A 2^e1 / (B 2^e2)]. *)
Lemma div_core_value (A B e1 e2 : Z) :
  0 < A -> 0 < B -> -1021 <= Zdigits2 A + e1 - (Zdigits2 B + e2) ->
  exists q s l,
    SFdiv_core_binary prec emax A e1 B e2 = (q, e1 - e2 - s, l) /\
    s = Z.max (53 - Zdigits2 A + Zdigits2 B) 0 /\ 0 < q /\ 53 <= Zdigits2 q /\
    Zdigits2 A - Zdigits2 B <= Zdigits2 q - s <= Zdigits2 A - Zdigits2 B + 1 /\
    B * q <= A * 2 ^ s < B * (q + 1).
Proof.
  intros HA HB Hd. unfold SFdiv_core_binary. rewrite fexp_eq.
  pose proof (Zdigits2_pos A HA) as Hd1. pose proof (Zdigits2_pos B HB) as Hd2.
  pose proof (Zdigits2_bounds A HA) as HbA. pose proof (Zdigits2_bounds B HB) as HbB.
  set (d1 := Zdigits2 A) in *. set (d2 := Zdigits2 B) in *.
  set (e' := Z.min (fexp64 (d1 + e1 - (d2 + e2))) (e1 - e2)).
  set (s := e1 - e2 - e').
  assert (Hs : 0 <= s) by (unfold s, e'; lia).
  assert (Hs' : s = Z.max (53 - d1 + d2) 0) by (unfold s, e', fexp64; lia).
  assert (Hk : 52 <= d1 - 1 + s - d2) by lia.
  set (m' := match s with Z.pos _ => Z.shiftl A s | 0 => A | Z.neg _ => 0 end).
  assert (Hm' : m' = A * 2 ^ s) by (unfold m'; now apply shiftl_case).
  destruct (Z.div_eucl m' B) as [q r] eqn:Ediv.
  exists q, s, (new_location B r).
  split; [f_equal; f_equal; unfold s; lia|].
  assert (Hq : q = m' / B) by (unfold Z.div; now rewrite Ediv).
  set (k := d1 - 1 + s - d2) in *.
  assert (Hpow : 2 ^ (d1 - 1) * 2 ^ s = 2 ^ k * (2 * 2 ^ (d2 - 1))).
  { rewrite <- Z.pow_add_r by lia. rewrite <- Z.pow_succ_r by lia.
    rewrite <- Z.pow_add_r by lia. f_equal. unfold k. lia. }
  assert (H2d1 : 2 ^ d1 = 2 * 2 ^ (d1 - 1))
    by (rewrite <- Z.pow_succ_r by lia; f_equal; lia).
  assert (H2d2 : 2 ^ d2 = 2 * 2 ^ (d2 - 1))
    by (rewrite <- Z.pow_succ_r by lia; f_equal; lia).
  assert (H4k : 2 ^ (k + 2) = 4 * 2 ^ k)
    by (rewrite Z.pow_add_r by lia; change (2 ^ 2) with 4; lia).
  assert (HK : 0 < 2 ^ k) by (apply Z.pow_pos_nonneg; lia).
  assert (HPs : 0 < 2 ^ s) by (apply Z.pow_pos_nonneg; lia).
  assert (HP1 : 0 < 2 ^ (d1 - 1)) by (apply Z.pow_pos_nonneg; lia).
  assert (HP2 : 0 < 2 ^ (d2 - 1)) by (apply Z.pow_pos_nonneg; lia).
  assert (Hlo : B * q <= m') by (rewrite Hq; apply Z.mul_div_le; lia).
  assert (Hhi : m' < B * Z.succ q) by (rewrite Hq; apply Z.mul_succ_div_gt; lia).
  assert (Hbnd : 2 ^ k <= q < 2 ^ (k + 2)).
  { rewrite H4k. rewrite H2d1 in HbA. rewrite H2d2 in HbB. rewrite Hm' in Hlo, Hhi.
    apply (quotient_bounds A B q (2 ^ (d1 - 1)) (2 ^ (d2 - 1)) (2 ^ s) (2 ^ k)); auto. }
  pose proof (Zdigits2_between q k ltac:(lia) Hbnd) as Hdq.
  assert (0 < q) by lia.
  split; [exact Hs'|]. split; [assumption|]. split; [lia|].
  split; [unfold k in Hdq; lia|]. rewrite <- Hm'. lia.
Qed.

(** A rounded quotient: a double of 53 bits within two units in the last
    place of the exact quotient. *)
Lemma div_round_value (sg : bool) (A B e1 e2 : Z) :
  0 < A -> 0 < B ->
  -1021 <= Zdigits2 A + e1 - (Zdigits2 B + e2) <= 1022 ->
  exists m e s K,
    (let '(q, e, l) := SFdiv_core_binary prec emax A e1 B e2 in
     binary_round_aux prec emax sg q e l) = S754_finite sg m e /\
    Zdigits2 (Zpos m) = 53 /\ 0 <= s /\ 0 <= K /\ e = e1 - e2 - s + K /\
    Zdigits2 A + e1 - (Zdigits2 B + e2) - 53 <= e
      <= Zdigits2 A + e1 - (Zdigits2 B + e2) - 51 /\
    s = Z.max (53 - Zdigits2 A + Zdigits2 B) 0 /\
    near 51 (Zpos m * (B * 2 ^ K)) (A * 2 ^ s).
Proof.
  intros HA HB Hd.
  destruct (div_core_value A B e1 e2 HA HB ltac:(lia))
    as (q & s & l & E & Hs & Hq0 & Hq53 & Hdq & Hq).
  rewrite E.
  destruct (binary_round_aux_value sg q (e1 - e2 - s) l Hq0 Hq53 ltac:(lia))
    as (m' & e' & Er & Hdm & He & Hv).
  rewrite Er. exists m', e', s, (e' - (e1 - e2 - s)).
  split; [reflexivity|]. split; [exact Hdm|]. split; [lia|].
  split; [lia|]. split; [lia|]. split; [lia|]. split; [lia|].
  set (K := e' - (e1 - e2 - s)) in *.
  assert (HK : 0 <= K) by (unfold K; lia).
  pose proof (Z.pow_pos_nonneg 2 K ltac:(lia) HK) as PK.
  pose proof (Zdigits2_53 (Zpos m') Hdm ltac:(lia)) as Hm52.
  apply near_step; [lia|nia|].
  set (TK := 2 ^ K) in *. set (T := 2 ^ s) in *. clearbody TK T.
  split.
  - assert ((Zpos m' - 1) * TK * B <= q * B) by (apply Z.mul_le_mono_nonneg_r; lia).
    nia.
  - assert ((q + 1) * B <= (Zpos m' + 2) * TK * B) by (apply Z.mul_le_mono_nonneg_r; lia).
    nia.
Qed.

(** A mantissa of 53 bits is left as it is by the rounding. *)
Lemma binary_round_exact (s : bool) (m : positive) (e : Z) :
  Zdigits2 (Zpos m) = 53 -> -1074 <= e <= 971 ->
  binary_round_aux prec emax s (Zpos m) e loc_Exact = S754_finite s m e.
Proof.
  intros Hd He.
  assert (E : shr_fexp prec emax (Zpos m) e loc_Exact
              = ({| shr_m := Zpos m; shr_r := false; shr_s := false |}, e)).
  { unfold shr_fexp. rewrite fexp_eq, Hd.
    replace (fexp64 (53 + e) - e) with 0 by (unfold fexp64; lia). reflexivity. }
  unfold binary_round_aux. rewrite E.
  cbn [shr_m loc_of_shr_record shr_r shr_s round_nearest_even].
  rewrite E. cbn [shr_m]. change (emax - prec) with 971.
  replace (e <=? 971) with true by (symmetry; apply Z.leb_le; lia). reflexivity.
Qed.

(** The conversion of a non-zero integer below [2^53]: exact. *)
Lemma binary_round_small (s : bool) (p : positive) :
  Zpos p < 2 ^ 53 ->
  exists m w,
    binary_round prec emax s p 0 = S754_finite s m (- w) /\
    Zpos m = Zpos p * 2 ^ w /\ Zdigits2 (Zpos m) = 53 /\
    w = 53 - Zdigits2 (Zpos p).
Proof.
  intros Hp.
  pose proof (Zdigits2_pos (Zpos p) ltac:(lia)) as Hd0.
  pose proof (Zdigits2_le_pow2 (Zpos p) 53 ltac:(lia) ltac:(lia) Hp) as Hd.
  unfold binary_round, shl_align. rewrite fexp_eq.
  change (Zpos (digits2_pos p)) with (Zdigits2 (Zpos p)).
  set (d := Zdigits2 (Zpos p)) in *.
  destruct (fexp64 (d + 0) - 0) as [|q|q] eqn:Ef.
  - assert (d = 53) by (unfold fexp64 in Ef; lia).
    exists p, 0. rewrite binary_round_exact by (fold d; lia).
    repeat split; lia.
  - unfold fexp64 in Ef. lia.
  - assert (Hq : Zpos q = 53 - d) by (unfold fexp64 in Ef; lia).
    assert (Hs : Zpos (shift_pos q p) = Zpos p * 2 ^ (53 - d)).
    { rewrite shift_pos_correct, Z.pow_pos_fold, Hq. ring. }
    assert (Hds : Zdigits2 (Zpos (shift_pos q p)) = 53).
    { rewrite Hs, Zdigits2_shift by lia. fold d. lia. }
    change (Pos.iter xO p q) with (shift_pos q p).
    exists (shift_pos q p), (53 - d).
    replace (fexp64 (d + 0)) with (- (53 - d)) by (unfold fexp64; lia).
    rewrite binary_round_exact by (auto; lia).
    repeat split; auto.
Qed.

Lemma np_float_exact (z : Z) :
  z <> 0 -> Z.abs z < 2 ^ 53 ->
  exists m w,
    np_float z = S754_finite (z <? 0) m (- w) /\
    Zpos m = Z.abs z * 2 ^ w /\ Zdigits2 (Zpos m) = 53 /\
    w = 53 - Zdigits2 (Z.abs z).
Proof.
  intros Hz Hb. unfold np_float, binary_normalize.
  destruct z as [|p|p]; [contradiction| |].
  - exact (binary_round_small false p Hb).
  - exact (binary_round_small true p Hb).
Qed.

(** The conversion of a non-zero integer of moderate size: 53 bits within
    two units in the last place. *)
Lemma binary_round_value (s : bool) (p : positive) :
  Zpos p < 2 ^ 1000 ->
  exists m u v,
    binary_round prec emax s p 0 = S754_finite s m (v - u) /\
    Zdigits2 (Zpos m) = 53 /\ 0 <= u <= 52 /\ 0 <= v /\
    v <= Z.max (Zdigits2 (Zpos p) - 52) 0 /\
    near 51 (Zpos m * 2 ^ v) (Zpos p * 2 ^ u).
Proof.
  intros Hp.
  pose proof (Zdigits2_pos (Zpos p) ltac:(lia)) as Hd0.
  pose proof (Zdigits2_le_pow2 (Zpos p) 1000 ltac:(lia) ltac:(lia) Hp) as Hd.
  destruct (Z_lt_le_dec (Zpos p) (2 ^ 53)) as [Hlt|Hge].
  - destruct (binary_round_small s p Hlt) as (m & w & E & Hm & Hdm & Hw).
    exists m, w, 0. replace (0 - w) with (- w) by lia.
    split; [exact E|]. split; [exact Hdm|].
    pose proof (Zdigits2_le_pow2 (Zpos p) 53 ltac:(lia) ltac:(lia) Hlt).
    split; [lia|]. split; [lia|]. split; [lia|].
    rewrite Hm. change (2 ^ 0) with 1. rewrite Z.mul_1_r.
    apply near_refl. assert (0 < 2 ^ w) by (apply Z.pow_pos_nonneg; lia). nia.
  - assert (Hd53 : 54 <= Zdigits2 (Zpos p)).
    { pose proof (Zdigits2_bounds (Zpos p) ltac:(lia)) as [_ Hu].
      destruct (Z_lt_le_dec (Zdigits2 (Zpos p)) 54) as [Hc|]; [|assumption].
      exfalso. assert (2 ^ Zdigits2 (Zpos p) <= 2 ^ 53) by (apply Z.pow_le_mono_r; lia).
      lia. }
    unfold binary_round, shl_align. rewrite fexp_eq.
    change (Zpos (digits2_pos p)) with (Zdigits2 (Zpos p)).
    set (d := Zdigits2 (Zpos p)) in *.
    destruct (fexp64 (d + 0) - 0) as [|q|q] eqn:Ef; try (unfold fexp64 in Ef; lia).
    destruct (binary_round_aux_value s (Zpos p) 0 loc_Exact ltac:(lia) ltac:(fold d; lia)
                ltac:(fold d; lia)) as (m & e & E & Hdm & He & Hv).
    fold d in He.
    exists m, 0, e. replace (e - 0) with e in * by lia.
    split; [exact E|]. split; [exact Hdm|]. split; [lia|]. split; [lia|]. split; [lia|].
    change (2 ^ 0) with 1. rewrite Z.mul_1_r.
    pose proof (Zdigits2_53 (Zpos m) Hdm ltac:(lia)).
    apply near_step; [lia|apply Z.pow_pos_nonneg; lia|exact Hv].
Qed.

Lemma np_float_value (z : Z) :
  z <> 0 -> Z.abs z < 2 ^ 1000 ->
  exists m u v,
    np_float z = S754_finite (z <? 0) m (v - u) /\
    Zdigits2 (Zpos m) = 53 /\ 0 <= u <= 52 /\ 0 <= v /\
    v <= Z.max (Zdigits2 (Z.abs z) - 52) 0 /\
    near 51 (Zpos m * 2 ^ v) (Z.abs z * 2 ^ u).
Proof.
  intros Hz Hb. unfold np_float, binary_normalize.
  destruct z as [|p|p]; [contradiction| |].
  - exact (binary_round_value false p Hb).
  - exact (binary_round_value true p Hb).
Qed.

(** The product of two doubles of 53 bits, in the normal range. *)
Lemma SFmul_value (s t : bool) (m k : positive) (e f : Z) :
  Zdigits2 (Zpos m) = 53 -> Zdigits2 (Zpos k) = 53 ->
  -1021 <= 105 + e + f -> 106 + e + f <= 1023 ->
  exists m' K,
    SFmul prec emax (S754_finite s m e) (S754_finite t k f)
    = S754_finite (xorb s t) m' (e + f + K) /\
    Zdigits2 (Zpos m') = 53 /\
    52 <= K <= 54 /\
    near 51 (Zpos m' * 2 ^ K) (Zpos m * Zpos k).
Proof.
  intros Hdm Hdk Hlo Hhi. cbv beta iota delta [SFmul].
  pose proof (Zdigits2_mul (Zpos m) (Zpos k) ltac:(lia) ltac:(lia)) as Hd.
  change (Zpos m * Zpos k) with (Zpos (m * k)) in *.
  destruct (binary_round_aux_value (xorb s t) (Zpos (m * k)) (e + f) loc_Exact
              ltac:(lia) ltac:(lia) ltac:(lia))
    as (m' & e' & Er & Hdm' & He & Hv).
  exists m', (e' - (e + f)).
  replace (e + f + (e' - (e + f))) with e' by lia.
  split; [exact Er|]. split; [exact Hdm'|]. split; [lia|].
  pose proof (Zdigits2_53 (Zpos m') Hdm' ltac:(lia)).
  apply near_step; [lia|apply Z.pow_pos_nonneg; lia|exact Hv].
Qed.

Lemma near_trans (n X Y Z' : Z) :
  0 <= n -> near (n + 2) X Y -> near (n + 1) Y Z' -> near n X Z'.
Proof.
  unfold near. intros Hn H1 H2.
  rewrite Z.pow_add_r in H1, H2 by lia.
  change (2 ^ 1) with 2 in H2. change (2 ^ 2) with 4 in H1.
  pose proof (Z.pow_pos_nonneg 2 n ltac:(lia) Hn) as Hp.
  set (p := 2 ^ n) in *. clearbody p.
  assert (Ha : Z.abs (X - Z') <= Z.abs (X - Y) + Z.abs (Y - Z')) by lia.
  pose proof (Z.abs_nonneg (X - Y)) as Na. pose proof (Z.abs_nonneg (Y - Z')) as Nb.
  set (a := Z.abs (X - Y)) in *. set (b := Z.abs (Y - Z')) in *.
  assert (Hy : Y <= X + a) by (unfold a; lia).
  clearbody a b.
  assert (4 * a <= X) by nia.
  assert (2 * (p * b) <= X + a) by nia.
  assert (4 * (p * a) <= X) by nia.
  assert (p * Z.abs (X - Z') <= p * a + p * b) by nia.
  lia.
Qed.

Lemma pow2_split (a b : Z) : 0 <= a -> 0 <= b -> 2 ^ (a + b) = 2 ^ a * 2 ^ b.
Proof. intros. now apply Z.pow_add_r. Qed.

(** The rounded quotient of [A' 2^e1] by [B' 2^e2], two numbers that stand
    for [A] (up to [2^-51]) and [B] (exactly). *)
Lemma quotient_value (sg : bool) (A' B' e1 e2 A B u v w : Z) :
  0 < A -> 0 < B -> 0 < A' -> 0 < B' ->
  0 <= u <= 100 -> 0 <= v <= 100 -> 0 <= w <= 100 ->
  Zdigits2 A' <= 100 -> Zdigits2 B' <= 100 ->
  e1 = v - u -> e2 = - w ->
  near 51 (A' * 2 ^ v) (A * 2 ^ u) -> B' = B * 2 ^ w ->
  exists m e,
    (let '(q, e, l) := SFdiv_core_binary prec emax A' e1 B' e2 in
     binary_round_aux prec emax sg q e l) = S754_finite sg m e /\
    Zdigits2 (Zpos m) = 53 /\ -400 <= e <= 400 /\
    near 49 (B * (Zpos m * 2 ^ (e + 1074))) (A * 2 ^ 1074).
Proof.
  intros HA HB HA' HB' Hu Hv Hw HdA HdB He1 He2 Hnear HB2.
  pose proof (Zdigits2_pos A' HA') as HpA. pose proof (Zdigits2_pos B' HB') as HpB.
  destruct (div_round_value sg A' B' e1 e2 HA' HB' ltac:(lia))
    as (m & e & s & K & E & Hdm & Hs1 & HK & He & Hrange & Hs & Hn).
  exists m, e. split; [exact E|]. split; [exact Hdm|]. split; [lia|].
  assert (Hs0 : 0 <= s <= 153) by lia.
  (* X = m B' 2^K 2^v, Y = A' 2^s 2^v, T = A 2^u 2^s *)
  apply (near_scale 51 (2 ^ v)) in Hn; [|apply Z.pow_nonneg; lia].
  apply (near_scale 51 (2 ^ s)) in Hnear; [|apply Z.pow_nonneg; lia].
  replace (2 ^ v * (A' * 2 ^ s)) with (2 ^ s * (A' * 2 ^ v)) in Hn by ring.
  pose proof (near_trans 49 _ _ _ ltac:(lia) Hn (near_weaken 50 51 _ _ ltac:(lia) Hnear))
    as Hc.
  apply (near_scale 49 (2 ^ (1074 - s - u))) in Hc; [|apply Z.pow_nonneg; lia].
  assert (E1 : 2 ^ (1074 - s - u) * (2 ^ v * (Zpos m * (B' * 2 ^ K)))
               = B * (Zpos m * 2 ^ (e + 1074))).
  { rewrite HB2.
    replace (e + 1074) with ((1074 - s - u) + v + w + K) by lia.
    rewrite !pow2_split by lia. ring. }
  assert (E2 : 2 ^ (1074 - s - u) * (2 ^ s * (A * 2 ^ u)) = A * 2 ^ 1074).
  { replace 1074 with ((1074 - s - u) + s + u) at 2 by lia.
    rewrite !pow2_split by lia. ring. }
  rewrite E1, E2 in Hc. exact Hc.
Qed.

(** The product of a double that stands for [A / B] with the double of a
    small positive int [c]. *)
Lemma scaled_value (s : bool) (m k : positive) (e g A B c : Z) :
  Zdigits2 (Zpos m) = 53 -> Zdigits2 (Zpos k) = 53 ->
  Zpos k = c * 2 ^ g -> 0 <= g <= 52 -> 0 < c -> -400 <= e <= 400 ->
  0 < B ->
  near 49 (B * (Zpos m * 2 ^ (e + 1074))) (A * 2 ^ 1074) ->
  exists m' e',
    SFmul prec emax (S754_finite s m e) (S754_finite false k (- g))
    = S754_finite s m' e' /\
    Zdigits2 (Zpos m') = 53 /\ -500 <= e' <= 500 /\
    near 48 (B * (Zpos m' * 2 ^ (e' + 1074))) (c * A * 2 ^ 1074).
Proof.
  intros Hdm Hdk Hk Hg Hc He HB Hn.
  destruct (SFmul_value s false m k e (- g) Hdm Hdk ltac:(lia) ltac:(lia))
    as (m' & K & E & Hdm' & HK & Hmul).
  rewrite xorb_false_r in E.
  exists m', (e + - g + K). split; [exact E|]. split; [exact Hdm'|]. split; [lia|].
  apply (near_scale 51 (B * 2 ^ (e + 1074 - g))) in Hmul;
    [|apply Z.mul_nonneg_nonneg; [lia|apply Z.pow_nonneg; lia]].
  apply (near_scale 49 c) in Hn; [|lia].
  assert (E1 : B * 2 ^ (e + 1074 - g) * (Zpos m' * 2 ^ K)
               = B * (Zpos m' * 2 ^ (e + - g + K + 1074))).
  { replace (e + - g + K + 1074) with ((e + 1074 - g) + K) by lia.
    rewrite !pow2_split by lia. ring. }
  assert (E2 : B * 2 ^ (e + 1074 - g) * (Zpos m * Zpos k)
               = c * (B * (Zpos m * 2 ^ (e + 1074)))).
  { rewrite Hk. replace (e + 1074) with ((e + 1074 - g) + g) at 2 by lia.
    rewrite !pow2_split by lia. ring. }
  rewrite E1, E2 in Hmul.
  replace (c * (A * 2 ^ 1074)) with (c * A * 2 ^ 1074) in Hn by ring.
  exact (near_trans 48 _ _ _ ltac:(lia) (near_weaken 50 51 _ _ ltac:(lia) Hmul) Hn).
Qed.

(** [a / b] with a [numpy.int64] on one side, for non-zero [a] and a
    positive [b] below [2^53]. *)
Lemma np_truediv_value (a b : Z) :
  a <> 0 -> Z.abs a <= 2 ^ 63 -> 0 < b < 2 ^ 53 ->
  exists m e,
    np_truediv a b = PyFloat (S754_finite (a <? 0) m e) /\
    Zdigits2 (Zpos m) = 53 /\ -400 <= e <= 400 /\
    near 49 (b * (Zpos m * 2 ^ (e + 1074))) (Z.abs a * 2 ^ 1074).
Proof.
  intros Ha Hab Hb.
  assert (Ha' : Z.abs a < 2 ^ 1000).
  { apply Z.le_lt_trans with (2 ^ 63); [exact Hab|]. apply Z.pow_lt_mono_r; lia. }
  destruct (np_float_value a Ha Ha') as (m1 & u & v & E1 & Hd1 & Hu & Hv & Hv' & Hn).
  destruct (np_float_exact b ltac:(lia) ltac:(lia)) as (m2 & w & E2 & Hm2 & Hd2 & Hw).
  replace (b <? 0) with false in E2 by (symmetry; apply Z.ltb_ge; lia).
  rewrite Z.abs_eq in Hm2, Hw by lia.
  pose proof (Zdigits2_pos b ltac:(lia)) as Hpb.
  pose proof (Zdigits2_le_pow2 b 53 ltac:(lia) ltac:(lia) ltac:(lia)) as Hdb.
  assert (Hda : Zdigits2 (Z.abs a) <= 64).
  { apply Zdigits2_le_pow2; lia. }
  unfold np_truediv. rewrite E1, E2. cbv beta iota delta [SFdiv].
  rewrite xorb_false_r.
  destruct (quotient_value (a <? 0) (Zpos m1) (Zpos m2) (v - u) (- w) (Z.abs a) b u v w)
    as (m & e & E & Hdm & He & Hq); try lia; auto.
  exists m, e. rewrite E. repeat split; auto; lia.
Qed.

(** [a / b] on two Python ints, non-zero [a] and positive [b]. *)
Lemma int_truediv_value (a b : Z) :
  a <> 0 -> Z.abs a < 2 ^ 100 -> 0 < b < 2 ^ 100 ->
  exists m e,
    int_truediv a b = Some (S754_finite (a <? 0) m e) /\
    Zdigits2 (Zpos m) = 53 /\ -400 <= e <= 400 /\
    near 49 (b * (Zpos m * 2 ^ (e + 1074))) (Z.abs a * 2 ^ 1074).
Proof.
  intros Ha Hab Hb. unfold int_truediv.
  replace (b =? 0) with false by (symmetry; apply Z.eqb_neq; lia).
  replace (a =? 0) with false by (symmetry; apply Z.eqb_neq; lia).
  replace (b <? 0) with false by (symmetry; apply Z.ltb_ge; lia).
  rewrite xorb_false_r. rewrite (Z.abs_eq b) by lia.
  pose proof (Zdigits2_le_pow2 (Z.abs a) 100 ltac:(lia) ltac:(lia) Hab) as Hda.
  pose proof (Zdigits2_le_pow2 b 100 ltac:(lia) ltac:(lia) ltac:(lia)) as Hdb.
  destruct (quotient_value (a <? 0) (Z.abs a) b 0 0 (Z.abs a) b 0 0 0)
    as (m & e & E & Hdm & He & Hq); try lia.
  - change (2 ^ 0) with 1. apply near_refl. lia.
  - destruct (SFdiv_core_binary prec emax (Z.abs a) 0 b 0) as [[q eq] l].
    rewrite E. exists m, e. repeat split; auto; lia.
Qed.

(** The double of a small positive int. *)
Lemma float_of_int_small (c : Z) :
  0 < c < 2 ^ 53 ->
  exists k g,
    float_of_int c = Some (S754_finite false k (- g)) /\
    Zdigits2 (Zpos k) = 53 /\ Zpos k = c * 2 ^ g /\ 0 <= g <= 52.
Proof.
  intros Hc. unfold float_of_int. fold (np_float c).
  destruct (np_float_exact c ltac:(lia) ltac:(lia)) as (k & g & E & Hk & Hdk & Hg).
  replace (c <? 0) with false in E by (symmetry; apply Z.ltb_ge; lia).
  rewrite Z.abs_eq in Hk, Hg by lia.
  pose proof (Zdigits2_pos c ltac:(lia)).
  pose proof (Zdigits2_le_pow2 c 53 ltac:(lia) ltac:(lia) ltac:(lia)).
  rewrite E. exists k, g. repeat split; auto; lia.
Qed.



(** *** Arithmetic on the quota figures *)

Lemma wrap64_id (z : Z) : - 2 ^ 63 <= z < 2 ^ 63 -> wrap64 z = z.
Proof.
  intros H. unfold wrap64. rewrite Z.mod_small; [lia|].
  change (2 ^ 64) with (2 * 2 ^ 63). lia.
Qed.

Lemma wrap64_range (z : Z) : - 2 ^ 63 <= wrap64 z < 2 ^ 63.
Proof.
  unfold wrap64.
  pose proof (Z.mod_pos_bound (z + 2 ^ 63) (2 ^ 64) ltac:(reflexivity)) as H.
  change (2 ^ 64) with (2 * 2 ^ 63) in *. lia.
Qed.

Lemma quota_row_not_found (df : list QuotaRow) (nat_ loc : string) (active_only : bool) :
  quota_row_found df nat_ loc = false -> get_daily_quota df nat_ loc active_only = 0.
Proof.
  intros H. apply get_daily_quota_no_match. intros r Hin [Hn Hl].
  unfold quota_row_found in H.
  assert (Hex : existsb (fun r => cell_eqb (q_nationality r) nat_
                                  && cell_eqb (q_location r) loc) df = true).
  { apply existsb_exists. exists r. split; [exact Hin|].
    apply andb_true_iff. now rewrite !cell_eqb_true. }
  congruence.
Qed.

Lemma quota_times_range (df : list QuotaRow) (nat_ loc : string) (active_only : bool)
    (n : Z) :
  - 2 ^ 63 <= quota_times df nat_ loc active_only n < 2 ^ 63.
Proof.
  unfold quota_times, quota_is_np, daily_quota.
  destruct (quota_row_found df nat_ loc) eqn:E.
  - apply wrap64_range.
  - rewrite (quota_row_not_found df nat_ loc active_only E). cbn. lia.
Qed.

Lemma quota_times_exact (df : list QuotaRow) (nat_ loc : string) (active_only : bool)
    (n : Z) :
  - 2 ^ 63 <= get_daily_quota df nat_ loc active_only * n < 2 ^ 63 ->
  quota_times df nat_ loc active_only n = get_daily_quota df nat_ loc active_only * n.
Proof.
  intros H. unfold quota_times, quota_is_np, daily_quota.
  destruct (quota_row_found df nat_ loc); [now apply wrap64_id|reflexivity].
Qed.

Lemma quota_times_zero (df : list QuotaRow) (nat_ loc : string) (active_only : bool)
    (n : Z) :
  get_daily_quota df nat_ loc active_only = 0 -> quota_times df nat_ loc active_only n = 0.
Proof.
  intros H. rewrite quota_times_exact by (rewrite H; cbn; lia). rewrite H. reflexivity.
Qed.

Lemma quota_minus_exact (df : list QuotaRow) (nat_ loc : string) (x n : Z) :
  - 2 ^ 63 <= x - n < 2 ^ 63 -> quota_minus df nat_ loc x n = x - n.
Proof.
  intros H. unfold quota_minus, quota_is_np.
  destruct (quota_row_found df nat_ loc); [now apply wrap64_id|reflexivity].
Qed.

(** [x / y] on a quota figure: never an exception for a positive divisor. *)
Lemma quota_truediv_zero (df : list QuotaRow) (nat_ loc : string) (b : Z) :
  0 < b < 2 ^ 53 ->
  quota_truediv df nat_ loc 0 b = Some (PyFloat (S754_zero false)).
Proof.
  intros Hb. unfold quota_truediv. destruct (quota_is_np df nat_ loc).
  - unfold np_truediv.
    destruct (np_float_exact b ltac:(lia) ltac:(lia)) as (m & w & E & _).
    rewrite E. replace (b <? 0) with false by (symmetry; apply Z.ltb_ge; lia).
    reflexivity.
  - unfold py_truediv, int_truediv.
    replace (b =? 0) with false by (symmetry; apply Z.eqb_neq; lia).
    replace (b <? 0) with false by (symmetry; apply Z.ltb_ge; lia).
    reflexivity.
Qed.

Lemma quota_truediv_value (df : list QuotaRow) (nat_ loc : string) (a b : Z) :
  a <> 0 -> Z.abs a <= 2 ^ 63 -> 0 < b < 2 ^ 53 ->
  exists m e,
    quota_truediv df nat_ loc a b = Some (PyFloat (S754_finite (a <? 0) m e)) /\
    Zdigits2 (Zpos m) = 53 /\ -400 <= e <= 400 /\
    near 49 (b * (Zpos m * 2 ^ (e + 1074))) (Z.abs a * 2 ^ 1074).
Proof.
  intros Ha Hab Hb. unfold quota_truediv. destruct (quota_is_np df nat_ loc).
  - destruct (np_truediv_value a b Ha Hab Hb) as (m & e & E & H).
    exists m, e. rewrite E. split; [reflexivity|exact H].
  - assert (Ha' : Z.abs a < 2 ^ 100).
    { apply Z.le_lt_trans with (2 ^ 63); [exact Hab|]. apply Z.pow_lt_mono_r; lia. }
    assert (Hb' : 0 < b < 2 ^ 100).
    { split; [lia|]. apply Z.lt_trans with (2 ^ 53); [lia|]. apply Z.pow_lt_mono_r; lia. }
    destruct (int_truediv_value a b Ha Ha' Hb') as (m & e & E & H).
    exists m, e. unfold py_truediv. rewrite E. split; [reflexivity|exact H].
Qed.

(** [x * c] for a double [x] and a small positive int [c]. *)
Lemma py_mul_zero (s : bool) (c : Z) :
  0 < c < 2 ^ 53 ->
  py_mul (PyFloat (S754_zero s)) (PyInt c) = Some (PyFloat (S754_zero s)).
Proof.
  intros Hc. unfold py_mul.
  destruct (float_of_int_small c Hc) as (k & g & E & _). rewrite E.
  cbn [option_map SFmul]. now rewrite xorb_false_r.
Qed.

Lemma py_mul_value (s : bool) (m : positive) (e c A B : Z) :
  Zdigits2 (Zpos m) = 53 -> -400 <= e <= 400 -> 0 < c < 2 ^ 53 -> 0 < B ->
  near 49 (B * (Zpos m * 2 ^ (e + 1074))) (A * 2 ^ 1074) ->
  exists m' e',
    py_mul (PyFloat (S754_finite s m e)) (PyInt c) = Some (PyFloat (S754_finite s m' e')) /\
    Zdigits2 (Zpos m') = 53 /\ -500 <= e' <= 500 /\
    near 48 (B * (Zpos m' * 2 ^ (e' + 1074))) (c * A * 2 ^ 1074).
Proof.
  intros Hdm He Hc HB Hn. unfold py_mul.
  destruct (float_of_int_small c Hc) as (k & g & E & Hdk & Hk & Hg). rewrite E.
  cbn [option_map].
  destruct (scaled_value s m k e g A B c Hdm Hdk Hk Hg ltac:(lia) He HB Hn)
    as (m' & e' & Em & H).
  exists m', e'. rewrite Em. split; [reflexivity|exact H].
Qed.



(* ================================================================== *)
(** ** Claims on the period table                                      *)
(* ================================================================== *)

Lemma valid_dateb_true (d : date) : valid_dateb d = true -> valid_date d.
Proof.
  unfold valid_dateb, valid_date. rewrite !andb_true_iff, !Z.leb_le. tauto.
Qed.

Lemma valid_apps_sample (l : list (Z * Z * Z)) :
  forallb (fun ymd => valid_dateb (mkdate (fst (fst ymd)) (snd (fst ymd)) (snd ymd))) l = true ->
  valid_apps (map (fun ymd => app_on (fst (fst ymd)) (snd (fst ymd)) (snd ymd)) l).
Proof.
  intros H. unfold valid_apps. apply Forall_forall. intros a Ha d Hd.
  apply in_map_iff in Ha. destruct Ha as ([[y m] dd] & <- & Hin).
  rewrite forallb_forall in H. specialize (H _ Hin). cbn [fst snd] in *.
  unfold app_on in Hd. cbn [application_date] in Hd. inversion Hd. subst d.
  now apply valid_dateb_true.
Qed.

Lemma future_masking_witness :
  exists t,
    prepare_grouped false [app_on 2024 1 5; app_on 2024 12 20; app_on 2023 1 5] D 2024 2023
                    (mkdate 2024 3 1) = Some t /\
    forall k, after_today D (mkdate 2024 3 1) k -> cell t k 2024 = None.
Proof.
  apply (future_masking false [app_on 2024 1 5; app_on 2024 12 20; app_on 2023 1 5] D 2023
                        (mkdate 2024 3 1)).
  - apply (valid_apps_sample [(2024, 1, 5); (2024, 12, 20); (2023, 1, 5)]). reflexivity.
  - apply (dates_in_bounds_sample false [(2024, 1, 5); (2024, 12, 20); (2023, 1, 5)]).
    reflexivity.
  - apply valid_dateb_true. reflexivity.
Defined.

(** C1.  The future-masking invariant holds for months and days, and for
    weeks as far as week numbers go ([future_masking]), but the week mask
    misses the turn of an ISO year.  Sunday 2027-01-03 belongs to ISO week 53
    (of 2026); every day of 2027 that falls in ISO week 1 (4 to 10 January)
    comes after it, so the week key 1 lies chronologically strictly after
    today.  The mask blanks the week numbers above 53 only, and an
    application dated 2027-01-04 is returned as a count of 1 under week 1 of
    the current-year column, where the day table of the same call blanks
    it. *)
Theorem week_mask_year_boundary :
  forall observed : bool,
    let today := mkdate 2027 1 3 in
    isoweek today = 53
    /\ (exists d, In d (dates_of_year 2027) /\ period_of W d = LInt 1)
    /\ (forall d, In d (dates_of_year 2027) -> period_of W d = LInt 1 ->
                  toordinal today < toordinal d)
    /\ (exists t, prepare_grouped observed [app_on 2027 1 4] W 2027 2026 today = Some t
                  /\ cell t (LInt 1) 2027 = Some 1)
    /\ (exists t, prepare_grouped observed [app_on 2027 1 4] D 2027 2026 today = Some t
                  /\ cell t (LStr "04/01") 2027 = None).
Proof.
  intros observed. cbv zeta. split; [reflexivity|]. split; [|split; [|split]].
  - exists (mkdate 2027 1 4). split; [|reflexivity].
    apply in_flat_map. exists 1. split.
    + apply in_map_iff. exists 1%nat. split; [reflexivity | apply in_seq; lia].
    + apply in_map_iff. exists 4%nat. split; [reflexivity|]. apply in_seq.
      change (Z.to_nat (days_in_month 2027 1)) with 31%nat. lia.
  - assert (H : forallb (fun d => negb (isoweek d =? 1)
                                  || (toordinal (mkdate 2027 1 3) <? toordinal d))
                        (dates_of_year 2027) = true) by (vm_compute; reflexivity).
    rewrite forallb_forall in H. intros d Hin Hw. specialize (H d Hin).
    unfold period_of in Hw. injection Hw as Hw. rewrite Hw in H.
    cbn [Z.eqb Pos.eqb negb orb] in H. now apply Z.ltb_lt.
  - destruct observed; eexists; split; reflexivity.
  - destruct observed; eexists; split; reflexivity.
Qed.

Lemma sorted_months : Sorted Z.le [1; 2; 3; 4; 5; 6; 7; 8; 9; 10; 11; 12].
Proof. repeat constructor; lia. Qed.

Lemma label_leb_M_total (a b : label) :
  label_leb M a b = true \/ label_leb M b a = true.
Proof.
  destruct a as [x|x], b as [y|y]; cbn [label_leb]; auto.
  - rewrite !Nat.leb_le. lia.
  - rewrite !Z.leb_le. lia.
Qed.

Lemma strftime_b_month (d : date) :
  1 <= month d <= 12 -> In (strftime_b d) month_abbrs.
Proof.
  intros Hm. unfold strftime_b. destruct d as [y m dd]. cbn [month] in *.
  month_cases m H; simpl; tauto.
Qed.

Lemma Sorted_map_in {A} (R : A -> A -> Prop) (f : A -> Z) (l : list A) :
  Sorted R l ->
  (forall a b, In a l -> In b l -> R a b -> f a <= f b) ->
  Sorted Z.le (map f l).
Proof.
  induction 1 as [|a l Hs IH Hhd]; intros Hf; cbn [map]; constructor.
  - apply IH. intros x y Hx Hy. apply Hf; now right.
  - destruct Hhd as [|b l Hab]; cbn [map]; constructor.
    apply Hf; [now left | right; now left | exact Hab].
Qed.

(** A list of month labels in the order of the pivot is in calendar order. *)
Lemma month_labels_ranks (idx : list label) :
  Sorted (fun a b => label_leb M a b = true) idx ->
  (forall k, In k idx -> exists s, k = LStr s /\ In s month_abbrs) ->
  exists ranks, map_opt (period_rank M) idx = Some ranks /\ Sorted Z.le ranks.
Proof.
  intros Hs Hlab.
  set (rankf := fun k => match k with
                         | LStr s => Z.of_nat (position s month_abbrs) + 1
                         | LInt n => n
                         end).
  exists (map rankf idx). split.
  - clear Hs. induction idx as [|k idx IH]; auto. cbn [map_opt map].
    destruct (Hlab k) as (s & -> & Hin); [now left|].
    cbn [period_rank]. unfold month_number.
    apply existsb_String_eqb in Hin. rewrite Hin. cbn [bind].
    rewrite IH; [reflexivity|]. intros k Hk. apply Hlab. now right.
  - apply (Sorted_map_in _ rankf idx Hs).
    intros a b Ha Hb Hab.
    destruct (Hlab a Ha) as (x & -> & _). destruct (Hlab b Hb) as (y & -> & _).
    cbn [label_leb] in Hab. apply Nat.leb_le in Hab. unfold rankf. lia.
Qed.

Lemma prepare_grouped_sorted (obs : bool) (df : list Application) (lv : level)
    (this_year last_year : Z) (today : date) :
  valid_apps df ->
  exists t ranks,
    grouped_pivot obs df lv this_year last_year today = Some t /\
    map_opt (period_rank lv) (index t) = Some ranks /\ Sorted Z.le ranks /\
    (lv = M -> obs = false -> index t = [] \/ index t = map LStr month_abbrs).
Proof.
  intros Hv. unfold grouped_pivot.
  set (P := pivot lv (groupby_size obs lv (with_period lv this_year last_year df))).
  match goal with
  | |- context [if ?c then ?a else P] => set (masked := if c then a else P)
  end.
  assert (Hidx : index masked = index P).
  { unfold masked. destruct (existsb _ _); auto. destruct lv; apply set_nan_index. }
  destruct lv.
  - exists masked. rewrite Hidx.
    destruct obs.
    + destruct (month_labels_ranks (index P)) as (ranks & Hr & Hs).
      * unfold P. rewrite pivot_index. apply sort_by_sorted, label_leb_M_total.
      * intros k Hk. apply index_labels in Hk. cbn [all_categories negb] in Hk.
        destruct Hk as (a & d & Ha & Ed & ->). exists (strftime_b d). split; auto.
        apply strftime_b_month. apply (valid_apps_In df a d Hv Ha Ed).
      * exists ranks. split; [|split; [|split]]; auto. discriminate.
    + unfold P. rewrite month_index.
      destruct (with_period M this_year last_year df).
      * exists []. split; [|split; [|split]]; auto.
      * exists [1; 2; 3; 4; 5; 6; 7; 8; 9; 10; 11; 12].
        split; [|split; [|split]]; auto using sorted_months.
  - destruct (sort_index_total obs W this_year last_year df masked Hv Hidx) as [t' Ht'];
      [discriminate|].
    destruct (sort_index_sorted masked t' Ht') as (ks & Hks & Hs).
    exists t', ks. repeat split; auto; [|discriminate].
    rewrite <- Hks. apply map_opt_ext_in. intros k Hk.
    apply (Permutation_in _ (sort_index_index masked t' Ht')) in Hk.
    rewrite Hidx in Hk. apply index_labels in Hk.
    destruct Hk as (a & d & _ & _ & ->). reflexivity.
  - destruct (sort_index_total obs D this_year last_year df masked Hv Hidx) as [t' Ht'];
      [discriminate|].
    destruct (sort_index_sorted masked t' Ht') as (ks & Hks & Hs).
    exists t', ks. repeat split; auto; [|discriminate].
    rewrite <- Hks. apply map_opt_ext_in. intros k Hk.
    apply (Permutation_in _ (sort_index_index masked t' Ht')) in Hk.
    rewrite Hidx in Hk. apply index_labels in Hk.
    destruct Hk as (a & d & _ & _ & ->). reflexivity.
Qed.

(** The ordering step on any table whose labels have a sort key: the rows are
    permuted into ascending order of the keys. *)
Lemma sort_index_spec (t : Pivot) :
  (forall k, In k (index t) -> sort_key k <> None) ->
  exists t' ks,
    sort_index t = Some t' /\ columns t' = columns t /\
    Permutation (rows t') (rows t) /\
    map_opt sort_key (index t') = Some ks /\ Sorted Z.le ks.
Proof.
  intros Hk.
  destruct (map_opt_Some sort_key (index t) Hk) as [keys Hkeys].
  assert (Hs : exists t', sort_index t = Some t').
  { unfold sort_index. rewrite Hkeys. cbn [bind]. now eexists. }
  destruct Hs as [t' Ht'].
  destruct (sort_index_rows t t' Ht') as [Hc Hp].
  destruct (sort_index_sorted t t' Ht') as (ks & Hks & Hsorted).
  now exists t', ks.
Qed.

(** C5.  Ordering of the period keys.  For every set of applications with
    real dates that [pd.to_datetime] holds (before pandas 3.0: dates from
    1677-09-22 to 2262-04-11; a date outside makes line 56 raise) and every
    granularity, [prepare_grouped] returns a table whose index is in
    ascending order of the granularity's own rank: for day keys ["DD/MM"]
    the number [month*100+day] (which is what the sort key reads back from
    the string), for week keys the week number, and for month keys the
    calendar position (with [observed=False] the month index is either empty
    or exactly Jan..Dec).  The ordering step itself, on any table of day
    keys, permutes the rows into ascending order of that number.  The day
    keys 05/01, 20/12, 01/02 come out as 05/01, 01/02, 20/12, where plain
    string order would give 01/02, 05/01, 20/12. *)
Theorem period_ordering :
  forall (observed : bool) (df : list Application) (lv : level)
         (this_year last_year : Z) (today : date),
    valid_apps df ->
    (dates_in_bounds observed df ->
     exists t ranks,
        prepare_grouped observed df lv this_year last_year today = Some t /\
        map_opt (period_rank lv) (index t) = Some ranks /\ Sorted Z.le ranks /\
        (lv = M -> observed = false -> index t = [] \/ index t = map LStr month_abbrs))
    /\ (forall d, valid_date d ->
          period_rank D (period_of D d) = Some (month d * 100 + day d))
    /\ (forall d, period_rank W (period_of W d) = Some (isoweek d))
    /\ (forall t : Pivot,
          (forall k, In k (index t) -> exists d, valid_date d /\ k = period_of D d) ->
          exists t' ks,
            sort_index t = Some t' /\ columns t' = columns t /\
            Permutation (rows t') (rows t) /\
            map_opt (period_rank D) (index t') = Some ks /\ Sorted Z.le ks)
    /\ option_map index
         (sort_index (mkPivot [2024] [(LStr "05/01", [Some 1]); (LStr "20/12", [Some 1]);
                                      (LStr "01/02", [Some 1])]))
       = Some [LStr "05/01"; LStr "01/02"; LStr "20/12"]
    /\ sort_by (label_leb D) [LStr "05/01"; LStr "20/12"; LStr "01/02"]
       = [LStr "01/02"; LStr "05/01"; LStr "20/12"]
    /\ option_map index
         (prepare_grouped observed [app_on 2024 1 5; app_on 2024 12 20; app_on 2024 2 1]
                          D 2024 2023 (mkdate 2024 12 31))
       = Some [LStr "05/01"; LStr "01/02"; LStr "20/12"].
Proof.
  intros obs df lv ty ly today Hv. split; [|split; [|split; [|split; [|split; [|split]]]]].
  - intros Hb. rewrite (prepare_grouped_in_bounds obs df lv ty ly today Hb).
    now apply prepare_grouped_sorted.
  - intros d Hd. exact (sort_key_strftime_valid d Hd).
  - reflexivity.
  - intros t Hlab.
    destruct (sort_index_spec t) as (t' & ks & Ht' & Hc & Hp & Hks & Hs).
    { intros k Hk. destruct (Hlab k Hk) as (d & Hd & ->).
      change (sort_key (LStr (strftime_dm d)) <> None).
      rewrite (sort_key_strftime_valid d Hd). discriminate. }
    exists t', ks. repeat split; auto.
    rewrite <- Hks. apply map_opt_ext_in. intros k Hk.
    assert (Hin : In k (index t)).
    { unfold index in *. eapply Permutation_in; [apply Permutation_map, Hp | exact Hk]. }
    destruct (Hlab k Hin) as (d & _ & ->). reflexivity.
  - reflexivity.
  - reflexivity.
  - now destruct obs.
Qed.

Lemma period_ordering_witness :
  exists t ranks,
    prepare_grouped false [app_on 2024 1 5; app_on 2024 12 20; app_on 2024 2 1]
                    D 2024 2023 (mkdate 2024 12 31) = Some t /\
    map_opt (period_rank D) (index t) = Some ranks /\ Sorted Z.le ranks /\
    (D = M -> false = false -> index t = [] \/ index t = map LStr month_abbrs).
Proof.
  apply (period_ordering false [app_on 2024 1 5; app_on 2024 12 20; app_on 2024 2 1]
                         D 2024 2023 (mkdate 2024 12 31)).
  - apply (valid_apps_sample [(2024, 1, 5); (2024, 12, 20); (2024, 2, 1)]). reflexivity.
  - apply (dates_in_bounds_sample false [(2024, 1, 5); (2024, 12, 20); (2024, 2, 1)]).
    reflexivity.
Defined.

Lemma premask_cell (obs : bool) (df : list Application) (lv : level)
    (this_year last_year : Z) (k : label) (y : Z) :
  cell (pivoted_before_mask obs df lv this_year last_year) k y =
  let rows := with_period lv this_year last_year df in
  if all_categories obs lv
  then if label_in k (map LStr month_abbrs) && existsb (Z.eqb y) (map row_year rows)
       then Some (group_size rows k y) else None
  else if 0 <? group_size rows k y then Some (group_size rows k y) else None.
Proof.
  unfold pivoted_before_mask. rewrite cell_pivot. apply lookup_groupby.
Qed.

Lemma year_present (lv : level) (this_year last_year : Z) (df : list Application) (y : Z) :
  In y (map row_year (with_period lv this_year last_year df)) <->
  (y = this_year \/ y = last_year) /\
  exists a d, In a df /\ application_date a = Some d /\ year d = y.
Proof.
  rewrite in_map_iff. split.
  - intros (r & <- & Hr). apply with_period_In in Hr.
    destruct Hr as (a & d & Ha & Ed & Hy & ->). cbn [row_year].
    split; [tauto|]. now exists a, d.
  - intros (Hy & a & d & Ha & Ed & <-).
    exists (mkRow d (year d) (period_of lv d)). split; auto.
    apply with_period_In. now exists a, d.
Qed.

Lemma group_size_pos (rows : list Row) (r : Row) :
  In r rows -> 0 < group_size rows (row_period r) (row_year r).
Proof.
  intros Hin. unfold group_size.
  assert (Hf : In r (filter (fun r' => label_eqb (row_period r') (row_period r)
                                       && (row_year r' =? row_year r)) rows)).
  { apply filter_In. split; auto. now rewrite label_eqb_refl, Z.eqb_refl. }
  destruct (filter _ rows); [destruct Hf | simpl; lia].
Qed.

(** C8, as the specification states it, fails on the month table, whatever
    the pandas default.  With a single application, dated 2024-01-05, no
    application falls in (Feb, 2024).  With [observed=False] the table built
    before masking holds the count zero there, not an absent cell; with
    [observed=True] it has the one row Jan, not a row for each of the 12
    months. *)
Lemma premask_month_counterexample :
  matching_events [app_on 2024 1 5] M (LStr "Feb") 2024 = []
  /\ cell (pivoted_before_mask false [app_on 2024 1 5] M 2024 2023) (LStr "Feb") 2024
     = Some 0
  /\ index (pivoted_before_mask true [app_on 2024 1 5] M 2024 2023) = [LStr "Jan"].
Proof. repeat split; reflexivity. Qed.

(** C8, amended.  In the table built before masking: for week and day
    granularity a (period, year) pair with no matching application has no
    count (the cell is absent).  For month granularity, with
    [observed=False] the table has the twelve month rows as soon as one
    application is dated in either year (and no row otherwise), and the cell
    of a month and of a year that has a column (one of the two years, with at
    least one application dated in it) holds the number of matching
    applications, which is zero when there are none; a year without any
    application has no column, hence no count.  With [observed=True] the
    month table has a row for the months of the applications dated in either
    year and no other, and a (month, year) pair with no matching application
    has no count. *)
Theorem premask_cells :
  forall (observed : bool) (df : list Application) (this_year last_year : Z),
    let in_either_year (d : date) := year d = this_year \/ year d = last_year in
    let table := pivoted_before_mask observed df in
    (forall lv k y, lv <> M -> matching_events df lv k y = [] ->
        cell (table lv this_year last_year) k y = None)
    /\ (observed = false ->
        ((exists a d, In a df /\ application_date a = Some d /\ in_either_year d) ->
         index (table M this_year last_year) = map LStr month_abbrs)
        /\ (~ (exists a d, In a df /\ application_date a = Some d /\ in_either_year d) ->
            index (table M this_year last_year) = [])
        /\ (forall m y, In m month_abbrs ->
            (y = this_year \/ y = last_year) ->
            (exists a d, In a df /\ application_date a = Some d /\ year d = y) ->
            cell (table M this_year last_year) (LStr m) y
            = Some (Z.of_nat (List.length (matching_events df M (LStr m) y))))
        /\ (forall k y,
            ~ (exists a d, In a df /\ application_date a = Some d /\ year d = y) ->
            cell (table M this_year last_year) k y = None))
    /\ (observed = true ->
        (forall k, In k (index (table M this_year last_year)) <->
                   exists a d, In a df /\ application_date a = Some d /\
                               in_either_year d /\ k = period_of M d)
        /\ (forall k y, matching_events df M k y = [] ->
            cell (table M this_year last_year) k y = None)).
Proof.
  intros obs df ty ly. cbv zeta. split; [|split].
  - intros lv k y Hlv Hm. rewrite premask_cell. cbv zeta.
    rewrite group_size_matching, Hm.
    destruct lv; [contradiction| |]; cbn [all_categories]; now destruct (existsb _ _).
  - intros ->. split; [|split; [|split]].
    + intros (a & d & Ha & Ed & Hy). unfold pivoted_before_mask. rewrite month_index.
      destruct (with_period M ty ly df) as [|r rs] eqn:E; auto.
      exfalso.
      assert (Hin : In (mkRow d (year d) (period_of M d)) (with_period M ty ly df))
        by (apply with_period_In; now exists a, d).
      rewrite E in Hin. destruct Hin.
    + intros Hno. unfold pivoted_before_mask. rewrite month_index.
      destruct (with_period M ty ly df) as [|r rs] eqn:E; auto.
      exfalso. apply Hno.
      assert (Hin : In r (with_period M ty ly df)) by (rewrite E; now left).
      apply with_period_In in Hin. destruct Hin as (a & d & Ha & Ed & Hy & _).
      now exists a, d.
    + intros m y Hm Hy Hex. rewrite premask_cell. cbv zeta. cbn [all_categories negb].
      assert (Hk : label_in (LStr m) (map LStr month_abbrs) = true)
        by (apply label_in_In; now apply in_map).
      assert (Hp : existsb (Z.eqb y) (map row_year (with_period M ty ly df)) = true)
        by (apply existsb_Zeqb, year_present; auto).
      rewrite Hk, Hp. cbn [andb]. rewrite group_size_matching.
      assert (Hy' : existsb (Z.eqb y) [ty; ly] = true)
        by (apply existsb_Zeqb; simpl; intuition congruence).
      now rewrite Hy'.
    + intros k y Hno. rewrite premask_cell. cbv zeta. cbn [all_categories negb].
      destruct (existsb (Z.eqb y) (map row_year (with_period M ty ly df))) eqn:Hp.
      * apply existsb_Zeqb, year_present in Hp. destruct Hp as [_ Hp]. contradiction.
      * now rewrite andb_false_r.
  - intros ->. split.
    + intros k. unfold pivoted_before_mask. rewrite pivot_index_In. split.
      * intros (y & n & Hin). apply groupby_size_In in Hin.
        cbn [all_categories negb] in Hin. destruct Hin as (_ & _ & Hk & _).
        apply in_map_iff in Hk. destruct Hk as (r & <- & Hr).
        apply with_period_In in Hr. destruct Hr as (a & d & Ha & Ed & Hy & ->).
        now exists a, d.
      * intros (a & d & Ha & Ed & Hy & ->).
        set (r := mkRow d (year d) (period_of M d)).
        assert (Hr : In r (with_period M ty ly df))
          by (apply with_period_In; now exists a, d).
        exists (year d), (group_size (with_period M ty ly df) (period_of M d) (year d)).
        apply groupby_size_In. cbn [all_categories negb].
        split; [|split; [reflexivity|split]].
        -- apply in_map_iff. now exists r.
        -- apply in_map_iff. now exists r.
        -- exact (group_size_pos _ r Hr).
    + intros k y Hm. rewrite premask_cell. cbv zeta. cbn [all_categories negb].
      rewrite group_size_matching, Hm. now destruct (existsb _ _).
Qed.

Lemma premask_cells_witness :
  cell (pivoted_before_mask false [app_on 2024 1 5; app_on 2023 3 9] W 2024 2023)
       (LInt 10) 2024 = None
  /\ index (pivoted_before_mask false [app_on 2024 1 5; app_on 2023 3 9] M 2024 2023)
     = map LStr month_abbrs
  /\ cell (pivoted_before_mask false [app_on 2024 1 5; app_on 2023 3 9] M 2024 2023)
          (LStr "Mar") 2024 = Some 0
  /\ cell (pivoted_before_mask true [app_on 2024 1 5; app_on 2023 3 9] M 2024 2023)
          (LStr "Mar") 2024 = None.
Proof.
  pose proof (premask_cells false [app_on 2024 1 5; app_on 2023 3 9] 2024 2023)
    as (Hwd & Hfalse & _).
  pose proof (premask_cells true [app_on 2024 1 5; app_on 2023 3 9] 2024 2023)
    as (_ & _ & Htrue).
  destruct (Hfalse eq_refl) as (Hidx & _ & Hcell & _).
  destruct (Htrue eq_refl) as (_ & Habsent).
  split; [|split; [|split]].
  - apply Hwd; [discriminate | reflexivity].
  - apply Hidx. exists (app_on 2024 1 5), (mkdate 2024 1 5).
    split; [now left | split; [reflexivity | now left]].
  - apply (Hcell "Mar" 2024).
    + simpl. tauto.
    + now left.
    + exists (app_on 2024 1 5), (mkdate 2024 1 5).
      split; [now left | split; reflexivity].
  - apply Habsent. reflexivity.
Defined.

(* ================================================================== *)
(** ** Claims on the quota figures                                     *)
(* ================================================================== *)

Lemma quota_filter_mismatch_witness :
  daily_quota [mkQuota (Some "A") (Some "B") 10 5] "A" "B" true = 5
  /\ daily_quota [mkQuota (Some "A") (Some "B") 10 5] "A" "B" false = 10
  /\ df_filtered [app_on 2024 1 5] "A" "B" true = df_filtered [app_on 2024 1 5] "A" "B" false.
Proof.
  destruct (quota_filter_mismatch [app_on 2024 1 5] [mkQuota (Some "A") (Some "B") 10 5]
                                  "A" "B") as [_ Hsame].
  - exists (mkQuota (Some "A") (Some "B") 10 5). split; [now left | split; reflexivity].
  - split; [reflexivity|]. split; [reflexivity|].
    apply Hsame. intros [H _]. discriminate H.
Defined.

Lemma year_days_mod4 (today : date) :
  year_days today = 366 <-> year today mod 4 = 0.
Proof.
  unfold year_days. destruct (year today mod 4 =? 0) eqn:E.
  - apply Z.eqb_eq in E. tauto.
  - apply Z.eqb_neq in E. split; [discriminate | contradiction].
Qed.

(** Away from the century years that are not leap years, [year_days] is
    the Gregorian length of today's year. *)
Lemma year_days_gregorian (today : date) :
  year today mod 100 <> 0 \/ year today mod 400 = 0 ->
  year_days today = gregorian_year_length (year today).
Proof.
  intros H. unfold year_days, gregorian_year_length, is_leap.
  destruct (year today mod 4 =? 0) eqn:E4; cbn [andb]; auto.
  destruct (year today mod 100 =? 0) eqn:E100; cbn [negb orb]; auto.
  destruct (year today mod 400 =? 0) eqn:E400; auto.
  apply Z.eqb_eq in E100. apply Z.eqb_neq in E400. tauto.
Qed.

(** C4.  The leap-year rule of the specification is the Gregorian one, and
    the page misses its century case: [year_days] tests divisibility by 4
    only.  It gives 366 for 2024 and 365 for 2023 as specified, but for a day
    of 2100, which is not a leap year and whose February the same page ends
    on the 28th, it gives 366, so the annual quota is one daily quota too
    large. *)
Theorem year_days_century :
  year_days (mkdate 2100 3 1) = 366
  /\ is_leap 2100 = false
  /\ gregorian_year_length 2100 = 365
  /\ last_day (mkdate 2100 2 10) = mkdate 2100 2 28
  /\ total_quota [mkQuota (Some "A") (Some "B") 10 5] "A" "B" false (mkdate 2100 3 1) = 3660
  /\ year_days (mkdate 2024 1 21) = 366
  /\ year_days (mkdate 2023 1 21) = 365
  /\ (forall today, year_days today = 366 <-> year today mod 4 = 0).
Proof.
  repeat split; try reflexivity; apply year_days_mod4.
Qed.





(** In double arithmetic the forecast can be one less than the exact
    quotient: 61 applications by the 7th of a 28-day month extrapolate to
    exactly 244, and [int(61 / 7 * 28)] is 243, because 61/7 rounds down. *)
Example forecast_double_rounding :
  forecast_by_eom (repeat (app_on 2023 2 3) 61) "A" "B" false (mkdate 2023 2 7) = Some 243
  /\ 61 * 28 / 7 = 244.
Proof. vm_compute. split; reflexivity. Qed.

(** The required average of a view, from the difference [total_quota -
    attained] as the page holds it and a positive number of remaining
    days: zero, or a double with the sign of the difference, within
    [2^-48] of the exact quotient scaled by 30, 7 or 1. *)
Lemma needed_avg_value (apps : list Application) (quotas : list QuotaRow)
    (nat_ loc : string) (active_only : bool) (today : date) (lv : level) :
  let diff := quota_minus quotas nat_ loc (total_quota quotas nat_ loc active_only today)
                          (attained apps nat_ loc active_only today) in
  let scale := match lv with M => 30 | W => 7 | D => 1 end in
  0 < remaining_days today < 2 ^ 53 -> Z.abs diff <= 2 ^ 63 ->
  (diff = 0 ->
   needed_avg apps quotas nat_ loc active_only today lv = Some (PyFloat (S754_zero false)))
  /\ (diff <> 0 ->
      exists m e,
        needed_avg apps quotas nat_ loc active_only today lv
        = Some (PyFloat (S754_finite (diff <? 0) m e))
        /\ near 48 (remaining_days today * (Zpos m * 2 ^ (e + 1074)))
                   (scale * Z.abs diff * 2 ^ 1074)).
Proof.
  intros diff scale Hr Hd. unfold needed_avg. fold diff.
  replace (0 <? remaining_days today) with true by (symmetry; apply Z.ltb_lt; lia).
  split.
  - intros Hz. rewrite Hz, quota_truediv_zero by assumption. cbn [bind].
    destruct lv; [apply py_mul_zero; split; reflexivity
                 |apply py_mul_zero; split; reflexivity|reflexivity].
  - intros Hnz.
    destruct (quota_truediv_value quotas nat_ loc diff (remaining_days today) Hnz Hd Hr)
      as (m & e & E & Hdm & He & Hn).
    rewrite E. cbn [bind].
    destruct lv; unfold scale.
    + destruct (py_mul_value (diff <? 0) m e 30 (Z.abs diff) (remaining_days today)
                  Hdm He ltac:(split; reflexivity) ltac:(lia) Hn)
        as (m' & e' & Em & _ & _ & Hn').
      exists m', e'. split; [exact Em|exact Hn'].
    + destruct (py_mul_value (diff <? 0) m e 7 (Z.abs diff) (remaining_days today)
                  Hdm He ltac:(split; reflexivity) ltac:(lia) Hn)
        as (m' & e' & Em & _ & _ & Hn').
      exists m', e'. split; [exact Em|exact Hn'].
    + exists m, e. split; [reflexivity|].
      rewrite Z.mul_1_l. apply (near_weaken 48 49); [lia|exact Hn].
Qed.

(** The claim as the specification words it fails where the 64 bits of the
    quota cell overflow.  A daily quota of [2^55] gives an annual quota of
    [2^55 * 365], far above the zero applications delivered, and the page
    shows a negative pace: its product has wrapped around.  And with a
    daily quota of -25269512429739111, whose product with 365 still fits,
    300 delivered applications make the difference wrap: the exact quotient
    is negative and the page shows a positive pace. *)
Lemma required_pace_counterexample :
  let today := mkdate 2023 6 1 in
  (let quotas := [mkQuota (Some "A") (Some "B") (2 ^ 55) (2 ^ 55)] in
   let annual_quota := get_daily_quota quotas "A" "B" false * year_days today in
   annual_quota - attained [] "A" "B" false today = 13150510911921848320
   /\ remaining_days today = 213
   /\ needed_avg [] quotas "A" "B" false today D
      = Some (PyFloat (S754_finite true 6216236105384628 2)))
  /\ (let quotas := [mkQuota (Some "A") (Some "B") (-25269512429739111)
                             (-25269512429739111)] in
      let apps := repeat (app_on 2023 1 5) 300 in
      let annual_quota := get_daily_quota quotas "A" "B" false * year_days today in
      annual_quota = total_quota quotas "A" "B" false today
      /\ annual_quota - attained apps "A" "B" false today = -9223372036854775815
      /\ exists m e, needed_avg apps quotas "A" "B" false today D
                     = Some (PyFloat (S754_finite false m e))).
Proof. vm_compute. repeat split. eexists _, _. reflexivity. Qed.

(** C3.  Required pace.  For a real date of today, the remaining days run
    from today to 31 December of today's year and lie between 0 and 365.
    When none remains, [needed_avg] is the int 0.  Otherwise, as long as
    the annual quota [daily_quota * year_days] and its difference with the
    applications delivered this year fit the 64 bits of the quota cell,
    [needed_avg] is a finite double that equals [(annual quota - delivered
    this year) / remaining days], times 30 for the month view and times 7
    for the week view whatever the calendar length of the period, up to the
    rounding of the doubles: a relative error of at most [2^-48]. *)
Theorem required_pace :
  forall (apps : list Application) (quotas : list QuotaRow) (nat_ loc : string)
         (active_only : bool) (today : date) (lv : level),
    valid_date today ->
    let annual_quota := get_daily_quota quotas nat_ loc active_only * year_days today in
    let delivered_this_year :=
      Z.of_nat (List.length (filter (fun a =>
        match application_date a with
        | Some d => year d =? year today
        | None => false
        end) (filter_applications apps nat_ loc active_only))) in
    let remaining_days_in_year :=
      toordinal (mkdate (year today) 12 31) - toordinal today in
    let scale := match lv with M => 30 | W => 7 | D => 1 end in
    0 <= remaining_days_in_year <= 365
    /\ (remaining_days_in_year <= 0 ->
        needed_avg apps quotas nat_ loc active_only today lv = Some (PyInt 0))
    /\ (0 < remaining_days_in_year ->
        - 2 ^ 63 <= annual_quota < 2 ^ 63 ->
        - 2 ^ 63 <= annual_quota - delivered_this_year ->
        total_quota quotas nat_ loc active_only today = annual_quota
        /\ exists f F,
             needed_avg apps quotas nat_ loc active_only today lv = Some (PyFloat f)
             /\ units f = Some F
             /\ 2 ^ 48 * Z.abs (remaining_days_in_year * F
                                - scale * (annual_quota - delivered_this_year) * 2 ^ 1074)
                <= remaining_days_in_year * Z.abs F).
Proof.
  intros apps quotas nat_ loc active_only today lv Ht. cbv zeta.
  pose proof (remaining_days_range today Ht) as Hr.
  unfold remaining_days, days_between, this_year in Hr.
  split; [exact Hr|]. split.
  - intros Hle. unfold needed_avg, remaining_days, days_between, this_year.
    replace (0 <? _) with false by (symmetry; apply Z.ltb_ge; exact Hle).
    cbn [bind]. now destruct lv.
  - intros Hpos Hfit Hdiff.
    assert (Htq : total_quota quotas nat_ loc active_only today
                  = get_daily_quota quotas nat_ loc active_only * year_days today)
      by (unfold total_quota; now apply quota_times_exact).
    split; [exact Htq|].
    pose proof (needed_avg_value apps quotas nat_ loc active_only today lv) as Hval.
    cbv zeta in Hval.
    change (attained apps nat_ loc active_only today) with
      (Z.of_nat (List.length (filter (fun a =>
        match application_date a with
        | Some d => year d =? year today
        | None => false
        end) (filter_applications apps nat_ loc active_only)))) in Hval.
    change (remaining_days today) with
      (toordinal (mkdate (year today) 12 31) - toordinal today) in Hval.
    set (delivered := Z.of_nat (List.length _)) in *.
    set (rem := toordinal (mkdate (year today) 12 31) - toordinal today) in *.
    assert (Hd0 : 0 <= delivered) by (unfold delivered; lia).
    rewrite Htq in Hval.
    rewrite (quota_minus_exact quotas nat_ loc) in Hval by lia.
    set (diff := get_daily_quota quotas nat_ loc active_only * year_days today - delivered)
      in *.
    destruct Hval as [Hzero Hnz].
    + split; [lia|]. apply Z.lt_trans with (2 ^ 9); [change (2 ^ 9) with 512; lia|].
      apply Z.pow_lt_mono_r; lia.
    + lia.
    + destruct (Z.eq_dec diff 0) as [E0|N0].
      * exists (S754_zero false), 0. split; [exact (Hzero E0)|]. split; [reflexivity|].
        rewrite E0, !Z.mul_0_r. cbn. lia.
      * destruct (Hnz N0) as (m & e & E & Hn).
        exists (S754_finite (diff <? 0) m e),
               ((if diff <? 0 then - Zpos m else Zpos m) * 2 ^ (e + 1074)).
        split; [exact E|]. split; [reflexivity|].
        unfold near in Hn.
        assert (HP : 0 <= Zpos m * 2 ^ (e + 1074))
          by (apply Z.mul_nonneg_nonneg; [lia|apply Z.pow_nonneg; lia]).
        destruct (diff <? 0) eqn:Es;
          [apply Z.ltb_lt in Es|apply Z.ltb_ge in Es].
        -- replace (- Zpos m * 2 ^ (e + 1074)) with (- (Zpos m * 2 ^ (e + 1074))) by ring.
           set (P := Zpos m * 2 ^ (e + 1074)) in *.
           set (U := 2 ^ 1074) in *.
           set (scale := match lv with M => 30 | W => 7 | D => 1 end) in *.
           clearbody P U scale.
           replace (Z.abs diff) with (- diff) in Hn by lia.
           replace (Z.abs (- P)) with P by lia.
           replace (rem * - P - scale * diff * U) with (- (rem * P - scale * - diff * U))
             by ring.
           rewrite Z.abs_opp. exact Hn.
        -- set (P := Zpos m * 2 ^ (e + 1074)) in *.
           replace (Z.abs diff) with diff in Hn by lia.
           replace (Z.abs P) with P by lia. exact Hn.
Qed.

Lemma required_pace_witness :
  let apps := [app_on 2024 1 5] in
  let quotas := [mkQuota (Some "A") (Some "B") 10 5] in
  let today := mkdate 2024 1 21 in
  exists f F,
    needed_avg apps quotas "A" "B" false today M = Some (PyFloat f)
    /\ units f = Some F
    /\ 2 ^ 48 * Z.abs ((toordinal (mkdate 2024 12 31) - toordinal today) * F
                       - 30 * (10 * 366 - 1) * 2 ^ 1074)
       <= (toordinal (mkdate 2024 12 31) - toordinal today) * Z.abs F.
Proof.
  destruct (required_pace [app_on 2024 1 5] [mkQuota (Some "A") (Some "B") 10 5] "A" "B"
              false (mkdate 2024 1 21) M (valid_dateb_true (mkdate 2024 1 21) eq_refl))
    as (_ & _ & H).
  destruct H as (_ & f & F & H1 & H2 & H3).
  - reflexivity.
  - split; [discriminate|reflexivity].
  - discriminate.
  - exists f, F. split; [exact H1|]. split; [exact H2|exact H3].
Defined.

(** C7.  Missing quota.  When no row of the quota table has exactly the
    segment's nationality and location, [get_daily_quota] returns 0 (no
    error); a daily quota of 0 makes the monthly quota 0; and whenever the
    monthly quota is 0, [percent_delivered] and [percent_forecast] are the
    int 0: no division is evaluated, nothing is raised and no NaN arises. *)
Theorem missing_quota_degrades :
  forall (apps : list Application) (quotas : list QuotaRow) (nat_ loc : string)
         (active_only : bool) (today : date),
    ((forall r, In r quotas -> ~ quota_matches nat_ loc r) ->
     get_daily_quota quotas nat_ loc active_only = 0)
    /\ (daily_quota quotas nat_ loc active_only = 0 ->
        monthly_quota quotas nat_ loc active_only today = 0)
    /\ (monthly_quota quotas nat_ loc active_only today = 0 ->
        percent_delivered apps quotas nat_ loc active_only today = Some (PyInt 0)
        /\ percent_forecast apps quotas nat_ loc active_only today = Some (PyInt 0)).
Proof.
  intros apps quotas nat_ loc active_only today. split; [|split].
  - apply get_daily_quota_no_match.
  - intros H. unfold monthly_quota. now apply quota_times_zero.
  - intros H. unfold percent_delivered, percent_forecast. rewrite H. now split.
Qed.

Lemma missing_quota_degrades_witness :
  get_daily_quota [mkQuota (Some "A") (Some "B") 10 5] "A" "C" true = 0
  /\ monthly_quota [mkQuota (Some "A") (Some "B") 10 5] "A" "C" true (mkdate 2024 1 21) = 0
  /\ percent_delivered [app_on 2024 1 5] [mkQuota (Some "A") (Some "B") 10 5] "A" "C" true
                       (mkdate 2024 1 21) = Some (PyInt 0)
  /\ percent_forecast [app_on 2024 1 5] [mkQuota (Some "A") (Some "B") 10 5] "A" "C" true
                      (mkdate 2024 1 21) = Some (PyInt 0).
Proof.
  pose proof (missing_quota_degrades [app_on 2024 1 5] [mkQuota (Some "A") (Some "B") 10 5]
                                     "A" "C" true (mkdate 2024 1 21)) as (H1 & H2 & H3).
  assert (Hq : get_daily_quota [mkQuota (Some "A") (Some "B") 10 5] "A" "C" true = 0).
  { apply H1. intros r [<- | []] [_ Hl]. discriminate Hl. }
  split; [exact Hq|]. split; [exact (H2 Hq)|]. exact (H3 (H2 Hq)).
Defined.

(** The claim as worded fails where the difference leaves the 64 bits of
    the quota cell.  With a daily quota of -25269512429739111 the annual
    quota is [-2^63 + 293]; 400 delivered applications exceed it, 213 days
    of the year remain, and the difference wraps around to [2^63 - 107]:
    the pace the page shows is positive. *)
Lemma negative_pace_counterexample :
  let quotas := [mkQuota (Some "A") (Some "B") (-25269512429739111)
                         (-25269512429739111)] in
  let apps := repeat (app_on 2023 1 5) 400 in
  let today := mkdate 2023 6 1 in
  total_quota quotas "A" "B" false today = -9223372036854775515
  /\ attained apps "A" "B" false today = 400
  /\ total_quota quotas "A" "B" false today < attained apps "A" "B" false today
  /\ remaining_days today = 213
  /\ needed_avg apps quotas "A" "B" false today D
     = Some (PyFloat (S754_finite false 5412777016933554 3))
  /\ py_negative (PyFloat (S754_finite false 5412777016933554 3)) = false.
Proof. vm_compute. repeat split. Qed.

(** C10.  Negative pace.  When more has been delivered this year than the
    annual quota and at least one day of the year remains, the
    required-average value of every view is a negative float: the difference
    is divided as it is, nothing clamps it at 0 (only a non-positive number
    of remaining days gives 0).  This holds as long as the difference fits
    the 64 bits of the quota cell, which it does unless the annual quota is
    within the number of delivered applications of [-2^63]. *)
Theorem negative_pace :
  forall (apps : list Application) (quotas : list QuotaRow) (nat_ loc : string)
         (active_only : bool) (today : date) (lv : level),
    valid_date today ->
    - 2 ^ 63 <= total_quota quotas nat_ loc active_only today
                - attained apps nat_ loc active_only today ->
    total_quota quotas nat_ loc active_only today < attained apps nat_ loc active_only today ->
    0 < remaining_days today ->
    exists f,
      needed_avg apps quotas nat_ loc active_only today lv = Some (PyFloat f)
      /\ py_negative (PyFloat f) = true
      /\ SFltb f (S754_zero false) = true.
Proof.
  intros apps quotas nat_ loc active_only today lv Ht Hfit Hlt Hrem.
  pose proof (remaining_days_range today Ht) as Hr.
  pose proof (needed_avg_value apps quotas nat_ loc active_only today lv) as Hval.
  cbv zeta in Hval.
  rewrite (quota_minus_exact quotas nat_ loc) in Hval by lia.
  set (diff := total_quota quotas nat_ loc active_only today
               - attained apps nat_ loc active_only today) in *.
  destruct Hval as [_ Hnz].
  - split; [lia|]. apply Z.lt_trans with (2 ^ 9); [change (2 ^ 9) with 512; lia|].
    apply Z.pow_lt_mono_r; lia.
  - lia.
  - destruct (Hnz ltac:(lia)) as (m & e & E & _).
    replace (diff <? 0) with true in E by (symmetry; apply Z.ltb_lt; lia).
    exists (S754_finite true m e). repeat split. exact E.
Qed.

Lemma negative_pace_witness :
  exists f,
    needed_avg [app_on 2024 1 5; app_on 2024 1 20] [mkQuota (Some "A") (Some "B") 0 0]
               "A" "B" false (mkdate 2024 1 21) M = Some (PyFloat f)
    /\ py_negative (PyFloat f) = true
    /\ SFltb f (S754_zero false) = true.
Proof.
  apply (negative_pace [app_on 2024 1 5; app_on 2024 1 20]
                       [mkQuota (Some "A") (Some "B") 0 0] "A" "B" false
                       (mkdate 2024 1 21) M).
  - apply valid_dateb_true. reflexivity.
  - discriminate.
  - reflexivity.
  - reflexivity.
Defined.

Example negative_pace_sample :
  needed_avg [app_on 2024 1 5; app_on 2024 1 20] [mkQuota (Some "A") (Some "B") 0 0]
             "A" "B" false (mkdate 2024 1 21) D
  = Some (PyFloat (S754_finite true 6683602925257084 (-60))).
Proof. vm_compute. reflexivity. Qed.

(* ================================================================== *)
(** ** Further properties of the page                                  *)
(* ================================================================== *)

(** *** Sample evaluations of the side bar, the latest day and the chart *)

Example safe_parse_samples :
  safe_parse 2024 "29/02" = Some (mkdate 2024 2 29)
  /\ safe_parse 2025 "29/02" = None
  /\ safe_parse 2024 "5/3" = Some (mkdate 2024 3 5)
  /\ safe_parse 2024 " 5/03" = Some (mkdate 2024 3 5)
  /\ safe_parse 2024 "32/01" = None
  /\ safe_parse 2024 "Jan" = None
  /\ safe_parse 2024 "05/01/07" = None
  /\ safe_parse 999 "01/01" = None.
Proof. vm_compute. repeat split. Qed.

Example str_of_int_samples :
  str_of_int 2024 = "2024" /\ str_of_int 0 = "0" /\ str_of_int (-7) = "-7".
Proof. vm_compute. repeat split. Qed.

Example select_options_sample :
  select_options [Some "b"; None; Some "a"; Some "b"; Some "B"] = ["B"; "a"; "b"].
Proof. reflexivity. Qed.

Example sidebar_sample :
  nationality_default [mkApp None (Some "indian") None None;
                       mkApp None (Some "filipina") None None;
                       mkApp None (Some "african") None None] = Some 1%nat
  /\ location_default [] = None.
Proof. vm_compute. split; reflexivity. Qed.

Example latest_date_sample :
  latest_date [app_on 2024 1 5; app_on 2023 12 31; mkApp None (Some "A") (Some "B") None]
              "A" "B" false = Some "2024-01-05"
  /\ latest_date [mkApp None (Some "A") (Some "B") None] "A" "B" false = None.
Proof. vm_compute. split; reflexivity. Qed.

(** The day view on 2024-03-21: the key 28/02, a past day without a
    delivery this year, is blank in the current-year line and not under the
    required-average line; 25/03 is. *)
Example render_view_day_sample :
  option_map traces
    (render_view false [app_on 2024 1 5; app_on 2024 3 20; app_on 2023 3 25; app_on 2023 2 28]
       [mkQuota (Some "A") (Some "B") 0 5] "A" "B" false (mkdate 2024 3 21) D)
  = Some [Series 2023 [LStr "05/01"; LStr "28/02"; LStr "20/03"; LStr "25/03"]
                      [None; Some 1; None; Some 1];
          Series 2024 [LStr "05/01"; LStr "28/02"; LStr "20/03"; LStr "25/03"]
                      [Some 1; None; Some 1; None];
          RequiredAvg [LStr "25/03"]
                      [PyFloat (S754_finite true 8090677225311207 (-60))]].
Proof. vm_compute. reflexivity. Qed.

(** The week view on the same day: week 6, past and without a delivery
    this year, is under the required-average line. *)
Example render_view_week_sample :
  option_map traces
    (render_view true [app_on 2024 1 5; app_on 2024 3 20; app_on 2023 3 25; app_on 2023 2 8]
       [mkQuota (Some "A") (Some "B") 0 5] "A" "B" false (mkdate 2024 3 21) W)
  = Some [Series 2023 [LInt 1; LInt 6; LInt 12] [None; Some 1; Some 1];
          Series 2024 [LInt 1; LInt 6; LInt 12] [Some 1; None; Some 1];
          RequiredAvg [LInt 6] [PyFloat (S754_finite true 7079342572147306 (-57))]].
Proof. vm_compute. reflexivity. Qed.

(** *** The segment filter and the quota lookup, continued *)

Lemma filter_idem {A} (f : A -> bool) (l : list A) : filter f (filter f l) = filter f l.
Proof.
  induction l as [|x l IH]; cbn; auto.
  destruct (f x) eqn:E; cbn; rewrite ?E, IH; auto.
Qed.

(** X2.  Filtering is idempotent and the flag only narrows.  Whatever the
    frame and the segment, [filter_applications] applied to its own result
    (same segment, same flag) returns that result unchanged; every row kept
    with [active_only] set is also kept without it; and the three row counts
    are ordered: with the flag, without the flag, the whole frame. *)
Theorem filter_applications_idempotent :
  forall (df : list Application) (nat_ loc : string) (active_only : bool),
    filter_applications (filter_applications df nat_ loc active_only) nat_ loc active_only
    = filter_applications df nat_ loc active_only
    /\ incl (filter_applications df nat_ loc true) (filter_applications df nat_ loc false)
    /\ (List.length (filter_applications df nat_ loc true)
        <= List.length (filter_applications df nat_ loc false)
        <= List.length df)%nat.
Proof.
  intros df nat_ loc active_only. split; [|split].
  - rewrite !filter_applications_unfold. apply filter_idem.
  - intros r Hr. apply filter_applications_In in Hr. apply filter_applications_In.
    intuition discriminate.
  - unfold filter_applications. cbn [andb].
    destruct (String.eqb (lower nat_) "filipina" && String.eqb (lower loc) "philippines").
    + split; [apply filter_length_le|apply filter_length_le].
    + split; [lia|apply filter_length_le].
Qed.

Lemma get_daily_quota_app (l1 l2 : list QuotaRow) nat_ loc active_only :
  (forall r, In r l1 -> ~ quota_matches nat_ loc r) ->
  get_daily_quota (l1 ++ l2) nat_ loc active_only = get_daily_quota l2 nat_ loc active_only.
Proof.
  intros H. unfold get_daily_quota. rewrite filter_app.
  replace (filter _ l1) with (@nil QuotaRow); [reflexivity|].
  symmetry. induction l1 as [|r l1 IH]; cbn; auto.
  destruct (cell_eqb (q_nationality r) nat_ && cell_eqb (q_location r) loc) eqn:E.
  - exfalso. apply (H r); [now left|].
    apply andb_true_iff in E. rewrite !cell_eqb_true in E. exact E.
  - apply IH. intros r' Hr'. apply H. now right.
Qed.

(** X3.  The first matching row decides.  When the quota table holds a row
    for the segment, [get_daily_quota] reads the first such row in table
    order ([row.iloc[0]]), whatever follows it, further matching rows
    included: column [quota_active] when [active_only] is set, column
    [quota_all] otherwise. *)
Theorem get_daily_quota_first_match :
  forall (before after : list QuotaRow) (r : QuotaRow) (nat_ loc : string)
         (active_only : bool),
    (forall r', In r' before -> ~ quota_matches nat_ loc r') ->
    quota_matches nat_ loc r ->
    get_daily_quota (before ++ r :: after) nat_ loc active_only
    = if active_only then quota_active r else quota_all r.
Proof.
  intros before after r nat_ loc active_only Hb [Hn Hl].
  rewrite get_daily_quota_app by exact Hb.
  unfold get_daily_quota. cbn [filter].
  assert (E : cell_eqb (q_nationality r) nat_ && cell_eqb (q_location r) loc = true)
    by (apply andb_true_iff; rewrite !cell_eqb_true; auto).
  rewrite E. reflexivity.
Qed.

Lemma get_daily_quota_first_match_witness :
  get_daily_quota ([mkQuota (Some "A") (Some "C") 1 2]
                   ++ mkQuota (Some "A") (Some "B") 10 5
                   :: [mkQuota (Some "A") (Some "B") 20 7]) "A" "B" true
  = 5.
Proof.
  apply (get_daily_quota_first_match
           [mkQuota (Some "A") (Some "C") 1 2] [mkQuota (Some "A") (Some "B") 20 7]
           (mkQuota (Some "A") (Some "B") 10 5) "A" "B" true).
  - intros r' [<-|[]] [_ H]. discriminate.
  - split; reflexivity.
Defined.

Section UniqNoDup.
Context {A : Type} (eqb : A -> A -> bool).
Hypothesis eqb_eq : forall a b, eqb a b = true <-> a = b.

Lemma NoDup_filter (f : A -> bool) (l : list A) : NoDup l -> NoDup (filter f l).
Proof.
  induction 1 as [|x l Hx Hl IH]; cbn; [constructor|].
  destruct (f x); auto. constructor; auto.
  rewrite filter_In. tauto.
Qed.

Lemma uniq_NoDup (l : list A) : NoDup (uniq eqb l).
Proof.
  induction l as [|x l IH]; cbn; constructor.
  - rewrite filter_In, negb_true_iff. intros [_ H].
    assert (eqb x x = true) by now apply eqb_eq. congruence.
  - now apply NoDup_filter.
Qed.
End UniqNoDup.

Lemma sort_by_NoDup {A} (leb : A -> A -> bool) (l : list A) :
  NoDup l -> NoDup (sort_by leb l).
Proof.
  intros H. eapply Permutation_NoDup; [|exact H]. symmetry. apply sort_by_perm.
Qed.

(** *** The side bar *)

Lemma dropna_In {A} (col : list (option A)) (x : A) : In x (dropna col) <-> In (Some x) col.
Proof.
  unfold dropna. rewrite in_flat_map. split.
  - intros ([y|] & Hy & Hx); cbn in Hx; [|tauto]. destruct Hx as [<-|[]]. exact Hy.
  - intros H. exists (Some x). split; [exact H|now left].
Qed.

Lemma string_leb_total (a b : string) : String.leb a b = true \/ String.leb b a = true.
Proof.
  destruct (String.leb_total a b) as [H|H]; auto.
Qed.

Lemma select_options_spec (col : list (option string)) :
  (forall s, In s (select_options col) <-> In (Some s) col)
  /\ NoDup (select_options col)
  /\ Sorted (fun a b => String.leb a b = true) (select_options col).
Proof.
  unfold select_options. split; [|split].
  - intros s. rewrite sort_by_In, (uniq_In _ String.eqb_eq). apply dropna_In.
  - apply sort_by_NoDup, (uniq_NoDup _ String.eqb_eq).
  - apply sort_by_sorted, string_leb_total.
Qed.

Lemma list_index_Some (s : string) (l : list string) (i : nat) :
  list_index s l = Some i ->
  nth_error l i = Some s /\ forall j, (j < i)%nat -> nth_error l j <> Some s.
Proof.
  revert i. induction l as [|x l IH]; cbn; intros i H; [discriminate|].
  destruct (String.eqb x s) eqn:E.
  - inversion H. subst i. apply String.eqb_eq in E. subst x. split; [reflexivity|lia].
  - destruct (list_index s l) as [i'|]; [|discriminate]. inversion H. subst i.
    destruct (IH i' eq_refl) as [H1 H2]. split; [exact H1|].
    intros [|j] Hj; cbn.
    + intros Hx. inversion Hx. subst x. rewrite String.eqb_refl in E. discriminate.
    + apply H2. lia.
Qed.

Lemma list_index_None (s : string) (l : list string) :
  list_index s l = None <-> ~ In s l.
Proof.
  induction l as [|x l IH]; cbn; [tauto|].
  destruct (String.eqb x s) eqn:E.
  - apply String.eqb_eq in E. split; [discriminate|]. intros H. exfalso. apply H. now left.
  - apply String.eqb_neq in E. destruct (list_index s l); cbn in *.
    + split; [discriminate|]. intros H. exfalso. apply H. right.
      destruct (in_dec string_dec s l) as [Hi|Hn]; [exact Hi|].
      apply IH in Hn. discriminate.
    + split; [|reflexivity]. intros _ [H|H]; [congruence|]. now apply IH.
Qed.

(** X4.  The preselected entries of the side bar.  The page looks up the
    position of ["filipina"] among the sorted distinct non-null nationalities
    and of ["outside_uae"] among the locations.  The lookup raises
    ([ValueError], here [None]) exactly when no application carries that
    value, an empty table included; when it succeeds, the position found
    holds that value in the list of options. *)
Theorem sidebar_defaults :
  forall df_apps : list Application,
    (nationality_default df_apps = None <->
       forall a, In a df_apps -> nationality a <> Some "filipina")
    /\ (location_default df_apps = None <->
          forall a, In a df_apps -> location a <> Some "outside_uae")
    /\ (forall i, nationality_default df_apps = Some i ->
          nth_error (select_options (map nationality df_apps)) i = Some "filipina")
    /\ (forall i, location_default df_apps = Some i ->
          nth_error (select_options (map location df_apps)) i = Some "outside_uae").
Proof.
  intros df. unfold nationality_default, location_default.
  rewrite !list_index_None.
  assert (Hin : forall (f : Application -> option string) s,
             ~ In s (select_options (map f df)) <-> (forall a, In a df -> f a <> Some s)).
  { intros f s. rewrite (proj1 (select_options_spec _)), in_map_iff. split.
    - intros H a Ha E. apply H. now exists a.
    - intros H (a & E & Ha). now apply (H a). }
  repeat split; try (apply Hin); try (intros i Hi; now apply list_index_Some in Hi).
Qed.

(** *** The latest day *)

Lemma max_date_fold (col : list (option date)) (acc : option date) :
  let step := fun acc c =>
                match c, acc with
                | Some d, Some m => Some (if date_leb m d then d else m)
                | Some d, None => Some d
                | None, _ => acc
                end in
  match fold_left step col acc with
  | None => acc = None /\ forall d, ~ In (Some d) col
  | Some m =>
      (acc = Some m \/ In (Some m) col)
      /\ (forall d, acc = Some d -> toordinal d <= toordinal m)
      /\ (forall d, In (Some d) col -> toordinal d <= toordinal m)
  end.
Proof.
  cbv zeta. revert acc. induction col as [|c col IH]; intros acc; cbn [fold_left].
  - destruct acc as [m|].
    + split; [now left|]. split; [intros d E; inversion E; lia|intros d []].
    + split; [reflexivity|intros d []].
  - match goal with |- context [fold_left ?f col ?a] => specialize (IH a) end.
    destruct (fold_left _ col _) as [m|].
    + destruct IH as (H1 & H2 & H3).
      destruct c as [d|], acc as [a|].
      * split; [|split].
        -- destruct H1 as [H1|H1]; [|right; now right].
           inversion H1. destruct (date_leb a d); [right; now left|now left].
        -- intros x E. inversion E. subst x.
           destruct (date_leb a d) eqn:L.
           ++ unfold date_leb in L. apply Z.leb_le in L.
              specialize (H2 d eq_refl). lia.
           ++ now apply H2.
        -- intros x [E|Hx]; [|now apply H3]. inversion E. subst x.
           destruct (date_leb a d) eqn:L.
           ++ now apply H2.
           ++ unfold date_leb in L. apply Z.leb_gt in L.
              specialize (H2 a eq_refl). lia.
      * split; [|split].
        -- destruct H1 as [H1|H1]; [|right; now right].
           inversion H1. right. now left.
        -- intros x E. discriminate.
        -- intros x [E|Hx]; [|now apply H3]. inversion E. subst x. now apply H2.
      * split; [|split].
        -- destruct H1 as [H1|H1]; [now left|right; now right].
        -- exact H2.
        -- intros x [E|Hx]; [discriminate|now apply H3].
      * split; [|split].
        -- destruct H1 as [H1|H1]; [now left|right; now right].
        -- exact H2.
        -- intros x [E|Hx]; [discriminate|now apply H3].
    + destruct IH as (H1 & H2).
      destruct c as [d|], acc as [a|]; try discriminate.
      split; [reflexivity|]. intros x [E|Hx]; [discriminate|]. now apply (H2 x).
Qed.

Lemma max_date_spec (col : list (option date)) :
  match max_date col with
  | None => forall d, ~ In (Some d) col
  | Some m => In (Some m) col /\ forall d, In (Some d) col -> toordinal d <= toordinal m
  end.
Proof.
  pose proof (max_date_fold col None) as H. cbv zeta in H. unfold max_date.
  destruct (fold_left _ col None) as [m|].
  - destruct H as ([H|H] & _ & H3); [discriminate|]. auto.
  - tauto.
Qed.

(** X5.  The latest day considered.  [latest_date] raises (here [None])
    exactly when no application of the segment has a date, the empty
    selection included: the maximum is then [NaT], which has no [strftime].
    Otherwise it is the [%Y-%m-%d] text of the date of some application of
    the segment, and no application of the segment is dated later. *)
Theorem latest_date_spec :
  forall (df_apps : list Application) (nat_ loc : string) (active_only : bool),
    (latest_date df_apps nat_ loc active_only = None <->
       forall a, In a (filter_applications df_apps nat_ loc active_only) ->
                 application_date a = None)
    /\ (forall s, latest_date df_apps nat_ loc active_only = Some s ->
          exists a d,
            In a (filter_applications df_apps nat_ loc active_only)
            /\ application_date a = Some d /\ s = strftime_Ymd d
            /\ forall a' d', In a' (filter_applications df_apps nat_ loc active_only) ->
                             application_date a' = Some d' ->
                             toordinal d' <= toordinal d).
Proof.
  intros df nat_ loc active_only. unfold latest_date, df_filtered.
  set (l := filter_applications df nat_ loc active_only).
  pose proof (max_date_spec (map application_date l)) as H.
  destruct (max_date (map application_date l)) as [m|]; cbn [option_map].
  - destruct H as [H1 H2]. apply in_map_iff in H1. destruct H1 as (a & Ea & Ha).
    split.
    + split; [discriminate|]. intros Hn. rewrite (Hn a Ha) in Ea. discriminate.
    + intros s E. inversion E. exists a, m. repeat split; auto.
      intros a' d' Ha' Ed'. apply H2. rewrite <- Ed'. now apply in_map.
  - split.
    + split; [|reflexivity]. intros _ a Ha.
      destruct (application_date a) as [d|] eqn:E; [|reflexivity].
      exfalso. apply (H d). rewrite <- E. now apply in_map.
    + intros s E. discriminate.
Qed.

(** *** Cells of the returned table *)


Lemma find_key_Some (l : list (label * list (option Z))) (k : label) r :
  NoDup (map fst l) -> In r l -> fst r = k ->
  find (fun r => label_eqb (fst r) k) l = Some r.
Proof.
  induction l as [|r0 l IH]; cbn [map find]; intros Hn Hin Hk; [destruct Hin|].
  inversion Hn as [|x xs Hx Hn']. subst x xs.
  destruct (label_eqb (fst r0) k) eqn:E.
  - apply label_eqb_eq in E. destruct Hin as [->|Hin]; [reflexivity|].
    exfalso. apply Hx. rewrite E, <- Hk. now apply in_map.
  - destruct Hin as [->|Hin].
    + rewrite Hk, label_eqb_refl in E. discriminate.
    + now apply IH.
Qed.

Lemma find_key_perm (l l' : list (label * list (option Z))) (k : label) :
  Permutation l l' -> NoDup (map fst l) ->
  find (fun r => label_eqb (fst r) k) l' = find (fun r => label_eqb (fst r) k) l.
Proof.
  intros Hp Hn.
  assert (Hn' : NoDup (map fst l')).
  { eapply Permutation_NoDup; [|exact Hn]. now apply Permutation_map. }
  destruct (find _ l) as [r|] eqn:E.
  - apply find_some in E. destruct E as [Hin Hk]. apply label_eqb_eq in Hk.
    apply find_key_Some; auto. eapply Permutation_in; eauto.
  - destruct (find _ l') as [r'|] eqn:E'; [|reflexivity].
    apply find_some in E'. destruct E' as [Hin Hk].
    apply (Permutation_in _ (Permutation_sym Hp)) in Hin.
    pose proof (find_none _ _ E _ Hin) as Hc. cbv beta in Hc. congruence.
Qed.

Lemma find_map_fst (g : label * list (option Z) -> label * list (option Z))
    (l : list (label * list (option Z))) (k : label) :
  (forall r, fst (g r) = fst r) ->
  find (fun r => label_eqb (fst r) k) (map g l)
  = option_map g (find (fun r => label_eqb (fst r) k) l).
Proof.
  intros Hg. induction l as [|r l IH]; cbn [map find option_map]; [reflexivity|].
  rewrite Hg. destruct (label_eqb (fst r) k); [reflexivity|exact IH].
Qed.

Lemma index_of_lt (y : Z) (l : list Z) (j : nat) :
  index_of y l = Some j -> (j < List.length l)%nat /\ nth j l y = y.
Proof.
  intros H. apply index_of_nth in H. split.
  - apply nth_error_Some. congruence.
  - now apply nth_error_nth.
Qed.

Lemma nth_set_col (cols : list Z) (cells : list (option Z)) (y y' : Z) (j : nat) :
  List.length cells = List.length cols ->
  index_of y' cols = Some j ->
  nth j (map (fun cv : Z * option Z => if fst cv =? y then None else snd cv)
             (combine cols cells)) None
  = if y' =? y then None else nth j cells None.
Proof.
  intros Hlen Hj. apply index_of_lt in Hj. destruct Hj as [Hlt Hnth].
  set (f := fun cv : Z * option Z => if fst cv =? y then None else snd cv).
  rewrite (nth_indep (map f (combine cols cells)) None (f (y', None)))
    by (rewrite length_map, length_combine; lia).
  rewrite map_nth, combine_nth by auto.
  unfold f. cbn [fst snd]. rewrite Hnth. reflexivity.
Qed.

Lemma cell_set_nan (mask : label -> bool) (y : Z) (t : Pivot) (k : label) (y' : Z) :
  well_formed t ->
  cell (set_nan mask y t) k y'
  = if (y' =? y) && mask k then None else cell t k y'.
Proof.
  intros Hwf. unfold cell, set_nan. cbn [rows columns].
  rewrite find_map_fst by (intros r; destruct (mask (fst r)); reflexivity).
  destruct (find _ (rows t)) as [r|] eqn:E; cbn [option_map].
  - apply find_some in E. destruct E as [Hin Hk]. apply label_eqb_eq in Hk.
    destruct (index_of y' (columns t)) as [j|] eqn:Ej.
    + rewrite Hk. destruct (mask k); cbn [snd].
      * rewrite (nth_set_col _ _ y y') by auto.
        destruct (y' =? y); reflexivity.
      * rewrite andb_false_r. reflexivity.
    + destruct (mask (fst r)); destruct ((y' =? y) && mask k); reflexivity.
  - destruct ((y' =? y) && mask k); reflexivity.
Qed.

Lemma cell_sort_index (t t' : Pivot) (k : label) (y : Z) :
  sort_index t = Some t' -> NoDup (index t) -> cell t' k y = cell t k y.
Proof.
  intros Hs Hn. apply sort_index_rows in Hs. destruct Hs as [Hc Hp].
  unfold cell. rewrite Hc. rewrite (find_key_perm (rows t) (rows t')); auto.
  now apply Permutation_sym.
Qed.

Lemma pivot_NoDup (lv : level) (g : list (label * Z * Z)) : NoDup (index (pivot lv g)).
Proof.
  rewrite pivot_index. apply sort_by_NoDup, (uniq_NoDup _ label_eqb_eq).
Qed.

Lemma pivot_well_formed (lv : level) (g : list (label * Z * Z)) : well_formed (pivot lv g).
Proof.
  intros r Hr. unfold pivot in Hr. cbn [rows columns] in *.
  apply in_map_iff in Hr. destruct Hr as (k & <- & _). cbn [snd].
  unfold pivot. cbn [columns]. apply length_map.
Qed.

(** The table returned by [prepare_grouped], in terms of the table before
    masking and the mask. *)
Lemma prepare_grouped_unfold (obs : bool) (df : list Application) (lv : level)
    (ty ly : Z) (today : date) :
  let P := pivoted_before_mask obs df lv ty ly in
  let Q := if existsb (Z.eqb ty) (columns P)
           then set_nan (masked df lv ty ly today) ty P else P in
  grouped_pivot obs df lv ty ly today
  = match lv with M => Some Q | _ => sort_index Q end.
Proof.
  cbv zeta. unfold grouped_pivot, pivoted_before_mask. cbv zeta.
  destruct lv; reflexivity.
Qed.

Lemma prepare_grouped_rows (obs : bool) (df : list Application) (lv : level)
    (ty ly : Z) (today : date) (t : Pivot) :
  grouped_pivot obs df lv ty ly today = Some t ->
  let P := pivoted_before_mask obs df lv ty ly in
  let Q := if existsb (Z.eqb ty) (columns P)
           then set_nan (masked df lv ty ly today) ty P else P in
  columns t = columns P /\ Permutation (rows t) (rows Q) /\ index Q = index P
  /\ (sort_index Q = Some t \/ t = Q).
Proof.
  intros H. cbv zeta. rewrite prepare_grouped_unfold in H. cbv zeta in H.
  set (P := pivoted_before_mask obs df lv ty ly) in *.
  set (Q := if existsb (Z.eqb ty) (columns P)
            then set_nan (masked df lv ty ly today) ty P else P) in *.
  assert (HQ : columns Q = columns P /\ index Q = index P).
  { unfold Q. destruct (existsb _ _); [|tauto]. split; [reflexivity|apply set_nan_index]. }
  destruct HQ as [HQc HQi].
  assert (Hc : (sort_index Q = Some t \/ t = Q)).
  { destruct lv; [right; congruence|now left|now left]. }
  destruct Hc as [Hs | ->].
  - pose proof (sort_index_rows _ _ Hs) as [Hc Hp]. repeat split; auto; congruence.
  - repeat split; auto.
Qed.

Lemma cell_prepare_grouped (obs : bool) (df : list Application) (lv : level)
    (ty ly : Z) (today : date) (t : Pivot) (k : label) (y : Z) :
  grouped_pivot obs df lv ty ly today = Some t ->
  cell t k y
  = if (y =? ty) && masked df lv ty ly today k then None
    else cell (pivoted_before_mask obs df lv ty ly) k y.
Proof.
  intros H.
  pose proof (prepare_grouped_rows _ _ _ _ _ _ _ H) as (Hc & Hp & Hi & Hs). cbv zeta in *.
  set (P := pivoted_before_mask obs df lv ty ly) in *.
  set (Q := if existsb (Z.eqb ty) (columns P)
            then set_nan (masked df lv ty ly today) ty P else P) in *.
  assert (HnQ : NoDup (index Q)) by (rewrite Hi; apply pivot_NoDup).
  assert (Ht : cell t k y = cell Q k y).
  { destruct Hs as [Hs | ->]; [now apply cell_sort_index|reflexivity]. }
  rewrite Ht. unfold Q.
  destruct (existsb (Z.eqb ty) (columns P)) eqn:E.
  - apply cell_set_nan, pivot_well_formed.
  - destruct (y =? ty) eqn:Ey; cbn [andb]; [|reflexivity].
    apply Z.eqb_eq in Ey. subst y.
    destruct (masked df lv ty ly today k); [|reflexivity].
    apply (absent_column_cell P P); auto.
Qed.

(** X6.  Every cell of the returned table.  Whenever [prepare_grouped]
    returns a table, its cell at key [k] and year [y] is absent if [y] is
    the current year and [k] is a masked key, and is otherwise the cell of
    the table built before masking: the mask touches the current-year column
    only, the prior-year column keeps every count, and the final sort moves
    rows without changing them. *)
Theorem prepare_grouped_cells :
  forall (observed : bool) (df : list Application) (lv : level)
         (this_year last_year : Z) (today : date) (t : Pivot),
    prepare_grouped observed df lv this_year last_year today = Some t ->
    forall (k : label) (y : Z),
      cell t k y
      = if (y =? this_year) && masked df lv this_year last_year today k then None
        else cell (pivoted_before_mask observed df lv this_year last_year) k y.
Proof.
  intros obs df lv ty ly today t H k y.
  apply cell_prepare_grouped. now apply prepare_grouped_Some.
Qed.

Lemma prepare_grouped_cells_witness :
  exists t,
    prepare_grouped true [app_on 2024 1 5; app_on 2024 12 20; app_on 2023 1 5] D 2024 2023
                    (mkdate 2024 3 1) = Some t
    /\ forall k y,
        cell t k y
        = if (y =? 2024)
             && masked [app_on 2024 1 5; app_on 2024 12 20; app_on 2023 1 5] D 2024 2023
                       (mkdate 2024 3 1) k
          then None
          else cell (pivoted_before_mask true
                       [app_on 2024 1 5; app_on 2024 12 20; app_on 2023 1 5] D 2024 2023) k y.
Proof.
  eexists. split; [vm_compute; reflexivity|].
  apply (prepare_grouped_cells true [app_on 2024 1 5; app_on 2024 12 20; app_on 2023 1 5]
           D 2024 2023 (mkdate 2024 3 1)).
  vm_compute. reflexivity.
Defined.

(** *** Columns and rows of the returned table *)

Lemma pivot_columns_In (lv : level) (g : list (label * Z * Z)) (y : Z) :
  In y (columns (pivot lv g)) <-> exists k n, In (k, y, n) g.
Proof.
  unfold pivot. cbn [columns].
  rewrite sort_by_In, (uniq_In _ Z.eqb_eq), in_map_iff. split.
  - intros ([[k y'] n] & <- & H). now exists k, n.
  - intros (k & n & H). now exists (k, y, n).
Qed.

Lemma premask_columns_In (obs : bool) (df : list Application) (lv : level)
    (ty ly : Z) (y : Z) :
  In y (columns (pivoted_before_mask obs df lv ty ly))
  <-> In y (map row_year (with_period lv ty ly df)).
Proof.
  unfold pivoted_before_mask. rewrite pivot_columns_In. split.
  - intros (k & n & H). apply groupby_size_In in H. tauto.
  - intros H. destruct (all_categories obs lv) eqn:E.
    + exists (LStr "Jan"), (group_size (with_period lv ty ly df) (LStr "Jan") y).
      apply groupby_size_In. rewrite E. repeat split; auto. cbn. tauto.
    + pose proof H as H'. apply in_map_iff in H'. destruct H' as (r & <- & Hr).
      exists (row_period r), (group_size (with_period lv ty ly df) (row_period r) (row_year r)).
      apply groupby_size_In. rewrite E. repeat split; auto.
      * now apply in_map.
      * now apply group_size_pos.
Qed.

Lemma Sorted_Zleb (l : list Z) :
  Sorted (fun a b => (a <=? b) = true) l -> Sorted Z.le l.
Proof.
  induction 1 as [|a l Hs IH Hh]; constructor; auto.
  destruct Hh; constructor. now apply Z.leb_le.
Qed.

(** X7.  The columns of the returned table.  A year is a column exactly
    when it is the current or the prior year and some application is dated
    in it: a year without applications has no column at all (and [plot_chart]
    then draws no line for it).  The columns are distinct and ascending, and
    every row has one cell per column. *)
Theorem prepare_grouped_columns :
  forall (observed : bool) (df : list Application) (lv : level)
         (this_year last_year : Z) (today : date) (t : Pivot),
    prepare_grouped observed df lv this_year last_year today = Some t ->
    (forall y, In y (columns t) <->
               (y = this_year \/ y = last_year)
               /\ exists a d, In a df /\ application_date a = Some d /\ year d = y)
    /\ NoDup (columns t) /\ Sorted Z.le (columns t)
    /\ (forall r, In r (rows t) -> List.length (snd r) = List.length (columns t)).
Proof.
  intros obs df lv ty ly today t H. apply prepare_grouped_Some in H.
  pose proof (prepare_grouped_rows _ _ _ _ _ _ _ H) as (Hc & Hp & Hi & Hs). cbv zeta in *.
  rewrite Hc. split; [|split; [|split]].
  - intros y. rewrite premask_columns_In. apply year_present.
  - unfold pivoted_before_mask, pivot. cbn [columns].
    apply sort_by_NoDup, (uniq_NoDup _ Z.eqb_eq).
  - unfold pivoted_before_mask, pivot. cbn [columns].
    apply Sorted_Zleb, sort_by_sorted, Zleb_total.
  - intros r Hr. apply (Permutation_in _ Hp) in Hr.
    set (P := pivoted_before_mask obs df lv ty ly) in *.
    pose proof (pivot_well_formed lv
                  (groupby_size obs lv (with_period lv ty ly df))) as Hwf.
    fold (pivoted_before_mask obs df lv ty ly) in Hwf. fold P in Hwf.
    destruct (existsb (Z.eqb ty) (columns P)); [|now apply Hwf].
    unfold set_nan in Hr. cbn [rows] in Hr. apply in_map_iff in Hr.
    destruct Hr as (r0 & <- & Hr0). specialize (Hwf r0 Hr0).
    destruct (masked df lv ty ly today (fst r0)); [|exact Hwf].
    cbn [snd]. rewrite length_map, length_combine. lia.
Qed.

Lemma prepare_grouped_columns_witness :
  exists t,
    prepare_grouped true [app_on 2024 1 5; app_on 2024 12 20] W 2024 2023
                    (mkdate 2024 3 1) = Some t
    /\ NoDup (columns t) /\ Sorted Z.le (columns t).
Proof.
  eexists. split; [vm_compute; reflexivity|].
  match goal with
  | |- NoDup (columns ?t) /\ _ =>
      assert (E : prepare_grouped true [app_on 2024 1 5; app_on 2024 12 20] W 2024 2023
                    (mkdate 2024 3 1) = Some t) by (vm_compute; reflexivity);
      destruct (prepare_grouped_columns _ _ _ _ _ _ _ E) as (_ & H1 & H2 & _)
  end.
  split; assumption.
Defined.

Lemma premask_index_In (obs : bool) (df : list Application) (lv : level)
    (ty ly : Z) (k : label) :
  In k (index (pivoted_before_mask obs df lv ty ly)) <->
  if all_categories obs lv
  then In k (map LStr month_abbrs)
       /\ exists a d, In a df /\ application_date a = Some d /\ (year d = ty \/ year d = ly)
  else exists a d, In a df /\ application_date a = Some d /\ (year d = ty \/ year d = ly)
                   /\ k = period_of lv d.
Proof.
  unfold pivoted_before_mask. rewrite pivot_index_In.
  destruct (all_categories obs lv) eqn:E.
  - split.
    + intros (y & n & H). apply groupby_size_In in H. rewrite E in H.
      destruct H as (Hy & _ & Hk). split; auto.
      apply in_map_iff in Hy. destruct Hy as (r & _ & Hr).
      apply with_period_In in Hr. destruct Hr as (a & d & Ha & Ed & Hy & _).
      now exists a, d.
    + intros (Hk & a & d & Ha & Ed & Hy).
      exists (year d), (group_size (with_period lv ty ly df) k (year d)).
      apply groupby_size_In. rewrite E. repeat split; auto.
      apply in_map_iff. exists (mkRow d (year d) (period_of lv d)). split; auto.
      apply with_period_In. now exists a, d.
  - split.
    + intros (y & n & H). apply groupby_size_In in H. rewrite E in H.
      destruct H as (_ & _ & Hk & _).
      apply in_map_iff in Hk. destruct Hk as (r & <- & Hr).
      apply with_period_In in Hr. destruct Hr as (a & d & Ha & Ed & Hy & ->).
      now exists a, d.
    + intros (a & d & Ha & Ed & Hy & ->).
      set (r := mkRow d (year d) (period_of lv d)).
      assert (Hr : In r (with_period lv ty ly df))
        by (apply with_period_In; now exists a, d).
      exists (year d), (group_size (with_period lv ty ly df) (row_period r) (row_year r)).
      apply groupby_size_In. rewrite E. repeat split.
      * change (year d) with (row_year r). now apply in_map.
      * change (period_of lv d) with (row_period r). now apply in_map.
      * now apply group_size_pos.
Qed.

Lemma prepare_grouped_index_spec :
  forall (observed : bool) (df : list Application) (lv : level)
         (this_year last_year : Z) (today : date) (t : Pivot),
    grouped_pivot observed df lv this_year last_year today = Some t ->
    NoDup (index t)
    /\ Permutation (index t) (index (pivoted_before_mask observed df lv this_year last_year))
    /\ forall k, In k (index t) <->
         if all_categories observed lv
         then In k (map LStr month_abbrs)
              /\ exists a d, In a df /\ application_date a = Some d
                             /\ (year d = this_year \/ year d = last_year)
         else exists a d, In a df /\ application_date a = Some d
                          /\ (year d = this_year \/ year d = last_year)
                          /\ k = period_of lv d.
Proof.
  intros obs df lv ty ly today t H.
  pose proof (prepare_grouped_rows _ _ _ _ _ _ _ H) as (Hc & Hp & Hi & Hs). cbv zeta in *.
  assert (Hperm : Permutation (index t) (index (pivoted_before_mask obs df lv ty ly))).
  { rewrite <- Hi. unfold index. now apply Permutation_map. }
  split; [|split; [exact Hperm|]].
  - eapply Permutation_NoDup; [apply Permutation_sym; exact Hperm|].
    apply pivot_NoDup.
  - intros k. rewrite <- premask_index_In. split; apply Permutation_in; auto.
    now apply Permutation_sym.
Qed.

(** X8.  The rows of the returned table.  Masking and sorting remove no
    row and add none: the index of the result is a rearrangement of the
    index before masking, without repetition.  Its keys are the periods of
    the applications dated in one of the two years; when the grouping lays
    out every month category, they are the twelve months as soon as one such
    application exists. *)
Theorem prepare_grouped_index :
  forall (observed : bool) (df : list Application) (lv : level)
         (this_year last_year : Z) (today : date) (t : Pivot),
    prepare_grouped observed df lv this_year last_year today = Some t ->
    NoDup (index t)
    /\ Permutation (index t) (index (pivoted_before_mask observed df lv this_year last_year))
    /\ forall k, In k (index t) <->
         if all_categories observed lv
         then In k (map LStr month_abbrs)
              /\ exists a d, In a df /\ application_date a = Some d
                             /\ (year d = this_year \/ year d = last_year)
         else exists a d, In a df /\ application_date a = Some d
                          /\ (year d = this_year \/ year d = last_year)
                          /\ k = period_of lv d.
Proof.
  intros obs df lv ty ly today t H.
  apply (prepare_grouped_index_spec obs df lv ty ly today t).
  now apply prepare_grouped_Some.
Qed.

Lemma prepare_grouped_index_witness :
  exists t,
    prepare_grouped true [app_on 2024 1 5; app_on 2024 12 20] W 2024 2023
                    (mkdate 2024 3 1) = Some t
    /\ NoDup (index t).
Proof.
  eexists. split; [vm_compute; reflexivity|].
  match goal with
  | |- NoDup (index ?t) =>
      assert (E : prepare_grouped true [app_on 2024 1 5; app_on 2024 12 20] W 2024 2023
                    (mkdate 2024 3 1) = Some t) by (vm_compute; reflexivity);
      exact (proj1 (prepare_grouped_index _ _ _ _ _ _ _ E))
  end.
Defined.

(** *** ISO weeks *)

Lemma isoweek1monday_spec (y : Z) :
  let firstday := days_before_year y + 1 in
  firstday - 3 <= isoweek1monday y <= firstday + 3
  /\ isoweek1monday y mod 7 = 1.
Proof.
  cbv zeta. unfold isoweek1monday, toordinal. cbn [year month day].
  change (days_before_month y 1) with (0 + (if (2 <? 1) && is_leap y then 1 else 0)).
  cbn [Z.ltb Z.compare andb Pos.compare Pos.compare_cont].
  set (f := days_before_year y + (0 + 0) + 1).
  assert (Hf : f = days_before_year y + 1) by (unfold f; lia).
  clearbody f.
  destruct (3 <? (f + 6) mod 7) eqn:E;
    [apply Z.ltb_lt in E|apply Z.ltb_ge in E]; Z.div_mod_to_equations; lia.
Qed.

Lemma toordinal_in_year (d : date) :
  valid_date d ->
  days_before_year (year d) + 1 <= toordinal d
  <= days_before_year (year d) + gregorian_year_length (year d).
Proof.
  intros [Hm Hd]. unfold toordinal.
  pose proof (days_before_month_nonneg (year d) (month d) Hm).
  pose proof (days_in_year (year d) (month d) Hm). lia.
Qed.

Lemma year_length_cases (y : Z) :
  gregorian_year_length y = 365 \/ gregorian_year_length y = 366.
Proof. unfold gregorian_year_length. destruct (is_leap y); auto. Qed.

Lemma isoweek_range (d : date) : valid_date d -> 1 <= isoweek d <= 53.
Proof.
  intros Hv. pose proof (toordinal_in_year d Hv) as Ho.
  pose proof (isoweek1monday_spec (year d)) as [H0 M0].
  pose proof (isoweek1monday_spec (year d - 1)) as [H1 M1].
  pose proof (days_before_year_succ (year d - 1)) as Hs.
  replace (year d - 1 + 1) with (year d) in Hs by lia.
  pose proof (year_length_cases (year d)) as L0.
  pose proof (year_length_cases (year d - 1)) as L1.
  cbv zeta in *. unfold isoweek.
  set (o := toordinal d) in *.
  set (w0 := isoweek1monday (year d)) in *.
  set (w1 := isoweek1monday (year d - 1)) in *.
  set (w2 := isoweek1monday (year d + 1)) in *.
  set (b0 := days_before_year (year d)) in *.
  set (b1 := days_before_year (year d - 1)) in *.
  set (g0 := gregorian_year_length (year d)) in *.
  set (g1 := gregorian_year_length (year d - 1)) in *.
  clearbody o w0 w1 w2 b0 b1 g0 g1.
  destruct ((o - w0) / 7 <? 0) eqn:E1;
    [apply Z.ltb_lt in E1|apply Z.ltb_ge in E1].
  - Z.div_mod_to_equations. lia.
  - destruct ((52 <=? (o - w0) / 7) && (w2 <=? o)); [lia|].
    Z.div_mod_to_equations. lia.
Qed.

Lemma label_forms :
  forall (observed : bool) (df : list Application) (lv : level)
         (this_year last_year : Z) (today : date) (t : Pivot),
    valid_apps df ->
    grouped_pivot observed df lv this_year last_year today = Some t ->
    forall k, In k (index t) ->
      match lv with
      | M => exists s, k = LStr s /\ In s month_abbrs
      | W => exists w, k = LInt w /\ 1 <= w <= 53
      | D => exists d, valid_date d /\ k = LStr (strftime_dm d)
      end.
Proof.
  intros obs df lv ty ly today t Hv H k Hk.
  apply (prepare_grouped_index_spec _ _ _ _ _ _ _ H) in Hk.
  destruct (all_categories obs lv) eqn:E.
  - destruct lv; try discriminate. destruct Hk as [Hk _].
    apply in_map_iff in Hk. destruct Hk as (s & <- & Hs). now exists s.
  - destruct Hk as (a & d & Ha & Ed & _ & ->).
    pose proof (valid_apps_In _ _ _ Hv Ha Ed) as Hd.
    destruct lv; cbn [period_of].
    + exists (strftime_b d). split; auto. apply strftime_b_month, Hd.
    + exists (isoweek d). split; auto. now apply isoweek_range.
    + now exists d.
Qed.

(** X9.  The shape of the keys.  For applications with real calendar
    dates, every key of the month table is one of the twelve English month
    abbreviations, every key of the week table is an integer from 1 to 53,
    and every key of the day table is the ["%d/%m"] text of a real date. *)
Theorem prepare_grouped_labels :
  forall (observed : bool) (df : list Application) (lv : level)
         (this_year last_year : Z) (today : date) (t : Pivot),
    valid_apps df ->
    prepare_grouped observed df lv this_year last_year today = Some t ->
    forall k, In k (index t) ->
      match lv with
      | M => exists s, k = LStr s /\ In s month_abbrs
      | W => exists w, k = LInt w /\ 1 <= w <= 53
      | D => exists d, valid_date d /\ k = LStr (strftime_dm d)
      end.
Proof.
  intros obs df lv ty ly today t Hv H.
  apply (label_forms obs df lv ty ly today t Hv). now apply prepare_grouped_Some.
Qed.

Lemma prepare_grouped_labels_witness :
  exists w, LInt 51 = LInt w /\ 1 <= w <= 53.
Proof.
  apply (prepare_grouped_labels true [app_on 2024 1 5; app_on 2024 12 20] W 2024 2023
           (mkdate 2024 3 1)
           (mkPivot [2024] [(LInt 1, [Some 1]); (LInt 51, [None])])).
  - apply (valid_apps_sample [(2024, 1, 5); (2024, 12, 20)]). reflexivity.
  - vm_compute. reflexivity.
  - cbn. auto.
Defined.

(** *** Column totals *)

Lemma filter_none {A} (f : A -> bool) (l : list A) :
  (forall x, In x l -> f x = false) -> filter f l = [].
Proof.
  induction l as [|x l IH]; intros H; cbn [filter]; [reflexivity|].
  rewrite (H x (or_introl eq_refl)). apply IH. intros y Hy. apply H. now right.
Qed.


Lemma zsum_app (l l' : list Z) : zsum (l ++ l') = zsum l + zsum l'.
Proof. unfold zsum. induction l; cbn [app fold_right]; lia. Qed.

Lemma zsum_perm (l l' : list Z) : Permutation l l' -> zsum l = zsum l'.
Proof. unfold zsum. induction 1; cbn [fold_right]; lia. Qed.

Lemma column_sum_rows (t : Pivot) (y : Z) :
  column_sum t y
  = match index_of y (columns t) with
    | Some j => zsum (map (fun r => cell_value (nth j (snd r) None)) (rows t))
    | None => 0
    end.
Proof.
  unfold column_sum, column. destruct (index_of y (columns t)); [|reflexivity].
  rewrite map_map. reflexivity.
Qed.

Lemma column_sum_perm (t t' : Pivot) (y : Z) :
  columns t' = columns t -> Permutation (rows t') (rows t) ->
  column_sum t' y = column_sum t y.
Proof.
  intros Hc Hp. rewrite !column_sum_rows, Hc.
  destruct (index_of y (columns t)); [|reflexivity].
  apply zsum_perm. now apply Permutation_map.
Qed.

Lemma column_sum_set_nan (mask : label -> bool) (y : Z) (t : Pivot) (y' : Z) :
  well_formed t ->
  column_sum (set_nan mask y t) y'
  = match index_of y' (columns t) with
    | Some j => zsum (map (fun r => if (y' =? y) && mask (fst r) then 0
                                    else cell_value (nth j (snd r) None)) (rows t))
    | None => 0
    end.
Proof.
  intros Hwf. rewrite column_sum_rows. unfold set_nan. cbn [rows columns].
  destruct (index_of y' (columns t)) as [j|] eqn:Ej; [|reflexivity].
  rewrite map_map. f_equal. apply map_ext_in. intros r Hr.
  destruct (mask (fst r)); cbn [snd].
  - rewrite (nth_set_col _ _ y y') by auto.
    destruct (y' =? y); reflexivity.
  - rewrite andb_false_r. reflexivity.
Qed.

Lemma pivot_row_value (lv : level) (g : list (label * Z * Z)) (y : Z) (j : nat) r :
  index_of y (columns (pivot lv g)) = Some j ->
  In r (rows (pivot lv g)) ->
  nth j (snd r) None = lookup_group g (fst r) y.
Proof.
  intros Hj Hr.
  assert (Hrow : exists k, r = (k, map (lookup_group g k) (columns (pivot lv g)))).
  { unfold pivot in Hr. cbn [rows] in Hr. apply in_map_iff in Hr.
    destruct Hr as (k & <- & _). now exists k. }
  destruct Hrow as (k & ->). cbn [fst snd].
  apply index_of_lt in Hj. destruct Hj as [Hlt Hnth].
  rewrite (nth_indep _ None (lookup_group g k y)) by (rewrite length_map; exact Hlt).
  rewrite map_nth. now rewrite Hnth.
Qed.

Lemma zsum_filter {A} (m : A -> bool) (f : A -> Z) (l : list A) :
  zsum (map (fun k => if m k then 0 else f k) l)
  = zsum (map f (filter (fun k => negb (m k)) l)).
Proof.
  unfold zsum. induction l as [|k l IH]; cbn [map filter fold_right]; [reflexivity|].
  destruct (m k); cbn [negb map fold_right]; lia.
Qed.

Lemma count_split {A} (p q : A -> bool) (l : list A) :
  (forall x, In x l -> p x = true -> q x = true -> False) ->
  Z.of_nat (List.length (filter (fun x => p x || q x) l))
  = Z.of_nat (List.length (filter p l)) + Z.of_nat (List.length (filter q l)).
Proof.
  induction l as [|x l IH]; intros H; cbn [filter]; [reflexivity|].
  assert (IH' := IH (fun x Hx => H x (or_intror Hx))).
  destruct (p x) eqn:Ep, (q x) eqn:Eq; cbn [orb List.length]; try lia.
  exfalso. apply (H x); auto. now left.
Qed.

Lemma sum_group_size (ks : list label) (rows : list Row) (y : Z) :
  NoDup ks ->
  zsum (map (fun k => group_size rows k y) ks)
  = Z.of_nat (List.length
      (filter (fun r => (row_year r =? y) && label_in (row_period r) ks) rows)).
Proof.
  induction 1 as [|k ks Hk Hn IH]; unfold zsum; cbn [map fold_right].
  - replace (filter _ rows) with (@nil Row); [reflexivity|].
    symmetry. induction rows as [|r rows IHr]; cbn; auto.
    now rewrite andb_false_r.
  - fold (zsum (map (fun k => group_size rows k y) ks)). rewrite IH.
    unfold group_size.
    rewrite <- count_split.
    + f_equal. f_equal. apply filter_ext. intros r. cbn [label_in existsb].
      destruct (row_year r =? y); cbn [andb]; [|now rewrite andb_false_r].
      rewrite andb_true_r. reflexivity.
    + intros r _ H1 H2. apply andb_true_iff in H1, H2.
      destruct H1 as [H1 _]. destruct H2 as [_ H2].
      apply label_eqb_eq in H1. apply label_in_In in H2. congruence.
Qed.

Lemma with_period_count (lv : level) (ty ly : Z) (df : list Application)
    (p : Row -> bool) :
  List.length (filter p (with_period lv ty ly df))
  = List.length (filter (fun a =>
      match application_date a with
      | Some d => existsb (Z.eqb (year d)) [ty; ly]
                  && p (mkRow d (year d) (period_of lv d))
      | None => false
      end) df).
Proof.
  unfold with_period.
  induction df as [|a df IH]; cbn [flat_map filter]; [reflexivity|].
  rewrite filter_app, length_app, IH.
  destruct (application_date a) as [d|]; [|reflexivity].
  destruct (existsb (Z.eqb (year d)) [ty; ly]); cbn [andb filter]; [|reflexivity].
  destruct (p _); reflexivity.
Qed.

(** The total of a column of the returned table, as a count of rows of the
    working frame. *)
Lemma column_sum_count (obs : bool) (df : list Application) (lv : level)
    (ty ly : Z) (today : date) (t : Pivot) (y : Z) :
  valid_apps df ->
  grouped_pivot obs df lv ty ly today = Some t ->
  column_sum t y
  = Z.of_nat (List.length (filter (fun a =>
      match application_date a with
      | Some d => existsb (Z.eqb (year d)) [ty; ly] && (year d =? y)
                  && negb ((y =? ty) && masked df lv ty ly today (period_of lv d))
      | None => false
      end) df)).
Proof.
  intros Hv H.
  pose proof (prepare_grouped_rows _ _ _ _ _ _ _ H) as (Hc & Hp & Hi & _). cbv zeta in *.
  set (P := pivoted_before_mask obs df lv ty ly) in *.
  set (rs := with_period lv ty ly df).
  set (m := fun k => (y =? ty) && masked df lv ty ly today k).
  assert (Hwf : well_formed P) by apply pivot_well_formed.
  (* the total over the rows of the table before sorting *)
  assert (HQ : column_sum t y
               = match index_of y (columns P) with
                 | Some j => zsum (map (fun r => if m (fst r) then 0
                                                 else cell_value (nth j (snd r) None))
                                       (rows P))
                 | None => 0
                 end).
  { destruct (existsb (Z.eqb ty) (columns P)) eqn:E.
    - rewrite (column_sum_perm (set_nan (masked df lv ty ly today) ty P) t) by auto.
      now apply column_sum_set_nan.
    - rewrite (column_sum_perm P t) by auto. rewrite column_sum_rows.
      destruct (index_of y (columns P)) as [j|] eqn:Ej; [|reflexivity].
      f_equal. apply map_ext. intros r. unfold m.
      destruct (y =? ty) eqn:Ey; [|reflexivity].
      apply Z.eqb_eq in Ey. subst y.
      assert (Hin : In ty (columns P)).
      { apply index_of_nth in Ej. eapply nth_error_In; eauto. }
      apply existsb_Zeqb in Hin. congruence. }
  rewrite HQ. clear HQ.
  destruct (index_of y (columns P)) as [j|] eqn:Ej.
  - assert (Hy : In y (map row_year rs)).
    { apply (proj1 (premask_columns_In obs df lv ty ly y)).
      apply index_of_nth in Ej. eapply nth_error_In; eauto. }
    (* every cell holds the size of its group *)
    assert (Hcell : forall r, In r (rows P) ->
               cell_value (nth j (snd r) None) = group_size rs (fst r) y).
    { intros r Hr. unfold P, pivoted_before_mask in *.
      rewrite (pivot_row_value _ _ y j r Ej Hr), lookup_groupby. fold rs.
      destruct (all_categories obs lv) eqn:Ea.
      - assert (Hk : In (fst r) (map LStr month_abbrs)).
        { assert (Hidx : In (fst r) (index (pivot lv (groupby_size obs lv rs))))
            by (unfold index; now apply in_map).
          apply index_labels in Hidx. now rewrite Ea in Hidx. }
        apply label_in_In in Hk. apply existsb_Zeqb in Hy. rewrite Hk, Hy. reflexivity.
      - destruct (0 <? group_size rs (fst r) y) eqn:E0; cbn [cell_value]; [reflexivity|].
        apply Z.ltb_ge in E0. unfold group_size in *. lia. }
    rewrite (map_ext_in _ (fun r => if m (fst r) then 0 else group_size rs (fst r) y))
      by (intros r Hr; now rewrite Hcell).
    assert (Hmm : map (fun r => if m (fst r) then 0 else group_size rs (fst r) y) (rows P)
                  = map (fun k => if m k then 0 else group_size rs k y) (index P))
      by (unfold index; now rewrite map_map).
    rewrite Hmm, zsum_filter.
    rewrite sum_group_size by (apply NoDup_filter, pivot_NoDup).
    f_equal. unfold rs. rewrite with_period_count. f_equal.
    apply filter_ext_in. intros a Ha.
    destruct (application_date a) as [d|] eqn:Ed; [|reflexivity].
    destruct (existsb (Z.eqb (year d)) [ty; ly]) eqn:Ey; cbn [andb]; [|reflexivity].
    cbn [row_year row_period].
    destruct (year d =? y) eqn:Eyy; cbn [andb]; [|reflexivity].
    fold (m (period_of lv d)).
    assert (Hidx : In (period_of lv d) (index P)).
    { apply (proj2 (premask_index_In obs df lv ty ly (period_of lv d))).
      assert (Hyr : year d = ty \/ year d = ly).
      { cbn [existsb] in Ey. rewrite orb_false_r in Ey. apply orb_true_iff in Ey.
        rewrite !Z.eqb_eq in Ey. exact Ey. }
      destruct (all_categories obs lv) eqn:Ea.
      - split; [|now exists a, d].
        destruct lv; try discriminate. cbn [period_of]. apply in_map.
        apply strftime_b_month. apply (valid_apps_In _ _ _ Hv Ha Ed).
      - now exists a, d. }
    destruct (m (period_of lv d)) eqn:Em; cbn [negb].
    + apply not_true_is_false. intros Hc'. apply label_in_In, filter_In in Hc'.
      rewrite Em in Hc'. destruct Hc' as [_ Hc']. discriminate.
    + apply label_in_In, filter_In. rewrite Em. auto.
  - (* no column for that year: no row of that year *)
    apply index_of_None in Ej.
    assert (Ej' : ~ In y (map row_year rs))
      by (intros Hc'; apply Ej, (proj2 (premask_columns_In obs df lv ty ly y)), Hc').
    clear Ej. rename Ej' into Ej.
    replace (filter _ df) with (@nil Application); [reflexivity|].
    symmetry. apply filter_none. intros a Ha.
    destruct (application_date a) as [d|] eqn:Ed; [|reflexivity].
    destruct (existsb (Z.eqb (year d)) [ty; ly]) eqn:Ey; cbn [andb]; [|reflexivity].
    destruct (year d =? y) eqn:Eyy; cbn [andb]; [|reflexivity].
    exfalso. apply Ej. apply Z.eqb_eq in Eyy. subst y.
    apply in_map_iff. exists (mkRow d (year d) (period_of lv d)). split; [reflexivity|].
    apply with_period_In. exists a, d. repeat split; auto.
    cbn [existsb] in Ey. rewrite orb_false_r in Ey. apply orb_true_iff in Ey.
    rewrite !Z.eqb_eq in Ey. exact Ey.
Qed.

(** *** What the three masks blank *)

Lemma masked_M (df : list Application) (ty ly : Z) (today d : date) :
  1 <= month d <= 12 ->
  masked df M ty ly today (period_of M d) = negb (month d <=? month today).
Proof.
  intros Hm. unfold masked, period_of, strftime_b.
  destruct d as [y m dd]. cbn [month] in *.
  destruct (Z_le_dec (month today) 0) as [H0|H0].
  - replace (Z.to_nat (month today)) with 0%nat by lia. cbn [skipn].
    replace (m <=? month today) with false by (symmetry; apply Z.leb_gt; lia).
    cbn [negb]. apply label_in_In, in_map.
    apply (strftime_b_month (mkdate y m dd)). exact Hm.
  - destruct (Z_le_dec 12 (month today)) as [H12|H12].
    + rewrite skipn_all2 by (cbn; lia).
      replace (m <=? month today) with true by (symmetry; apply Z.leb_le; lia).
      reflexivity.
    + remember (month today) as n eqn:En. clear En.
      assert (Hn : 1 <= n <= 11) by lia. clear H0 H12.
      assert (Hc : n = 1 \/ n = 2 \/ n = 3 \/ n = 4 \/ n = 5 \/ n = 6 \/
                   n = 7 \/ n = 8 \/ n = 9 \/ n = 10 \/ n = 11) by lia.
      month_cases m Hm'; repeat (destruct Hc as [Hc|Hc]); subst n; reflexivity.
Qed.

Lemma masked_W (df : list Application) (ty ly : Z) (today d : date) :
  masked df W ty ly today (period_of W d) = negb (isoweek d <=? isoweek today).
Proof.
  unfold masked, period_of, label_gtb.
  destruct (isoweek d <=? isoweek today) eqn:E; cbn [negb];
    [apply Z.leb_le in E; apply Z.ltb_ge|apply Z.leb_gt in E; apply Z.ltb_lt]; lia.
Qed.

Lemma strftime_dm_inj (a b : date) :
  valid_date a -> valid_date b -> strftime_dm a = strftime_dm b ->
  month a = month b /\ day a = day b.
Proof.
  intros Ha Hb E.
  pose proof (sort_key_strftime_valid a Ha) as Ka.
  pose proof (sort_key_strftime_valid b Hb) as Kb.
  rewrite E in Ka. rewrite Ka in Kb. inversion Kb as [K].
  destruct Ha as [Ha1 Ha2], Hb as [Hb1 Hb2].
  pose proof (days_in_month_range (year a) (month a) Ha1).
  pose proof (days_in_month_range (year b) (month b) Hb1).
  lia.
Qed.

Lemma masked_D (df : list Application) (ty ly : Z) (today : date)
    (a : Application) (d : date) :
  valid_apps df -> In a df -> application_date a = Some d -> year d = ty ->
  masked df D ty ly today (period_of D d) = negb (date_leb d today).
Proof.
  intros Hv Ha Ed Hy. unfold masked. f_equal.
  pose proof (valid_apps_In _ _ _ Hv Ha Ed) as Hd.
  destruct (date_leb d today) eqn:L.
  - apply label_in_In, (uniq_In _ label_eqb_eq), in_map_iff.
    exists (mkRow d (year d) (period_of D d)). split; [reflexivity|].
    apply filter_In. split.
    + apply with_period_In. exists a, d. auto.
    + cbn [row_year row_date]. rewrite L, andb_true_r. now apply Z.eqb_eq.
  - apply not_true_is_false. intros Hc.
    apply label_in_In, (uniq_In _ label_eqb_eq), in_map_iff in Hc.
    destruct Hc as (r & Hr & Hin). apply filter_In in Hin. destruct Hin as [Hin Hcut].
    apply with_period_In in Hin. destruct Hin as (a0 & d0 & Ha0 & Ed0 & _ & ->).
    cbn [row_year row_date row_period period_of] in *.
    apply andb_true_iff in Hcut. destruct Hcut as [Hy0 L0]. apply Z.eqb_eq in Hy0.
    pose proof (valid_apps_In _ _ _ Hv Ha0 Ed0) as Hd0.
    assert (Es : strftime_dm d0 = strftime_dm d) by congruence.
    apply strftime_dm_inj in Es; auto. destruct Es as [Em Edd].
    assert (d0 = d).
    { clear - Hy Hy0 Em Edd. destruct d0, d. simpl in *. congruence. }
    subst d0. congruence.
Qed.

(** X10.  Column totals.  For applications with real calendar dates, the
    counts of the current-year column of the returned table add up to the
    number of applications dated in the current year whose period is not
    after today's: month number at most today's (month table), ISO week
    number at most today's (week table), date at most today (day table).
    The prior-year column adds up to all the applications dated in the prior
    year, and no other year is counted. *)
Theorem column_totals :
  forall (observed : bool) (df : list Application) (lv : level)
         (this_year last_year : Z) (today : date) (t : Pivot),
    valid_apps df ->
    prepare_grouped observed df lv this_year last_year today = Some t ->
    column_sum t this_year
    = Z.of_nat (List.length (filter (fun a =>
        match application_date a with
        | Some d => (year d =? this_year) && visible lv today d
        | None => false
        end) df))
    /\ (last_year <> this_year ->
        column_sum t last_year = Z.of_nat (List.length (dated_in last_year df)))
    /\ (forall y, y <> this_year -> y <> last_year -> column_sum t y = 0).
Proof.
  intros obs df lv ty ly today t Hv H. apply prepare_grouped_Some in H.
  split; [|split].
  - rewrite (column_sum_count _ _ _ _ _ _ _ _ Hv H). f_equal. f_equal.
    apply filter_ext_in. intros a Ha.
    destruct (application_date a) as [d|] eqn:Ed; [|reflexivity].
    cbn [existsb]. rewrite Z.eqb_refl. cbn [andb].
    rewrite (Z.eqb_sym (year d) ty).
    destruct (ty =? year d) eqn:Ey; cbn [orb andb].
    + f_equal. apply Z.eqb_eq in Ey.
      pose proof (valid_apps_In _ _ _ Hv Ha Ed) as Hd.
      destruct lv; cbn [visible].
      * rewrite masked_M by apply Hd. apply negb_involutive.
      * rewrite masked_W. apply negb_involutive.
      * rewrite (masked_D df ty ly today a d) by auto. apply negb_involutive.
    + now rewrite andb_false_r.
  - intros Hne. rewrite (column_sum_count _ _ _ _ _ _ _ _ Hv H). f_equal. f_equal.
    unfold dated_in. apply filter_ext. intros a.
    destruct (application_date a) as [d|]; [|reflexivity].
    replace (ly =? ty) with false by (symmetry; apply Z.eqb_neq; exact Hne).
    cbn [andb negb existsb]. rewrite andb_true_r, orb_false_r.
    destruct (year d =? ly); [now rewrite orb_true_r|now rewrite andb_false_r].
  - intros y Hy1 Hy2. rewrite (column_sum_count _ _ _ _ _ _ _ _ Hv H).
    rewrite filter_none; [reflexivity|]. intros a _.
    destruct (application_date a) as [d|]; [|reflexivity].
    cbn [existsb]. rewrite orb_false_r.
    destruct (year d =? y) eqn:E; [|now rewrite andb_false_r].
    apply Z.eqb_eq in E. subst y.
    replace (year d =? ty) with false by (symmetry; apply Z.eqb_neq; congruence).
    replace (year d =? ly) with false by (symmetry; apply Z.eqb_neq; congruence).
    reflexivity.
Qed.

Lemma column_totals_witness :
  exists t,
    prepare_grouped true [app_on 2024 1 5; app_on 2024 12 20; app_on 2023 1 5] D 2024 2023
                    (mkdate 2024 3 1) = Some t
    /\ column_sum t 2024 = 1.
Proof.
  eexists. split; [vm_compute; reflexivity|].
  match goal with
  | |- column_sum ?t _ = _ =>
      assert (E : prepare_grouped true [app_on 2024 1 5; app_on 2024 12 20; app_on 2023 1 5]
                    D 2024 2023 (mkdate 2024 3 1) = Some t) by (vm_compute; reflexivity);
      rewrite (proj1 (column_totals _ _ _ _ _ _ _
                 (valid_apps_sample [(2024, 1, 5); (2024, 12, 20); (2023, 1, 5)] eq_refl) E))
  end.
  vm_compute. reflexivity.
Defined.

(** *** Parsing a day key back: [safe_parse] *)

Lemma split_slash_aux_app (a b acc : string) :
  split_slash_aux (a ++ "/" ++ b)%string acc
  = split_slash_aux a acc ++ split_slash_aux b EmptyString.
Proof.
  revert acc. induction a as [|c a IH]; intros acc.
  - reflexivity.
  - cbn [String.append split_slash_aux].
    destruct (Ascii.eqb c "/"%char).
    + cbn [app]. f_equal. apply IH.
    + apply IH.
Qed.

Lemma split_slash_app (a b : string) :
  split_slash (a ++ "/" ++ b)%string = split_slash a ++ split_slash b.
Proof. apply split_slash_aux_app. Qed.

Lemma parse_round_trip_all : forallb parse_round_trip day_month_pairs = true.
Proof. vm_compute. reflexivity. Qed.

Lemma year_round_trip_all :
  forallb year_round_trip four_digit_years = true.
Proof. vm_compute. reflexivity. Qed.

Lemma parse_strftime_dm (d : date) :
  1 <= month d <= 12 -> 1 <= day d <= 31 ->
  exists a b,
    split_slash (strftime_dm d) = [a; b]
    /\ parse_d a = Some (day d) /\ parse_m b = Some (month d)
    /\ String.prefix "01/" (strftime_dm d) = (day d =? 1).
Proof.
  intros Hm Hd.
  assert (Hin : In (day d, month d) day_month_pairs).
  { apply in_prod; apply in_map_iff.
    - exists (Z.to_nat (day d)). split; [lia|]. apply in_seq. lia.
    - exists (Z.to_nat (month d)). split; [lia|]. apply in_seq. lia. }
  pose proof (proj1 (forallb_forall parse_round_trip day_month_pairs)
                parse_round_trip_all _ Hin) as H.
  unfold parse_round_trip in H.
  change (strftime_dm (mkdate 0 (snd (day d, month d)) (fst (day d, month d))))
    with (strftime_dm d) in H.
  change (fst (day d, month d)) with (day d) in H.
  change (snd (day d, month d)) with (month d) in H.
  destruct (split_slash (strftime_dm d)) as [|a [|b [|c l]]];
    cbv iota beta in H; try discriminate.
  destruct (parse_d a) as [d'|] eqn:Ea; [|discriminate].
  destruct (parse_m b) as [m'|] eqn:Eb; [|discriminate].
  apply andb_true_iff in H. destruct H as [H H3].
  apply andb_true_iff in H. destruct H as [H1 H2].
  apply Z.eqb_eq in H1, H2. apply Bool.eqb_prop in H3. subst d' m'.
  exists a, b. repeat split; auto.
Qed.

Lemma parse_year (y : Z) :
  1000 <= y <= 9999 ->
  exists c, split_slash (str_of_int y) = [c] /\ parse_Y c = Some y.
Proof.
  intros Hy.
  assert (Hin : In y four_digit_years).
  { apply in_map_iff. exists (Z.to_nat y). split; [lia|]. apply in_seq. lia. }
  pose proof (proj1 (forallb_forall year_round_trip _) year_round_trip_all _ Hin) as H.
  unfold year_round_trip in H.
  destruct (split_slash (str_of_int y)) as [|c [|c' l]];
    cbv iota beta in H; try discriminate.
  destruct (parse_Y c) as [y'|] eqn:Ec; [|discriminate].
  apply Z.eqb_eq in H. subst. now exists c.
Qed.

Lemma safe_parse_key (this_year : Z) (d : date) :
  1 <= month d <= 12 -> 1 <= day d <= 31 -> 1000 <= this_year <= 9999 ->
  safe_parse this_year (strftime_dm d)
  = if day d <=? days_in_month this_year (month d)
    then Some (mkdate this_year (month d) (day d)) else None.
Proof.
  intros Hm Hd Hy. unfold safe_parse, strptime_dmY.
  rewrite split_slash_app.
  destruct (parse_strftime_dm d Hm Hd) as (a & b & -> & Ha & Hb & _).
  destruct (parse_year this_year Hy) as (c & -> & Hc).
  cbn [app]. rewrite Ha, Hb, Hc. cbn [bind].
  replace (1 <=? this_year) with true by (symmetry; apply Z.leb_le; lia).
  reflexivity.
Qed.

(** *** The keys under the required-average line *)

Lemma future_x_D_In (t : Pivot) (ty : Z) (today : date) (x : label) :
  In x (future_x t ty D today) <->
  In x (index t) /\
  exists s p, x = LStr s /\ safe_parse ty s = Some p /\ toordinal today < toordinal p.
Proof.
  unfold future_x. cbv zeta. rewrite filter_In. split.
  - intros [Hin H]. split; auto. destruct x as [s|n]; [|discriminate].
    destruct (safe_parse ty s) as [p|] eqn:Ep; [|discriminate].
    apply Z.leb_le in H. exists s, p. split; [reflexivity|]. split; [exact Ep|lia].
  - intros [Hin (s & p & -> & Hp & Hlt)]. split; auto. rewrite Hp.
    apply Z.leb_le. lia.
Qed.

(** X11.  The required-average line of the day view.  With today's year
    printed in four digits, the keys under the line ([future_x]) are exactly
    the keys of the table that, read back with today's year by
    [strptime("%d/%m/%Y")], give a real date after today: a key such as
    29/02 coming from the prior year drops out when this year has no such
    day.  On every one of those keys the current-year series is blank. *)
Theorem future_x_days :
  forall (observed : bool) (df : list Application) (last_year : Z) (today : date)
         (t : Pivot),
    valid_apps df -> valid_date today -> 1000 <= year today <= 9999 ->
    prepare_grouped observed df D (year today) last_year today = Some t ->
    forall x,
      (In x (future_x t (year today) D today) <->
         In x (index t)
         /\ exists d, valid_date d /\ year d = year today
                      /\ x = LStr (strftime_dm d) /\ toordinal today < toordinal d)
      /\ (In x (future_x t (year today) D today) -> cell t x (year today) = None).
Proof.
  intros obs df ly today t Hv Ht Hy H x. apply prepare_grouped_Some in H.
  assert (Hiff : In x (future_x t (year today) D today) <->
             In x (index t)
             /\ exists d, valid_date d /\ year d = year today
                          /\ x = LStr (strftime_dm d) /\ toordinal today < toordinal d).
  { rewrite future_x_D_In. split.
    - intros [Hin (s & p & -> & Hp & Hlt)]. split; auto.
      pose proof (label_forms _ _ _ _ _ _ _ Hv H _ Hin) as (d0 & Hd0 & E).
      inversion E. subst s. clear E.
      pose proof Hd0 as [Hm0 Hdd0].
      pose proof (days_in_month_range (year d0) (month d0) Hm0).
      rewrite safe_parse_key in Hp by lia.
      destruct (day d0 <=? days_in_month (year today) (month d0)) eqn:El; [|discriminate].
      inversion Hp. subst p. apply Z.leb_le in El.
      exists (mkdate (year today) (month d0) (day d0)).
      split; [split; cbn [year month day]; lia|].
      split; [reflexivity|]. split; [reflexivity|exact Hlt].
    - intros [Hin (d & Hd & Ey & -> & Hlt)]. split; auto.
      exists (strftime_dm d), d. split; [reflexivity|]. split; [|exact Hlt].
      pose proof Hd as [Hm Hdd].
      pose proof (days_in_month_range (year d) (month d) Hm).
      rewrite safe_parse_key by lia. rewrite <- Ey.
      replace (day d <=? days_in_month (year d) (month d)) with true
        by (symmetry; apply Z.leb_le; lia).
      destruct d; reflexivity. }
  split; [exact Hiff|].
  intros Hx. apply Hiff in Hx. destruct Hx as [_ (d & Hd & Ey & -> & Hlt)].
  rewrite (cell_prepare_grouped _ _ _ _ _ _ _ _ _ H). rewrite Z.eqb_refl. cbn [andb].
  replace (masked df D (year today) ly today (LStr (strftime_dm d))) with true;
    [reflexivity|].
  symmetry. unfold masked. apply day_mask; auto.
  exists (month d * 100 + day d). split.
  - cbn [period_rank]. now apply sort_key_strftime_valid.
  - cbn [today_rank].
    pose proof (toordinal_same_year d today Hd Ht Ey). lia.
Qed.

Lemma future_x_days_witness :
  exists t,
    prepare_grouped true [app_on 2024 1 5; app_on 2024 12 20; app_on 2023 6 5] D 2024 2023
                    (mkdate 2024 3 1) = Some t
    /\ (In (LStr "05/06") (future_x t 2024 D (mkdate 2024 3 1)) ->
        cell t (LStr "05/06") 2024 = None).
Proof.
  eexists. split; [vm_compute; reflexivity|].
  match goal with
  | |- In _ (future_x ?t _ _ _) -> _ =>
      assert (E : prepare_grouped true [app_on 2024 1 5; app_on 2024 12 20; app_on 2023 6 5]
                    D 2024 2023 (mkdate 2024 3 1) = Some t) by (vm_compute; reflexivity);
      apply (future_x_days true [app_on 2024 1 5; app_on 2024 12 20; app_on 2023 6 5]
               2023 (mkdate 2024 3 1) t
               (valid_apps_sample [(2024, 1, 5); (2024, 12, 20); (2023, 6, 5)] eq_refl)
               (valid_dateb_true (mkdate 2024 3 1) eq_refl)
               (conj (proj1 (Z.leb_le 1000 2024) eq_refl)
                     (proj1 (Z.leb_le 2024 9999) eq_refl)) E)
  end.
Defined.

Lemma filter_later_months (n : nat) :
  filter (fun x => label_in x (map LStr (skipn n month_abbrs))) (map LStr month_abbrs)
  = map LStr (skipn n month_abbrs).
Proof.
  destruct (le_lt_dec 12 n) as [H|H].
  - rewrite skipn_all2 by exact H. reflexivity.
  - do 12 (destruct n as [|n]; [vm_compute; reflexivity|]). lia.
Qed.

(** X12.  The required-average line of the month view.  When the grouping
    lays out every month category ([observed=False]) and some application is
    dated in the current year, the keys under the line are exactly the
    months after today's month, in calendar order; months up to today's
    hold a count, possibly zero, and are never under the line. *)
Theorem future_x_months :
  forall (df : list Application) (last_year : Z) (today : date) (t : Pivot),
    (exists a d, In a df /\ application_date a = Some d /\ year d = year today) ->
    prepare_grouped false df M (year today) last_year today = Some t ->
    future_x t (year today) M today
    = map LStr (skipn (Z.to_nat (month today)) month_abbrs).
Proof.
  intros df ly today t (a & d & Ha & Ed & Ey) H. apply prepare_grouped_Some in H.
  remember (year today) as ty eqn:Ety. clear Ety.
  assert (Hrow : In (mkRow d (year d) (period_of M d)) (with_period M ty ly df))
    by (apply with_period_In; exists a, d; auto).
  assert (Hyear : existsb (Z.eqb ty) (map row_year (with_period M ty ly df)) = true).
  { apply existsb_Zeqb, in_map_iff. now exists (mkRow d (year d) (period_of M d)). }
  assert (Hidx : index t = map LStr month_abbrs).
  { pose proof (prepare_grouped_rows _ _ _ _ _ _ _ H) as (_ & _ & Hi & _).
    pose proof H as H'. rewrite prepare_grouped_unfold in H'. cbv zeta in *.
    apply (f_equal (fun o => match o with Some q => index q | None => [] end)) in H'.
    cbv beta iota in H'. rewrite <- H', Hi.
    unfold pivoted_before_mask. rewrite month_index.
    destruct (with_period M ty ly df); [destruct Hrow|reflexivity]. }
  unfold future_x. rewrite Hidx. rewrite <- filter_later_months.
  apply filter_ext_in. intros x Hx.
  rewrite (cell_prepare_grouped _ _ _ _ _ _ _ _ _ H), Z.eqb_refl. cbn [andb].
  change (masked df M ty ly today x)
    with (label_in x (map LStr (skipn (Z.to_nat (month today)) month_abbrs))).
  destruct (label_in x (map LStr (skipn (Z.to_nat (month today)) month_abbrs)));
    [reflexivity|].
  rewrite premask_cell. cbv zeta. cbn [all_categories negb].
  apply label_in_In in Hx. rewrite Hx, Hyear. reflexivity.
Qed.

Lemma future_x_months_witness :
  exists t,
    prepare_grouped false [app_on 2024 1 5; app_on 2023 6 5] M 2024 2023
                    (mkdate 2024 10 1) = Some t
    /\ future_x t 2024 M (mkdate 2024 10 1) = [LStr "Nov"; LStr "Dec"].
Proof.
  eexists. split; [vm_compute; reflexivity|].
  match goal with
  | |- future_x ?t _ _ _ = _ =>
      assert (E : prepare_grouped false [app_on 2024 1 5; app_on 2023 6 5] M 2024 2023
                    (mkdate 2024 10 1) = Some t) by (vm_compute; reflexivity);
      exact (future_x_months [app_on 2024 1 5; app_on 2023 6 5] 2023 (mkdate 2024 10 1) t
               (ex_intro _ (app_on 2024 1 5)
                  (ex_intro _ (mkdate 2024 1 5)
                     (conj (or_introl eq_refl) (conj eq_refl eq_refl)))) E)
  end.
Defined.

(** X13.  The required-average line of the week view.  A week of the
    table is under the line exactly when its number is above today's ISO
    week number or no application of the current year falls in it: a past
    week in which nothing was delivered this year (its row coming from the
    prior year) is drawn at the required average too. *)
Theorem future_x_weeks :
  forall (observed : bool) (df : list Application) (this_year last_year : Z)
         (today : date) (t : Pivot),
    prepare_grouped observed df W this_year last_year today = Some t ->
    forall w,
      In (LInt w) (future_x t this_year W today) <->
      In (LInt w) (index t)
      /\ (isoweek today < w \/ matching_events df W (LInt w) this_year = []).
Proof.
  intros obs df ty ly today t H w. apply prepare_grouped_Some in H.
  unfold future_x. rewrite filter_In.
  rewrite (cell_prepare_grouped _ _ _ _ _ _ _ _ _ H), Z.eqb_refl. cbn [andb].
  rewrite premask_cell. cbv zeta. cbn [all_categories masked label_gtb].
  rewrite group_size_matching. cbn [existsb]. rewrite Z.eqb_refl. cbn [orb].
  split; intros [Hin Hc]; (split; [exact Hin|]).
  - destruct (isoweek today <? w) eqn:E; [left; now apply Z.ltb_lt|right].
    destruct (matching_events df W (LInt w) ty) as [|e l]; [reflexivity|].
    cbn [List.length] in Hc.
    replace (0 <? Z.of_nat (S (List.length l))) with true in Hc
      by (symmetry; apply Z.ltb_lt; lia).
    discriminate.
  - destruct Hc as [Hc|Hc].
    + apply Z.ltb_lt in Hc. rewrite Hc. reflexivity.
    + rewrite Hc. destruct (isoweek today <? w); reflexivity.
Qed.

Lemma future_x_weeks_witness :
  exists t,
    prepare_grouped true [app_on 2024 3 20; app_on 2023 1 5] W 2024 2023
                    (mkdate 2024 3 21) = Some t
    /\ (In (LInt 1) (future_x t 2024 W (mkdate 2024 3 21)) <->
        In (LInt 1) (index t)
        /\ (isoweek (mkdate 2024 3 21) < 1
            \/ matching_events [app_on 2024 3 20; app_on 2023 1 5] W (LInt 1) 2024 = [])).
Proof.
  eexists. split; [vm_compute; reflexivity|].
  apply (future_x_weeks true [app_on 2024 3 20; app_on 2023 1 5] 2024 2023 (mkdate 2024 3 21)).
  vm_compute. reflexivity.
Defined.

(** *** The figure *)

Lemma column_cells (t : Pivot) (y : Z) :
  NoDup (index t) ->
  In y (columns t) ->
  column t y = map (fun k => cell t k y) (index t).
Proof.
  intros Hn Hy. unfold column, cell, index.
  destruct (index_of y (columns t)) as [j|] eqn:Ej.
  - rewrite map_map. apply map_ext_in. intros r Hr.
    now rewrite (find_key_Some (rows t) (fst r) r Hn Hr eq_refl).
  - apply index_of_None in Ej. contradiction.
Qed.

(** X14.  The lines of a figure.  For a table returned by
    [prepare_grouped], every year line of [plot_chart] is named after the
    current or the prior year, a year in which some application is dated;
    it runs over the whole index and plots, key by key, the cell of that
    key and year.  The required-average line runs over [future_x], which is
    then not empty and lies within the index, at the constant value
    [needed_avg]. *)
Theorem chart_traces :
  forall (observed : bool) (df : list Application) (lv : level)
         (this_year last_year : Z) (today : date) (t : Pivot) (avg : number),
    prepare_grouped observed df lv this_year last_year today = Some t ->
    forall tr, In tr (traces (plot_chart t this_year last_year avg lv today)) ->
      match tr with
      | Series n x y =>
          (n = this_year \/ n = last_year)
          /\ x = index t /\ y = map (fun k => cell t k n) (index t)
          /\ exists a d, In a df /\ application_date a = Some d /\ year d = n
      | RequiredAvg x y =>
          x = future_x t this_year lv today /\ x <> []
          /\ y = repeat avg (List.length x)
          /\ forall k, In k x -> In k (index t)
      end.
Proof.
  intros obs df lv ty ly today t avg H tr Htr. apply prepare_grouped_Some in H.
  pose proof (prepare_grouped_index_spec _ _ _ _ _ _ _ H) as (Hn & _ & _).
  pose proof (prepare_grouped_rows _ _ _ _ _ _ _ H) as (Hc & _). cbv zeta in Hc.
  assert (Hcol : forall n, existsb (Z.eqb n) (columns t) = true ->
             column t n = map (fun k => cell t k n) (index t)
             /\ exists a d, In a df /\ application_date a = Some d /\ year d = n).
  { intros n Hin. apply existsb_Zeqb in Hin. split; [now apply column_cells|].
    rewrite Hc in Hin.
    apply (proj1 (premask_columns_In obs df lv ty ly n)), year_present in Hin. tauto. }
  unfold plot_chart in Htr. cbn [traces] in Htr. apply in_app_or in Htr.
  destruct Htr as [Htr|Htr].
  - destruct (existsb (Z.eqb ly) (columns t)) eqn:E; [|destruct Htr].
    destruct Htr as [<-|[]]. destruct (Hcol ly E) as [-> Hex]. auto.
  - destruct (existsb (Z.eqb ty) (columns t)) eqn:E; [|destruct Htr].
    destruct Htr as [<-|Htr].
    + destruct (Hcol ty E) as [-> Hex]. auto.
    + destruct (future_x t ty lv today) as [|k l] eqn:Ef; [destruct Htr|].
      destruct Htr as [<-|[]]. repeat split; auto; try discriminate.
      intros k' Hk'. rewrite <- Ef in Hk'. unfold future_x in Hk'.
      destruct lv; apply filter_In in Hk'; tauto.
Qed.

Lemma chart_traces_witness :
  exists t,
    prepare_grouped true [app_on 2024 3 20; app_on 2023 1 5] W 2024 2023
                    (mkdate 2024 3 21) = Some t
    /\ forall tr, In tr (traces (plot_chart t 2024 2023 (PyInt 0) W (mkdate 2024 3 21))) ->
         match tr with
         | Series n x y =>
             (n = 2024 \/ n = 2023)
             /\ x = index t /\ y = map (fun k => cell t k n) (index t)
             /\ exists a d, In a [app_on 2024 3 20; app_on 2023 1 5]
                            /\ application_date a = Some d /\ year d = n
         | RequiredAvg x y =>
             x = future_x t 2024 W (mkdate 2024 3 21) /\ x <> []
             /\ y = repeat (PyInt 0) (List.length x)
             /\ forall k, In k x -> In k (index t)
         end.
Proof.
  eexists. split; [vm_compute; reflexivity|].
  apply (chart_traces true [app_on 2024 3 20; app_on 2023 1 5] W 2024 2023 (mkdate 2024 3 21)).
  vm_compute. reflexivity.
Defined.

(** X15.  The ticks of the day view.  For applications with real calendar
    dates, the tick values of the day figure are exactly the keys of the
    table that stand for the first day of a month. *)
Theorem first_of_month_ticks :
  forall (observed : bool) (df : list Application) (this_year last_year : Z)
         (today : date) (t : Pivot) (avg : number),
    valid_apps df ->
    prepare_grouped observed df D this_year last_year today = Some t ->
    exists ticks,
      tickvals (plot_chart t this_year last_year avg D today) = Some ticks
      /\ forall x, In x ticks <->
                   In x (index t)
                   /\ exists d, valid_date d /\ day d = 1 /\ x = LStr (strftime_dm d).
Proof.
  intros obs df ty ly today t avg Hv H. apply prepare_grouped_Some in H.
  unfold plot_chart. cbn [tickvals].
  eexists. split; [reflexivity|]. intros x. rewrite filter_In.
  split.
  - intros [Hin Hp]. split; auto.
    pose proof (label_forms _ _ _ _ _ _ _ Hv H _ Hin) as (d & Hd & ->).
    exists d. repeat split; auto; try apply Hd.
    pose proof Hd as [Hm Hdd].
    pose proof (days_in_month_range (year d) (month d) Hm).
    destruct (parse_strftime_dm d) as (_ & _ & _ & _ & _ & E); try lia.
    rewrite E in Hp. now apply Z.eqb_eq.
  - intros [Hin (d & Hd & H1 & ->)]. split; auto.
    pose proof Hd as [Hm Hdd].
    pose proof (days_in_month_range (year d) (month d) Hm).
    destruct (parse_strftime_dm d) as (_ & _ & _ & _ & _ & E); try lia.
    rewrite E. now apply Z.eqb_eq.
Qed.

Lemma first_of_month_ticks_witness :
  exists ticks,
    tickvals (plot_chart (mkPivot [2024] [(LStr "01/02", [Some 1]); (LStr "20/12", [None])])
                2024 2023 (PyInt 0) D (mkdate 2024 3 1)) = Some ticks
    /\ forall x, In x ticks <->
         In x (index (mkPivot [2024] [(LStr "01/02", [Some 1]); (LStr "20/12", [None])]))
         /\ exists d, valid_date d /\ day d = 1 /\ x = LStr (strftime_dm d).
Proof.
  apply (first_of_month_ticks true [app_on 2024 2 1; app_on 2024 12 20] 2024 2023
           (mkdate 2024 3 1)).
  - apply (valid_apps_sample [(2024, 2, 1); (2024, 12, 20)]). reflexivity.
  - vm_compute. reflexivity.
Defined.

(** *** The quota figures, continued *)

Lemma filter_length_impl {A} (p q : A -> bool) (l : list A) :
  (forall x, In x l -> p x = true -> q x = true) ->
  (List.length (filter p l) <= List.length (filter q l))%nat.
Proof.
  induction l as [|x l IH]; intros H; cbn [filter]; [lia|].
  assert (IH' := IH (fun y Hy => H y (or_intror Hy))).
  destruct (p x) eqn:Ep.
  - rewrite (H x (or_introl eq_refl) Ep). cbn [List.length]. lia.
  - destruct (q x); cbn [List.length]; lia.
Qed.

(** X16.  Delivered counts.  For real dates, the number delivered this
    month is never negative and never above the number delivered this year,
    which is at most the size of the selection, itself at most the size of
    the frame. *)
Theorem delivered_counts :
  forall (apps : list Application) (nat_ loc : string) (active_only : bool)
         (today : date),
    valid_apps apps -> valid_date today ->
    0 <= attained_this_month apps nat_ loc active_only today
      <= attained apps nat_ loc active_only today
    /\ attained apps nat_ loc active_only today
       <= Z.of_nat (List.length (df_filtered apps nat_ loc active_only))
    /\ Z.of_nat (List.length (df_filtered apps nat_ loc active_only))
       <= Z.of_nat (List.length apps).
Proof.
  intros apps nat_ loc active_only today Hv Ht.
  unfold attained_this_month, attained. split; [split; [lia|]|split].
  - apply Nat2Z.inj_le. apply filter_length_impl. intros a Ha H.
    destruct (application_date a) as [d|] eqn:Ed; [|discriminate].
    assert (Hd : valid_date d).
    { apply (valid_apps_In apps a d Hv); auto.
      unfold df_filtered in Ha. apply filter_applications_In in Ha. tauto. }
    apply (in_month_iff today d Ht Hd) in H. apply Z.eqb_eq. unfold this_year. tauto.
  - apply Nat2Z.inj_le. apply filter_length_le.
  - apply Nat2Z.inj_le. unfold df_filtered. rewrite filter_applications_unfold.
    apply filter_length_le.
Qed.

Lemma delivered_counts_witness :
  0 <= attained_this_month [app_on 2024 1 5; app_on 2024 3 20] "A" "B" false (mkdate 2024 3 21)
    <= attained [app_on 2024 1 5; app_on 2024 3 20] "A" "B" false (mkdate 2024 3 21).
Proof.
  apply (delivered_counts [app_on 2024 1 5; app_on 2024 3 20] "A" "B" false (mkdate 2024 3 21)).
  - apply (valid_apps_sample [(2024, 1, 5); (2024, 3, 20)]). reflexivity.
  - apply valid_dateb_true. reflexivity.
Defined.

Lemma float_of_int_100 :
  float_of_int 100 = Some (S754_finite false 7036874417766400 (-46)).
Proof. reflexivity. Qed.

Lemma py_mul_100 (f : spec_float) :
  py_mul (PyFloat f) (PyInt 100)
  = Some (PyFloat (SFmul prec emax f (S754_finite false 7036874417766400 (-46)))).
Proof. unfold py_mul. rewrite float_of_int_100. reflexivity. Qed.

Lemma SFmul_finite_magnitude (s t : bool) (m n : positive) (e f : Z) :
  -1073 < Zdigits2 (Zpos m) + e + (Zdigits2 (Zpos n) + f) - 1 ->
  Zdigits2 (Zpos m) + e + (Zdigits2 (Zpos n) + f) <= 1023 ->
  e + f <= 971 ->
  exists m' e',
    SFmul prec emax (S754_finite s m e) (S754_finite t n f)
    = S754_finite (xorb s t) m' e'
    /\ Zdigits2 (Zpos m') + e' <= Zdigits2 (Zpos m) + e + (Zdigits2 (Zpos n) + f) + 1.
Proof.
  intros HS Hup He. cbv beta iota delta [SFmul].
  pose proof (Zdigits2_mul (Zpos m) (Zpos n) ltac:(lia) ltac:(lia)) as Hd.
  change (Zpos m * Zpos n) with (Zpos (m * n)) in Hd.
  destruct (binary_round_aux_pos (xorb s t) (Zpos (m * n)) (e + f) loc_Exact
              ltac:(lia) ltac:(lia))
    as [(m' & e' & Er & Hmag & _) | [_ Hover]].
  - exists m', e'. split; [exact Er|lia].
  - exfalso. unfold fexp64 in Hover. lia.
Qed.

Lemma py_int_bound (m : positive) (e N : Z) :
  0 <= N -> Zdigits2 (Zpos m) + e <= N ->
  exists v, py_int (PyFloat (S754_finite false m e)) = Some v /\ 0 <= v < 2 ^ N.
Proof.
  intros HN Hmag. cbn [py_int].
  pose proof (Zdigits2_bounds (Zpos m) ltac:(lia)) as [_ Hm].
  pose proof (Zdigits2_pos (Zpos m) ltac:(lia)) as Hd.
  set (dg := Zdigits2 (Zpos m)) in *.
  eexists. split; [reflexivity|].
  destruct e as [|p|p].
  - rewrite Z.shiftl_0_r. split; [lia|].
    apply Z.lt_le_trans with (2 ^ dg); [exact Hm|]. apply Z.pow_le_mono_r; lia.
  - rewrite Z.shiftl_mul_pow2 by lia. split; [apply Z.mul_nonneg_nonneg; lia|].
    apply Z.lt_le_trans with (2 ^ dg * 2 ^ Zpos p).
    + apply Z.mul_lt_mono_pos_r; [apply Z.pow_pos_nonneg; lia|exact Hm].
    + rewrite <- Z.pow_add_r by lia. apply Z.pow_le_mono_r; lia.
  - rewrite Z.shiftr_div_pow2 by lia. split; [apply Z.div_pos; [lia|apply Z.pow_pos_nonneg; lia]|].
    destruct (Z_le_dec (Zpos p) dg) as [Hle|Hgt].
    + apply Z.lt_le_trans with (2 ^ (dg - Zpos p)); [|apply Z.pow_le_mono_r; lia].
      apply Z.div_lt_upper_bound; [apply Z.pow_pos_nonneg; lia|].
      rewrite <- Z.pow_add_r by lia. replace (Zpos p + (dg - Zpos p)) with dg by lia.
      exact Hm.
    + rewrite Z.div_small; [apply Z.pow_pos_nonneg; lia|].
      split; [lia|]. apply Z.lt_le_trans with (2 ^ dg); [exact Hm|].
      apply Z.pow_le_mono_r; lia.
Qed.

(** The extrapolation of the forecast, with its sign and size. *)
Lemma forecast_bounds (a b c : Z) :
  0 <= a < 2 ^ 63 -> 1 <= b <= 31 -> 28 <= c <= 31 ->
  exists v, (do x <- py_truediv (PyInt a) (PyInt b);
             do y <- py_mul x (PyInt c); py_int y) = Some v
            /\ 0 <= v < 2 ^ 70 /\ (a = 0 -> v = 0).
Proof.
  intros Ha Hb Hc.
  destruct (float_of_int_days c Hc) as (k & Hk & Hdk).
  unfold py_truediv.
  destruct (Z.eq_dec a 0) as [-> | Hnz].
  - unfold int_truediv.
    destruct (b =? 0) eqn:Eb; [apply Z.eqb_eq in Eb; lia|].
    cbn [Z.eqb option_map bind]. unfold py_mul. rewrite Hk.
    cbn [option_map bind SFmul py_int]. exists 0. repeat split; lia.
  - assert (Habs : Z.abs a < 2 ^ 1023).
    { apply Z.lt_trans with (2 ^ 63); [lia|]. apply Z.pow_lt_mono_r; lia. }
    assert (Hbbs : Z.abs b < 2 ^ 1000).
    { apply Z.lt_trans with (2 ^ 63); [lia|]. apply Z.pow_lt_mono_r; lia. }
    destruct (int_truediv_finite a b Hnz ltac:(lia) Habs Hbbs) as (m & e & Hdiv & HS & He).
    assert (Hsign : xorb (a <? 0) (b <? 0) = false).
    { replace (a <? 0) with false by (symmetry; apply Z.ltb_ge; lia).
      replace (b <? 0) with false by (symmetry; apply Z.ltb_ge; lia). reflexivity. }
    rewrite Hsign in Hdiv.
    rewrite Hdiv. cbn [option_map bind]. unfold py_mul. rewrite Hk. cbn [option_map bind].
    assert (Hda : Zdigits2 (Z.abs a) <= 63)
      by (apply Zdigits2_le_pow2; lia).
    destruct (SFmul_finite_magnitude false false m k e (-48))
      as (m' & e' & Hmul & Hmag); try lia.
    rewrite Hmul. cbn [xorb].
    destruct (py_int_bound m' e' 70 ltac:(lia) ltac:(lia)) as (v & Hv & Hrange).
    exists v. repeat split; auto; try lia.
Qed.

(** X17.  The monthly summary never raises.  For a real date of today, a
    frame of fewer than 2^63 rows and a daily quota within 64 bits, the
    forecast is a number, not negative, and 0 when nothing was delivered
    this month; and both percentages are computed without an exception,
    whether the monthly quota is zero or not. *)
Theorem monthly_summary_total :
  forall (apps : list Application) (quotas : list QuotaRow) (nat_ loc : string)
         (active_only : bool) (today : date),
    valid_date today ->
    Z.of_nat (List.length apps) < 2 ^ 63 ->
    Z.abs (daily_quota quotas nat_ loc active_only) < 2 ^ 63 ->
    (exists v, forecast_by_eom apps nat_ loc active_only today = Some v
               /\ 0 <= v
               /\ (attained_this_month apps nat_ loc active_only today = 0 -> v = 0))
    /\ (exists p, percent_delivered apps quotas nat_ loc active_only today = Some p)
    /\ (exists p, percent_forecast apps quotas nat_ loc active_only today = Some p).
Proof.
  intros apps quotas nat_ loc active_only today Ht Hn Hq.
  pose proof Ht as [Hm Hd].
  pose proof (days_in_month_range (year today) (month today) Hm) as Hdim.
  assert (Ha : 0 <= attained_this_month apps nat_ loc active_only today < 2 ^ 63).
  { split; [unfold attained_this_month; lia|].
    apply Z.le_lt_trans with (Z.of_nat (List.length apps)); [|exact Hn].
    unfold attained_this_month. apply Nat2Z.inj_le.
    etransitivity; [apply filter_length_le|].
    unfold df_filtered. rewrite filter_applications_unfold. apply filter_length_le. }
  assert (Hsum : days_passed today + remaining_days_in_month today
                 = days_in_month (year today) (month today))
    by (rewrite days_passed_eq, remaining_days_in_month_eq; lia).
  assert (Hdp : 1 <= days_passed today <= 31) by (rewrite days_passed_eq; lia).
  destruct (forecast_bounds (attained_this_month apps nat_ loc active_only today)
              (days_passed today) (days_in_month (year today) (month today)) Ha Hdp Hdim)
    as (v & Hv & Hrange & Hzero).
  assert (Hf : forecast_by_eom apps nat_ loc active_only today = Some v).
  { unfold forecast_by_eom.
    replace (days_passed today =? 0) with false by (symmetry; apply Z.eqb_neq; lia).
    cbn [negb]. rewrite Hsum. exact Hv. }
  assert (Hnp : monthly_quota quotas nat_ loc active_only today <> 0 ->
                quota_is_np quotas nat_ loc = true).
  { intros Hne. destruct (quota_is_np quotas nat_ loc) eqn:Enp; [reflexivity|].
    exfalso. apply Hne. unfold monthly_quota.
    apply quota_times_zero, quota_row_not_found. exact Enp. }
  split; [|split].
  - exists v. repeat split; auto; lia.
  - unfold percent_delivered.
    destruct (monthly_quota quotas nat_ loc active_only today =? 0) eqn:E; cbn [negb].
    + now eexists.
    + apply Z.eqb_neq in E. unfold quota_truediv. rewrite (Hnp E). cbn [bind].
      unfold np_truediv. rewrite py_mul_100. now eexists.
  - unfold percent_forecast.
    destruct (monthly_quota quotas nat_ loc active_only today =? 0) eqn:E; cbn [negb].
    + now eexists.
    + apply Z.eqb_neq in E. rewrite Hf. cbn [bind].
      unfold quota_truediv. rewrite (Hnp E). cbn [bind].
      unfold np_truediv. rewrite py_mul_100. now eexists.
Qed.

Lemma monthly_summary_total_witness :
  exists p, percent_forecast [app_on 2024 1 5; app_on 2024 1 20]
              [mkQuota (Some "A") (Some "B") 10 5] "A" "B" false (mkdate 2024 1 21) = Some p.
Proof.
  apply (monthly_summary_total [app_on 2024 1 5; app_on 2024 1 20]
           [mkQuota (Some "A") (Some "B") 10 5] "A" "B" false (mkdate 2024 1 21)).
  - apply valid_dateb_true. reflexivity.
  - reflexivity.
  - reflexivity.
Defined.

Lemma needed_avg_cases :
  forall (apps : list Application) (quotas : list QuotaRow) (nat_ loc : string)
         (active_only : bool) (today : date) (lv : level),
    valid_date today ->
    Z.abs (daily_quota quotas nat_ loc active_only) < 2 ^ 63 ->
    attained apps nat_ loc active_only today < 2 ^ 63 ->
    exists v,
      needed_avg apps quotas nat_ loc active_only today lv = Some v
      /\ (remaining_days today = 0 -> v = PyInt 0)
      /\ (0 < remaining_days today ->
          attained apps nat_ loc active_only today
            < total_quota quotas nat_ loc active_only today ->
          exists f, v = PyFloat f /\ SFltb (S754_zero false) f = true)
      /\ (0 < remaining_days today ->
          attained apps nat_ loc active_only today
            = total_quota quotas nat_ loc active_only today ->
          v = PyFloat (S754_zero false)).
Proof.
  intros apps quotas nat_ loc active_only today lv Ht Hq Ha.
  pose proof (remaining_days_range today Ht) as Hr.
  assert (Ha0 : 0 <= attained apps nat_ loc active_only today)
    by (unfold attained; lia).
  pose proof (quota_times_range quotas nat_ loc active_only (year_days today)) as Htq.
  change (quota_times quotas nat_ loc active_only (year_days today))
    with (total_quota quotas nat_ loc active_only today) in Htq.
  destruct (Z.eq_dec (remaining_days today) 0) as [E0|N0].
  - exists (PyInt 0). unfold needed_avg. rewrite E0. cbn [Z.ltb Z.compare bind].
    split; [destruct lv; reflexivity|]. split; [reflexivity|]. split; intros; lia.
  - pose proof (needed_avg_value apps quotas nat_ loc active_only today lv) as Hval.
    cbv zeta in Hval.
    assert (Hexact : - 2 ^ 63 <= total_quota quotas nat_ loc active_only today
                                 - attained apps nat_ loc active_only today ->
                     quota_minus quotas nat_ loc
                       (total_quota quotas nat_ loc active_only today)
                       (attained apps nat_ loc active_only today)
                     = total_quota quotas nat_ loc active_only today
                       - attained apps nat_ loc active_only today)
      by (intros Hlow; apply quota_minus_exact; lia).
    set (diff := quota_minus quotas nat_ loc
                   (total_quota quotas nat_ loc active_only today)
                   (attained apps nat_ loc active_only today)) in *.
    assert (Hdiff : Z.abs diff <= 2 ^ 63).
    { unfold diff, quota_minus. destruct (quota_is_np quotas nat_ loc) eqn:Enp.
      - pose proof (wrap64_range (total_quota quotas nat_ loc active_only today
                                  - attained apps nat_ loc active_only today)). lia.
      - unfold total_quota.
        rewrite quota_times_zero by (apply quota_row_not_found; exact Enp). lia. }
    destruct Hval as [Hz Hnz]; [|exact Hdiff|].
    { split; [lia|]. apply Z.lt_trans with (2 ^ 9); [change (2 ^ 9) with 512; lia|].
      apply Z.pow_lt_mono_r; lia. }
    destruct (Z.eq_dec diff 0) as [Ez|Nz].
    + exists (PyFloat (S754_zero false)). split; [exact (Hz Ez)|].
      split; [intros; lia|]. split; [|reflexivity].
      intros _ Hlt. exfalso. rewrite Hexact in Ez by lia. lia.
    + destruct (Hnz Nz) as (m & e & E & _).
      exists (PyFloat (S754_finite (diff <? 0) m e)). split; [exact E|].
      split; [intros; lia|]. split.
      * intros _ Hlt. rewrite Hexact by lia.
        replace (_ <? 0) with false by (symmetry; apply Z.ltb_ge; lia).
        eexists. split; reflexivity.
      * intros _ Heq. exfalso. rewrite Hexact in Nz by lia. lia.
Qed.

(** X18.  The required average, case by case.  For a real date of today
    and 64-bit figures, [needed_avg] never raises.  On 31 December it is the
    int 0.  Before that it is a float: greater than zero when fewer
    applications were delivered this year than [total_quota], the annual
    quota as the page holds it (a product that has wrapped around at 64
    bits included), and positive zero when that quota is met exactly. *)
Theorem needed_avg_sign :
  forall (apps : list Application) (quotas : list QuotaRow) (nat_ loc : string)
         (active_only : bool) (today : date) (lv : level),
    valid_date today ->
    Z.abs (daily_quota quotas nat_ loc active_only) < 2 ^ 63 ->
    attained apps nat_ loc active_only today < 2 ^ 63 ->
    exists v,
      needed_avg apps quotas nat_ loc active_only today lv = Some v
      /\ (remaining_days today = 0 -> v = PyInt 0)
      /\ (0 < remaining_days today ->
          attained apps nat_ loc active_only today
            < total_quota quotas nat_ loc active_only today ->
          exists f, v = PyFloat f /\ SFltb (S754_zero false) f = true)
      /\ (0 < remaining_days today ->
          attained apps nat_ loc active_only today
            = total_quota quotas nat_ loc active_only today ->
          v = PyFloat (S754_zero false)).
Proof. exact needed_avg_cases. Qed.

Lemma needed_avg_sign_witness :
  exists v,
    needed_avg [app_on 2024 1 5] [mkQuota (Some "A") (Some "B") 10 5] "A" "B" false
      (mkdate 2024 1 21) W = Some v.
Proof.
  destruct (needed_avg_sign [app_on 2024 1 5] [mkQuota (Some "A") (Some "B") 10 5]
              "A" "B" false (mkdate 2024 1 21) W
              (valid_dateb_true (mkdate 2024 1 21) eq_refl) eq_refl eq_refl)
    as (v & Hv & _).
  now exists v.
Defined.

(** *** The week mask at the end of the year *)

Lemma toordinal_jan (y d : Z) : toordinal (mkdate y 1 d) = days_before_year y + d.
Proof.
  unfold toordinal. cbn [year month day].
  change (days_before_month y 1) with (0 + (if (2 <? 1) && is_leap y then 1 else 0)).
  cbn [Z.ltb Z.compare andb Pos.compare Pos.compare_cont]. lia.
Qed.

Lemma toordinal_dec (y d : Z) :
  toordinal (mkdate y 12 d) = days_before_year (y + 1) - 31 + d.
Proof.
  unfold toordinal. cbn [year month day].
  rewrite days_before_year_succ. pose proof (days_before_december y). lia.
Qed.

(** From 11 January to 28 December a date lies in week 2 or later of its
    own year. *)
Lemma isoweek_mid_year (d : date) :
  valid_date d -> 111 <= month d * 100 + day d <= 1228 -> 2 <= isoweek d.
Proof.
  intros Hv Hr.
  assert (Hlo : toordinal (mkdate (year d) 1 11) <= toordinal d).
  { apply toordinal_same_year; auto; [apply valid_dateb_true|]; cbn; try reflexivity.
    lia. }
  assert (Hhi : toordinal d <= toordinal (mkdate (year d) 12 28)).
  { apply toordinal_same_year; auto; [apply valid_dateb_true|]; cbn; try reflexivity.
    lia. }
  rewrite toordinal_jan in Hlo. rewrite toordinal_dec in Hhi.
  pose proof (isoweek1monday_spec (year d)) as [H0 _].
  pose proof (isoweek1monday_spec (year d + 1)) as [H2 _].
  cbv zeta in *. unfold isoweek.
  set (o := toordinal d) in *.
  set (w0 := isoweek1monday (year d)) in *.
  set (w1 := isoweek1monday (year d - 1)) in *.
  set (w2 := isoweek1monday (year d + 1)) in *.
  set (b0 := days_before_year (year d)) in *.
  set (b2 := days_before_year (year d + 1)) in *.
  clearbody o w0 w1 w2 b0 b2.
  destruct ((o - w0) / 7 <? 0) eqn:E1;
    [apply Z.ltb_lt in E1|apply Z.ltb_ge in E1].
  - exfalso. Z.div_mod_to_equations. lia.
  - replace (w2 <=? o) with false by (symmetry; apply Z.leb_gt; lia).
    rewrite andb_false_r. Z.div_mod_to_equations. lia.
Qed.

(** In December, week number 1 means the week that opens the next ISO year. *)
Lemma isoweek_december_one (d : date) :
  valid_date d -> month d = 12 -> isoweek d = 1 ->
  isoweek1monday (year d + 1) <= toordinal d.
Proof.
  intros Hv Hm Hw.
  assert (Hlo : toordinal (mkdate (year d) 12 1) <= toordinal d).
  { apply toordinal_same_year; auto; [apply valid_dateb_true|]; cbn; try reflexivity.
    destruct Hv. lia. }
  rewrite toordinal_dec in Hlo.
  pose proof (days_before_year_succ (year d)) as Hs.
  pose proof (year_length_cases (year d)) as Hl.
  pose proof (isoweek1monday_spec (year d)) as [H0 _].
  cbv zeta in *. unfold isoweek in Hw.
  set (o := toordinal d) in *.
  set (w0 := isoweek1monday (year d)) in *.
  set (w1 := isoweek1monday (year d - 1)) in *.
  set (w2 := isoweek1monday (year d + 1)) in *.
  set (b0 := days_before_year (year d)) in *.
  set (b2 := days_before_year (year d + 1)) in *.
  set (g0 := gregorian_year_length (year d)) in *.
  clearbody o w0 w1 w2 b0 b2 g0.
  destruct ((o - w0) / 7 <? 0) eqn:E1;
    [apply Z.ltb_lt in E1|apply Z.ltb_ge in E1].
  - exfalso. Z.div_mod_to_equations. lia.
  - destruct (w2 <=? o) eqn:E2; [now apply Z.leb_le|].
    rewrite andb_false_r in Hw. exfalso. Z.div_mod_to_equations. lia.
Qed.

(** X19.  The week mask at the end of the year.  On a day of late
    December that belongs to ISO week 1 (of the next ISO year), the week
    mask [index > current_week] blanks every week above 1: for every date
    of the current year from 11 January to 28 December, a date before
    today, the current-year cell of its week is absent, whatever was
    delivered in it. *)
Theorem week_mask_year_end :
  forall (observed : bool) (df : list Application) (last_year : Z)
         (today d : date) (t : Pivot),
    valid_date today -> month today = 12 -> isoweek today = 1 ->
    valid_date d -> year d = year today ->
    111 <= month d * 100 + day d <= 1228 ->
    prepare_grouped observed df W (year today) last_year today = Some t ->
    toordinal d < toordinal today
    /\ cell t (period_of W d) (year today) = None.
Proof.
  intros obs df ly today d t Ht Hm Hw Hd Hy Hr H. apply prepare_grouped_Some in H.
  pose proof (isoweek_mid_year d Hd Hr) as Hmid. split.
  - pose proof (isoweek_december_one today Ht Hm Hw) as Hend.
    assert (Hhi : toordinal d <= toordinal (mkdate (year d) 12 28)).
    { apply toordinal_same_year; auto; [apply valid_dateb_true|]; cbn; try reflexivity.
      lia. }
    rewrite toordinal_dec, Hy in Hhi.
    pose proof (isoweek1monday_spec (year today + 1)) as [H2 _]. cbv zeta in H2. lia.
  - rewrite (cell_prepare_grouped _ _ _ _ _ _ _ _ _ H), Z.eqb_refl, masked_W, Hw.
    replace (isoweek d <=? 1) with false by (symmetry; apply Z.leb_gt; lia).
    reflexivity.
Qed.

Lemma week_mask_year_end_witness :
  exists t,
    prepare_grouped true [app_on 2024 6 14] W 2024 2023 (mkdate 2024 12 30) = Some t
    /\ toordinal (mkdate 2024 6 14) < toordinal (mkdate 2024 12 30)
    /\ cell t (period_of W (mkdate 2024 6 14)) 2024 = None.
Proof.
  eexists. split; [vm_compute; reflexivity|].
  apply (week_mask_year_end true [app_on 2024 6 14] 2023 (mkdate 2024 12 30)
           (mkdate 2024 6 14)).
  - apply valid_dateb_true. reflexivity.
  - reflexivity.
  - reflexivity.
  - apply valid_dateb_true. reflexivity.
  - reflexivity.
  - cbn. lia.
  - vm_compute. reflexivity.
Defined.

(** *** A view of the page *)

Lemma valid_apps_filtered (apps : list Application) (nat_ loc : string)
    (active_only : bool) :
  valid_apps apps -> valid_apps (df_filtered apps nat_ loc active_only).
Proof.
  unfold valid_apps. rewrite !Forall_forall. intros H a Ha. apply H.
  unfold df_filtered in Ha. apply filter_applications_In in Ha. tauto.
Qed.

Lemma attained_le_length (apps : list Application) (nat_ loc : string)
    (active_only : bool) (today : date) :
  attained apps nat_ loc active_only today <= Z.of_nat (List.length apps).
Proof.
  unfold attained. apply Nat2Z.inj_le.
  etransitivity; [apply filter_length_le|].
  unfold df_filtered. rewrite filter_applications_unfold. apply filter_length_le.
Qed.

(** X20.  A view renders.  For applications with real calendar dates, a
    selection whose dates [pd.to_datetime] holds (before pandas 3.0: dates
    from 1677-09-22 to 2262-04-11), a real date of today, a frame of fewer
    than 2^63 rows and a daily quota within 64 bits, the conversion of line
    135 and one pass of the loop over the three views ([prepare_grouped],
    [needed_avg], [plot_chart]) raise nothing and yield a figure of at most
    three lines; only the day figure sets tick values. *)
Theorem render_view_total :
  forall (observed : bool) (apps : list Application) (quotas : list QuotaRow)
         (nat_ loc : string) (active_only : bool) (today : date) (lv : level),
    valid_apps apps ->
    dates_in_bounds observed (filter_applications apps nat_ loc active_only) ->
    valid_date today ->
    Z.of_nat (List.length apps) < 2 ^ 63 ->
    Z.abs (daily_quota quotas nat_ loc active_only) < 2 ^ 63 ->
    exists fig,
      render_view observed apps quotas nat_ loc active_only today lv = Some fig
      /\ (List.length (traces fig) <= 3)%nat
      /\ (tickvals fig = None <-> lv <> D).
Proof.
  intros obs apps quotas nat_ loc active_only today lv Hv Hb Ht Hn Hq.
  change (filter_applications apps nat_ loc active_only)
    with (df_filtered apps nat_ loc active_only) in Hb.
  unfold render_view, df_plot.
  rewrite (to_datetime_in_bounds obs _ Hb). cbn [bind].
  rewrite (prepare_grouped_in_bounds obs _ lv (this_year today) (last_year today) today Hb).
  destruct (prepare_grouped_sorted obs (df_filtered apps nat_ loc active_only) lv
              (this_year today) (last_year today) today
              (valid_apps_filtered apps nat_ loc active_only Hv))
    as (t & ranks & -> & _).
  pose proof (attained_le_length apps nat_ loc active_only today) as Hle.
  destruct (needed_avg_cases apps quotas nat_ loc active_only today lv Ht Hq ltac:(lia))
    as (v & -> & _).
  cbn [bind]. eexists. split; [reflexivity|]. split.
  - unfold plot_chart. cbn [traces]. rewrite length_app.
    destruct (existsb (Z.eqb (last_year today)) (columns t));
      destruct (existsb (Z.eqb (this_year today)) (columns t)); cbn [List.length]; try lia.
    + destruct (future_x t (this_year today) lv today); cbn [List.length]; lia.
    + destruct (future_x t (this_year today) lv today); cbn [List.length]; lia.
  - unfold plot_chart. cbn [tickvals]. destruct lv; split; congruence.
Qed.

Lemma render_view_total_witness :
  exists fig,
    render_view false [app_on 2024 1 5; app_on 2024 3 20] [mkQuota (Some "A") (Some "B") 10 5]
      "A" "B" false (mkdate 2024 3 21) W = Some fig
    /\ (List.length (traces fig) <= 3)%nat
    /\ (tickvals fig = None <-> W <> D).
Proof.
  apply (render_view_total false [app_on 2024 1 5; app_on 2024 3 20]
           [mkQuota (Some "A") (Some "B") 10 5] "A" "B" false (mkdate 2024 3 21) W).
  - apply (valid_apps_sample [(2024, 1, 5); (2024, 3, 20)]). reflexivity.
  - apply (dates_in_bounds_sample false [(2024, 1, 5); (2024, 3, 20)]). reflexivity.
  - apply valid_dateb_true. reflexivity.
  - reflexivity.
  - reflexivity.
Defined.
